(** * Lamela browser extension: transport, packet codec, command dispatch

    A shallow embedding of [src/ws.ts], [src/commandHandler.ts],
    [src/background.ts] and the shared type definitions ([types.ts]),
    together with the parts of the JavaScript runtime these files call
    ([JSON.stringify], [JSON.parse], string conversion, truthiness), and
    the properties of the relay protocol proved about them.

    Conventions.
    - JavaScript strings are modelled as Rocq strings (sequences of bytes;
      text outside ASCII is carried as its UTF-8 bytes).
    - A JavaScript number is carried as the decimal [m * 10^e] that
      JavaScript writes for it; the rounding of IEEE doubles is written out
      only where the code computes with fractions ([generateAccessCode]).
    - Objects are association lists in property enumeration order.
    - A promise is modelled by how it settles, or by the fact that it never
      does; the browser APIs the code calls are fields of an explicit
      environment record. *)

From Stdlib Require Import ZArith Lia Bool List Ascii String SpecFloat.
From stdpp Require Import base option list strings gmap.

Local Open Scope string_scope.
Local Open Scope Z_scope.

(** ** JavaScript values *)

Module JS.

(** A number: a finite decimal [m * 10^e], or one of the three non-finite
    doubles. Integers are kept with exponent [0]. *)
Inductive number : Type :=
| Fin (m : Z) (e : Z)
| NaN
| Infinity (negative : bool).

Definition Int (z : Z) : number := Fin z 0.

Unset Elimination Schemes.
Inductive value : Type :=
| VUndefined
| VNull
| VBool (b : bool)
| VNum (n : number)
| VStr (s : string)
| VDate (ms : Z)                       (* a valid Date object: its time value *)
| VArr (items : list value)
| VObj (props : list (string * value)).
Set Elimination Schemes.

(** Induction on values, through the lists of arrays and objects. *)
Section ValueInduction.
Variable P : value -> Prop.
Hypothesis P_undefined : P VUndefined.
Hypothesis P_null : P VNull.
Hypothesis P_bool : forall b, P (VBool b).
Hypothesis P_num : forall n, P (VNum n).
Hypothesis P_str : forall s, P (VStr s).
Hypothesis P_date : forall ms, P (VDate ms).
Hypothesis P_arr : forall items, Forall P items -> P (VArr items).
Hypothesis P_obj : forall props, Forall (fun kv => P (snd kv)) props -> P (VObj props).

Fixpoint value_ind (v : value) : P v :=
  match v with
  | VUndefined => P_undefined
  | VNull => P_null
  | VBool b' => P_bool b'
  | VNum n => P_num n
  | VStr s => P_str s
  | VDate ms => P_date ms
  | VArr items =>
      P_arr items
        ((fix all (l : list value) : Forall P l :=
            match l with
            | [] => @List.Forall_nil _ P
            | x :: rest => @List.Forall_cons _ P x rest (value_ind x) (all rest)
            end) items)
  | VObj props =>
      P_obj props
        ((fix all (l : list (string * value)) : Forall (fun kv => P (snd kv)) l :=
            match l with
            | [] => @List.Forall_nil _ _
            | kv :: rest =>
                @List.Forall_cons _ (fun kv => P (snd kv)) kv rest (value_ind (snd kv)) (all rest)
            end) props)
  end.
End ValueInduction.

(** Something thrown: an [Error] instance (also [TypeError], [SyntaxError],
    which the code only reads through [message]) or any other value. *)
Inductive exn : Type :=
| JsError (message : string)
| JsThrown (v : value).

Inductive result (A : Type) : Type :=
| Ok (a : A)
| Throw (e : exn).
Arguments Ok {A} a.
Arguments Throw {A} e.

Definition bind {A B} (r : result A) (k : A -> result B) : result B :=
  match r with
  | Ok a => k a
  | Throw e => Throw e
  end.

(** [v.k] on own properties: objects look the key up, every other value
    the code meets has no such own property. *)
Fixpoint lookup_prop (k : string) (props : list (string * value)) : value :=
  match props with
  | [] => VUndefined
  | (k', v) :: rest => if String.eqb k k' then v else lookup_prop k rest
  end.

Definition get (v : value) (k : string) : value :=
  match v with
  | VObj props => lookup_prop k props
  | _ => VUndefined
  end.

Definition number_truthy (n : number) : bool :=
  match n with
  | Fin m _ => negb (m =? 0)
  | NaN => false
  | Infinity _ => true
  end.

(** ToBoolean *)
Definition truthy (v : value) : bool :=
  match v with
  | VUndefined | VNull => false
  | VBool b => b
  | VNum n => number_truthy n
  | VStr s => negb (String.eqb s "")
  | VDate _ | VArr _ | VObj _ => true
  end.

(** [a || b] *)
Definition or_else (a b : value) : value := if truthy a then a else b.

(** *** Decimal numerals *)

Definition digit_char (d : Z) : ascii :=
  Ascii.ascii_of_nat (Z.to_nat (48 + d)).

(** The digits of a non-negative integer, most significant first; [acc]
    holds the digits already produced. [fuel] bounds the number of digits. *)
Fixpoint digits_aux (fuel : nat) (n : Z) (acc : string) : string :=
  match fuel with
  | O => acc
  | S fuel' =>
      let acc' := String (digit_char (n mod 10)) acc in
      if n <? 10 then acc' else digits_aux fuel' (n / 10) acc'
  end.

Definition digits (n : Z) : string :=
  digits_aux (S (Z.to_nat (Z.log2 n))) n "".

Definition int_to_string (z : Z) : string :=
  if z <? 0 then "-" +:+ digits (- z) else digits z.

(** [n] written with at least [w] digits, zero padded on the left. *)
Fixpoint zeros (n : nat) : string :=
  match n with
  | O => ""
  | S n' => String "0" (zeros n')
  end.

Definition pad_left (w : nat) (s : string) : string :=
  zeros (w - String.length s) +:+ s.

(** Number::toString for the decimals of the model: integers in plain
    decimal notation, fractions with a decimal point. (The exponent
    notation that JavaScript switches to from 1e21 on and below 1e-6 is not
    modelled; such numbers are written out in full.) *)
Definition number_to_string (n : number) : string :=
  match n with
  | NaN => "NaN"
  | Infinity false => "Infinity"
  | Infinity true => "-Infinity"
  | Fin m e =>
      if 0 <=? e then int_to_string (m * 10 ^ e)
      else
        let k := Z.to_nat (- e) in
        let a := Z.abs m in
        let ip := a / 10 ^ (- e) in
        let fp := a mod 10 ^ (- e) in
        (if m <? 0 then "-" else "") +:+ digits ip +:+ "." +:+ pad_left k (digits fp)
  end.

(** *** Dates *)

Definition two (n : Z) : string := pad_left 2 (digits n).
Definition three (n : Z) : string := pad_left 3 (digits n).

(** Year, month (1..12) and day of the month of a day count since
    1970-01-01, in the proleptic Gregorian calendar. *)
Definition civil_from_days (days : Z) : Z * Z * Z :=
  let z := days + 719468 in
  let era := z / 146097 in
  let doe := z mod 146097 in
  let yoe := (doe - doe / 1460 + doe / 36524 - doe / 146096) / 365 in
  let doy := doe - (365 * yoe + yoe / 4 - yoe / 100) in
  let mp := (5 * doy + 2) / 153 in
  let d := doy - (153 * mp + 2) / 5 + 1 in
  let m := if mp <? 10 then mp + 3 else mp - 9 in
  let y := yoe + era * 400 + (if m <=? 2 then 1 else 0) in
  (y, m, d).

Definition ms_per_day : Z := 86400000.

Definition time_of_day (ms : Z) : string :=
  let t := ms mod ms_per_day in
  two (t / 3600000) +:+ ":" +:+ two (t / 60000 mod 60) +:+ ":" +:+ two (t / 1000 mod 60).

(** Date.prototype.toISOString (and hence toJSON) *)
Definition toISOString (ms : Z) : string :=
  let '(y, m, d) := civil_from_days (ms / ms_per_day) in
  let year :=
    if (0 <=? y) && (y <=? 9999) then pad_left 4 (digits y)
    else (if y <? 0 then "-" else "+") +:+ pad_left 6 (digits (Z.abs y)) in
  year +:+ "-" +:+ two m +:+ "-" +:+ two d +:+ "T" +:+ time_of_day ms +:+ "."
    +:+ three (ms mod 1000) +:+ "Z".

Definition day_name (wd : Z) : string :=
  nth (Z.to_nat wd) ["Sun"; "Mon"; "Tue"; "Wed"; "Thu"; "Fri"; "Sat"] "".

Definition month_name (m : Z) : string :=
  nth (Z.to_nat (m - 1))
    ["Jan"; "Feb"; "Mar"; "Apr"; "May"; "Jun"; "Jul"; "Aug"; "Sep"; "Oct"; "Nov"; "Dec"] "".

(** Date.prototype.toString on a host whose time zone is UTC. *)
Definition date_to_string (ms : Z) : string :=
  let days := ms / ms_per_day in
  let '(y, m, d) := civil_from_days days in
  day_name ((days + 4) mod 7) +:+ " " +:+ month_name m +:+ " " +:+ two d +:+ " "
    +:+ (if y <? 0 then "-" else "") +:+ pad_left 4 (digits (Z.abs y)) +:+ " "
    +:+ time_of_day ms +:+ " GMT+0000 (Coordinated Universal Time)".

(** *** ToString *)

Fixpoint join (sep : string) (parts : list string) : string :=
  match parts with
  | [] => ""
  | [x] => x
  | x :: rest => x +:+ sep +:+ join sep rest
  end.

Fixpoint ToString (v : value) : string :=
  match v with
  | VUndefined => "undefined"
  | VNull => "null"
  | VBool true => "true"
  | VBool false => "false"
  | VNum n => number_to_string n
  | VStr s => s
  | VDate ms => date_to_string ms
  | VArr items =>
      join ","
        (map (fun x => match x with
                       | VUndefined | VNull => ""
                       | _ => ToString x
                       end) items)
  | VObj _ => "[object Object]"
  end.

(** ToString throws on an object that has a [toString] property of its
    own that is no function, as every property of a parsed object is; an
    array converts its elements. [printable v] says that the conversion of
    [v] does not throw. *)
Fixpoint printable (v : value) : bool :=
  match v with
  | VArr items => forallb printable items
  | VObj props => negb (existsb (fun kv => String.eqb (fst kv) "toString") props)
  | _ => true
  end.

(** The conversion of a template literal, [`${v}`], and of [String(v)]. *)
Definition template (v : value) : result string :=
  if printable v then Ok (ToString v)
  else Throw (JsError "Cannot convert object to primitive value").

End JS.

(** ** JSON text: [JSON.stringify] and [JSON.parse] *)

Module JSON.
Import JS.

Definition code (c : ascii) : Z := Z.of_N (N_of_ascii c).
Definition char (n : Z) : ascii := ascii_of_N (Z.to_N n).

Definition dquote : ascii := "034"%char.
Definition backslash : ascii := "\"%char.

Definition hex_char (d : Z) : ascii :=
  if d <? 10 then char (48 + d) else char (87 + d).

(** *** Serialisation *)

(** One code unit inside a JSON string literal (QuoteJSONString). *)
Definition quote_char (c : ascii) : string :=
  let n := code c in
  if n =? 34 then String backslash (String dquote "")
  else if n =? 92 then String backslash (String backslash "")
  else if n =? 8 then "\b"
  else if n =? 12 then "\f"
  else if n =? 10 then "\n"
  else if n =? 13 then "\r"
  else if n =? 9 then "\t"
  else if n <? 32 then "\u00" +:+ String (hex_char (n / 16)) (String (hex_char (n mod 16)) "")
  else String c "".

Fixpoint quote_chars (s : string) : string :=
  match s with
  | EmptyString => ""
  | String c rest => quote_char c +:+ quote_chars rest
  end.

Definition quote (s : string) : string :=
  String dquote (quote_chars s +:+ String dquote "").

(** SerializeJSONProperty without replacer or indentation. [None] is the
    [undefined] result: the property is left out of an object, and written
    as [null] inside an array. *)
Fixpoint stringify (v : value) : option string :=
  match v with
  | VUndefined => None
  | VNull => Some "null"
  | VBool true => Some "true"
  | VBool false => Some "false"
  | VNum (Fin m e) => Some (number_to_string (Fin m e))
  | VNum _ => Some "null"
  | VStr s => Some (quote s)
  | VDate ms => Some (quote (toISOString ms))
  | VArr items =>
      Some ("[" +:+ join "," (map (fun x => match stringify x with
                                            | Some t => t
                                            | None => "null"
                                            end) items) +:+ "]")
  | VObj props =>
      Some ("{" +:+ join ","
                      (flat_map (fun kv => match stringify (snd kv) with
                                           | Some t => [quote (fst kv) +:+ ":" +:+ t]
                                           | None => []
                                           end) props) +:+ "}")
  end.

(** *** Parsing *)

Definition is_ws (c : ascii) : bool :=
  let n := code c in (n =? 32) || (n =? 9) || (n =? 10) || (n =? 13).

Fixpoint skip_ws (s : string) : string :=
  match s with
  | String c rest => if is_ws c then skip_ws rest else s
  | EmptyString => s
  end.

Definition is_digit (c : ascii) : bool := (48 <=? code c) && (code c <=? 57).

Definition hex_val (c : ascii) : option Z :=
  let n := code c in
  if (48 <=? n) && (n <=? 57) then Some (n - 48)
  else if (97 <=? n) && (n <=? 102) then Some (n - 87)
  else if (65 <=? n) && (n <=? 70) then Some (n - 55)
  else None.

(** The bytes of a code point given by a [\uXXXX] escape. (Each escape is
    taken by itself: two escapes that form a surrogate pair are not joined
    into the one code point they stand for.) *)
Definition utf8 (cp : Z) : string :=
  if cp <? 128 then String (char cp) ""
  else if cp <? 2048 then
    String (char (192 + cp / 64)) (String (char (128 + cp mod 64)) "")
  else
    String (char (224 + cp / 4096))
      (String (char (128 + cp / 64 mod 64)) (String (char (128 + cp mod 64)) "")).

(** The characters of a string literal after its opening quote, up to and
    including the closing quote. *)
Fixpoint parse_chars (s : string) : option (string * string) :=
  match s with
  | EmptyString => None
  | String c rest =>
      if code c =? 34 then Some ("", rest)
      else if code c =? 92 then
        match rest with
        | String e rest1 =>
            let simple (x : ascii) :=
              match parse_chars rest1 with
              | Some (t, r) => Some (String x t, r)
              | None => None
              end in
            if code e =? 34 then simple dquote
            else if code e =? 92 then simple backslash
            else if code e =? 47 then simple "/"%char
            else if code e =? 98 then simple (char 8)
            else if code e =? 102 then simple (char 12)
            else if code e =? 110 then simple (char 10)
            else if code e =? 114 then simple (char 13)
            else if code e =? 116 then simple (char 9)
            else if code e =? 117 then
              match rest1 with
              | String h1 (String h2 (String h3 (String h4 rest2))) =>
                  match hex_val h1, hex_val h2, hex_val h3, hex_val h4 with
                  | Some a, Some b, Some c', Some d =>
                      match parse_chars rest2 with
                      | Some (t, r) =>
                          Some (utf8 (((a * 16 + b) * 16 + c') * 16 + d) +:+ t, r)
                      | None => None
                      end
                  | _, _, _, _ => None
                  end
              | _ => None
              end
            else None
        | EmptyString => None
        end
      else if code c <? 32 then None
      else
        match parse_chars rest with
        | Some (t, r) => Some (String c t, r)
        | None => None
        end
  end.

(** A maximal run of decimal digits: its value, its length and the rest. *)
Fixpoint parse_digits (s : string) (acc : Z) (len : Z) : Z * Z * string :=
  match s with
  | String c rest =>
      if is_digit c then parse_digits rest (acc * 10 + (code c - 48)) (len + 1)
      else (acc, len, s)
  | EmptyString => (acc, len, s)
  end.

(** Trailing zeros of the mantissa are moved into the exponent, so that
    equal numbers have equal representations. *)
Fixpoint strip_zeros (fuel : nat) (m e : Z) : Z * Z :=
  match fuel with
  | O => (m, e)
  | S fuel' =>
      if (e <? 0) && (m mod 10 =? 0) then strip_zeros fuel' (m / 10) (e + 1)
      else (m, e)
  end.

Definition make_number (neg : bool) (m e : Z) : number :=
  if m =? 0 then Fin 0 0
  else
    let m' := if neg then - m else m in
    if 0 <=? e then Fin (m' * 10 ^ e) 0
    else let '(m2, e2) := strip_zeros (Z.to_nat (- e)) m' e in Fin m2 e2.

Definition starts_with_digit (s : string) : bool :=
  match s with
  | String c _ => is_digit c
  | EmptyString => false
  end.

(** The part of a number after its sign: [int frac? exp?], where [int] has
    no leading zero. *)
Definition parse_unsigned (neg : bool) (s1 : string) : option (number * string) :=
  if negb (starts_with_digit s1) then None
  else
    let '(ip, ilen, s2) := parse_digits s1 0 0 in
    let leading_zero :=
      match s1 with
      | String c _ => (code c =? 48) && (1 <? ilen)
      | EmptyString => false
      end in
    if leading_zero then None
    else
      let frac :=
        match s2 with
        | String c rest =>
            if code c =? 46 then
              if starts_with_digit rest then
                let '(m, flen, s3) := parse_digits rest ip 0 in Some (m, flen, s3)
              else None
            else Some (ip, 0, s2)
        | EmptyString => Some (ip, 0, s2)
        end in
      match frac with
      | None => None
      | Some (m, flen, s3) =>
          let expo :=
            match s3 with
            | String c rest =>
                if (code c =? 101) || (code c =? 69) then
                  let '(eneg, s4) :=
                    match rest with
                    | String c' rest' =>
                        if code c' =? 45 then (true, rest')
                        else if code c' =? 43 then (false, rest')
                        else (false, rest)
                    | EmptyString => (false, rest)
                    end in
                  if starts_with_digit s4 then
                    let '(x, _, s5) := parse_digits s4 0 0 in
                    Some ((if eneg then - x else x), s5)
                  else None
                else Some (0, s3)
            | EmptyString => Some (0, s3)
            end in
          match expo with
          | None => None
          | Some (x, s5) => Some (make_number neg m (x - flen), s5)
          end
      end.

(** JSON number: [-? int frac? exp?]. (The number is kept as the decimal
    that is written; it is not rounded to the nearest double, and a literal
    beyond the range of doubles stays finite.) *)
Definition parse_number (s : string) : option (number * string) :=
  match s with
  | String c rest => if code c =? 45 then parse_unsigned true rest else parse_unsigned false s
  | EmptyString => None
  end.

(** The remaining characters of a keyword. *)
Fixpoint expect (word : string) (s : string) : option string :=
  match word with
  | EmptyString => Some s
  | String w word' =>
      match s with
      | String c rest => if Ascii.eqb w c then expect word' rest else None
      | EmptyString => None
      end
  end.

(** Defining a property: a repeated key keeps its place and takes the later
    value. (Keys stay in the order of the text; JavaScript lists the keys
    that are array indices first, in ascending order.) *)
Fixpoint obj_set (k : string) (v : value) (props : list (string * value))
  : list (string * value) :=
  match props with
  | [] => [(k, v)]
  | (k', v') :: rest =>
      if String.eqb k k' then (k', v) :: rest else (k', v') :: obj_set k v rest
  end.

Definition make_object (members : list (string * value)) : value :=
  VObj (fold_left (fun acc kv => obj_set (fst kv) (snd kv) acc) members []).

(** Recursive descent; [fuel] bounds the number of values and separators
    read, the length of the text is always enough. *)
Fixpoint parse_value (fuel : nat) (s : string) : option (value * string) :=
  match fuel with
  | O => None
  | S fuel' =>
      match skip_ws s with
      | EmptyString => None
      | String c rest =>
          if code c =? 123 then
            match skip_ws rest with
            | String c' rest' =>
                if code c' =? 125 then Some (VObj [], rest')
                else
                  match parse_members fuel' (skip_ws rest) with
                  | Some (ms, r) => Some (make_object ms, r)
                  | None => None
                  end
            | EmptyString => None
            end
          else if code c =? 91 then
            match skip_ws rest with
            | String c' rest' =>
                if code c' =? 93 then Some (VArr [], rest')
                else
                  match parse_elements fuel' rest with
                  | Some (xs, r) => Some (VArr xs, r)
                  | None => None
                  end
            | EmptyString => None
            end
          else if code c =? 34 then
            match parse_chars rest with
            | Some (t, r) => Some (VStr t, r)
            | None => None
            end
          else if code c =? 116 then
            match expect "rue" rest with
            | Some r => Some (VBool true, r)
            | None => None
            end
          else if code c =? 102 then
            match expect "alse" rest with
            | Some r => Some (VBool false, r)
            | None => None
            end
          else if code c =? 110 then
            match expect "ull" rest with
            | Some r => Some (VNull, r)
            | None => None
            end
          else
            match parse_number (String c rest) with
            | Some (n, r) => Some (VNum n, r)
            | None => None
            end
      end
  end

with parse_elements (fuel : nat) (s : string) : option (list value * string) :=
  match fuel with
  | O => None
  | S fuel' =>
      match parse_value fuel' s with
      | Some (x, r) =>
          match skip_ws r with
          | String c rest =>
              if code c =? 44 then
                match parse_elements fuel' rest with
                | Some (xs, r') => Some (x :: xs, r')
                | None => None
                end
              else if code c =? 93 then Some ([x], rest)
              else None
          | EmptyString => None
          end
      | None => None
      end
  end

with parse_members (fuel : nat) (s : string)
  : option (list (string * value) * string) :=
  match fuel with
  | O => None
  | S fuel' =>
      match s with
      | String q rest =>
          if code q =? 34 then
            match parse_chars rest with
            | Some (k, r) =>
                match skip_ws r with
                | String c r1 =>
                    if code c =? 58 then
                      match parse_value fuel' r1 with
                      | Some (x, r2) =>
                          match skip_ws r2 with
                          | String c' r3 =>
                              if code c' =? 44 then
                                match parse_members fuel' (skip_ws r3) with
                                | Some (ms, r') => Some ((k, x) :: ms, r')
                                | None => None
                                end
                              else if code c' =? 125 then Some ([(k, x)], r3)
                              else None
                          | EmptyString => None
                          end
                      | None => None
                      end
                    else None
                | EmptyString => None
                end
            | None => None
            end
          else None
      | EmptyString => None
      end
  end.

(** [JSON.parse(text)]: one value, then nothing but white space. [None] is
    the SyntaxError. *)
Definition parse (text : string) : option value :=
  match parse_value (S (String.length text)) text with
  | Some (v, r) =>
      match skip_ws r with
      | EmptyString => Some v
      | String _ _ => None
      end
  | None => None
  end.

End JSON.

(** ** Shared type definitions ([types.ts]) *)

Module Types.
Import JS.

(** A string enum compiles to an object from member names to their values. *)
Definition enum : Type := list (string * string).

Definition CommandType : enum :=
  [ ("GOTO", "goto"); ("RELOAD", "reload"); ("BACK", "back"); ("FORWARD", "forward");
    ("CLICK", "click"); ("TYPE", "type"); ("SELECT", "select"); ("HOVER", "hover");
    ("FOCUS", "focus");
    ("SCREENSHOT", "screenshot"); ("PDF", "pdf"); ("GET_TEXT", "getText");
    ("GET_HTML", "getHtml"); ("GET_ATTRIBUTE", "getAttribute"); ("EVALUATE", "evaluate");
    ("WAIT_FOR_SELECTOR", "waitForSelector"); ("WAIT_FOR_NAVIGATION", "waitForNavigation");
    ("WAIT_FOR_TIMEOUT", "waitForTimeout");
    ("EXIT", "exit") ].

Definition PacketType : enum :=
  [ ("COMMAND", "COMMAND"); ("COMMAND_RESULT", "COMMAND_RESULT"); ("INIT", "INIT");
    ("EXIT", "EXIT"); ("PING", "PING"); ("PONG", "PONG"); ("ERROR", "ERROR") ].

(** [E.NAME]: the member's value, or [undefined] when the enum object has no
    such member. *)
Fixpoint member (e : enum) (name : string) : value :=
  match e with
  | [] => VUndefined
  | (n, v) :: rest => if String.eqb name n then VStr v else member rest name
  end.

(** The values an enum declares. *)
Definition declared (e : enum) : list string := map snd e.

Definition is_declared (e : enum) (v : value) : bool :=
  match v with
  | VStr s => existsb (String.eqb s) (declared e)
  | _ => false
  end.

(** [CommandPacket]: the [data] of an inbound command. [command] is typed
    [CommandType], which at run time is whatever string the server sent. *)
Record CommandPacket : Type := {
  accessCode : string;
  commandId : string;
  command : string;
  params : list (string * value);
  timestamp : Z
}.

Definition CommandPacket_value (p : CommandPacket) : value :=
  VObj [ ("type", member PacketType "COMMAND");
         ("data", VObj [ ("accessCode", VStr (accessCode p));
                         ("commandId", VStr (commandId p));
                         ("command", VStr (command p));
                         ("params", VObj (params p));
                         ("timestamp", VNum (Int (timestamp p))) ]) ].

End Types.

(** ** Doubles, where the code computes with fractions *)

Module Double.

(** A non-negative finite double is a dyadic number [mant * 2^expo] with a
    mantissa below [2^53] and an exponent from [-1074] on. The operations
    compute the exact result and round it to the nearest such number, ties
    to the even mantissa (overflow does not arise for the magnitudes
    below). *)
Record dyadic : Type := { mant : Z; expo : Z }.

Definition bits (m : Z) : Z := if m =? 0 then 0 else Z.log2 m + 1.

Definition round (d : dyadic) : dyadic :=
  let shift := Z.max (bits (mant d) - 53) (-1074 - expo d) in
  if shift <=? 0 then d
  else
    let q := mant d / 2 ^ shift in
    let r := mant d mod 2 ^ shift in
    let half := 2 ^ (shift - 1) in
    let up := if r <? half then false
              else if half <? r then true
              else Z.odd q in
    {| mant := if up then q + 1 else q; expo := expo d + shift |}.

Definition mul (a b : dyadic) : dyadic :=
  round {| mant := mant a * mant b; expo := expo a + expo b |}.

Definition add (a b : dyadic) : dyadic :=
  let e := Z.min (expo a) (expo b) in
  round {| mant := mant a * 2 ^ (expo a - e) + mant b * 2 ^ (expo b - e); expo := e |}.

Definition of_int (n : Z) : dyadic := {| mant := n; expo := 0 |}.

(** [Math.floor] *)
Definition floor (d : dyadic) : Z :=
  if 0 <=? expo d then mant d * 2 ^ expo d else mant d / 2 ^ (- expo d).

(** The double nearest to the fraction [a / b], for [0 <= a] and [0 < b]:
    the quotient is taken with three bits to spare and a last bit that
    tells whether anything was cut off, and is then rounded. *)
Definition of_ratio (a b : Z) : dyadic :=
  if a =? 0 then {| mant := 0; expo := 0 |}
  else
    let s := bits a - bits b - 56 in
    let num := if 0 <=? s then a else a * 2 ^ (- s) in
    let den := if 0 <=? s then b * 2 ^ s else b in
    round {| mant := 2 * (num / den) + (if num mod den =? 0 then 0 else 1);
             expo := s - 1 |}.

(** What [Math.random()] can return: a double in [[0, 1)]. *)
Definition unit_interval (r : dyadic) : Prop :=
  0 <= mant r < 2 ^ 53 /\ -1074 <= expo r < 0 /\ mant r < 2 ^ (- expo r).

End Double.

(** ** Numeric conversions *)

Module Numeric.
Import JS.

(** White space and line terminators at the head of a string, in UTF-8:
    TAB, LF, VT, FF, CR, SP, U+00A0, U+1680, U+2000 to U+200A, U+2028,
    U+2029, U+202F, U+205F, U+3000 and U+FEFF. *)
Fixpoint trim_left (s : string) : string :=
  match s with
  | String c rest =>
      let n := JSON.code c in
      if ((9 <=? n) && (n <=? 13)) || (n =? 32) then trim_left rest
      else
        match rest with
        | String c1 rest1 =>
            let n1 := JSON.code c1 in
            if (n =? 194) && (n1 =? 160) then trim_left rest1
            else
              match rest1 with
              | String c2 rest2 =>
                  let n2 := JSON.code c2 in
                  if ((n =? 225) && (n1 =? 154) && (n2 =? 128))
                     || ((n =? 226) && (n1 =? 128)
                         && (((128 <=? n2) && (n2 <=? 138)) || (n2 =? 168) || (n2 =? 169)
                             || (n2 =? 175)))
                     || ((n =? 226) && (n1 =? 129) && (n2 =? 159))
                     || ((n =? 227) && (n1 =? 128) && (n2 =? 128))
                     || ((n =? 239) && (n1 =? 187) && (n2 =? 191))
                  then trim_left rest2
                  else s
              | EmptyString => s
              end
        | EmptyString => s
        end
  | EmptyString => s
  end.

(** A maximal run of digits in base [base]: its value, its length, the
    rest. *)
Fixpoint based_digits (base : Z) (s : string) (acc : Z) (len : Z) : Z * Z * string :=
  match s with
  | String c rest =>
      match JSON.hex_val c with
      | Some d => if d <? base then based_digits base rest (acc * base + d) (len + 1)
                  else (acc, len, s)
      | None => (acc, len, s)
      end
  | EmptyString => (acc, len, s)
  end.

(** [0x], [0o] and [0b] literals, with the prefix in either case. *)
Definition non_decimal (s : string) : option (number * string) :=
  match s with
  | String z (String p rest) =>
      let k := JSON.code p in
      let base := if (k =? 120) || (k =? 88) then 16
                  else if (k =? 111) || (k =? 79) then 8
                  else if (k =? 98) || (k =? 66) then 2
                  else 0 in
      if (JSON.code z =? 48) && (0 <? base) then
        let '(v, len, r) := based_digits base rest 0 0 in
        if 0 <? len then Some (Fin v 0, r) else None
      else None
  | _ => None
  end.

(** StrUnsignedDecimalLiteral: [Infinity], or digits with an optional
    fraction and exponent; a digit before or after the point is needed. *)
Definition unsigned_decimal (negative : bool) (s : string) : option (number * string) :=
  match JSON.expect "Infinity" s with
  | Some r => Some (Infinity negative, r)
  | None =>
      let '(ip, ilen, s1) := JSON.parse_digits s 0 0 in
      let '(m, flen, s2) :=
        match s1 with
        | String c rest =>
            if JSON.code c =? 46 then JSON.parse_digits rest ip 0 else (ip, 0, s1)
        | EmptyString => (ip, 0, s1)
        end in
      if (ilen + flen =? 0) then None
      else
        let finish (x : Z) (r : string) :=
          Some (Fin (if negative then - m else m) (x - flen), r) in
        match s2 with
        | String c rest =>
            if (JSON.code c =? 101) || (JSON.code c =? 69) then
              let '(eneg, s3) :=
                match rest with
                | String c' rest' =>
                    if JSON.code c' =? 45 then (true, rest')
                    else if JSON.code c' =? 43 then (false, rest')
                    else (false, rest)
                | EmptyString => (false, rest)
                end in
              let '(x, xlen, s4) := JSON.parse_digits s3 0 0 in
              if 0 <? xlen then finish (if eneg then - x else x) s4 else None
            else finish 0 s2
        | EmptyString => finish 0 s2
        end
  end.

(** StringToNumber: the empty string and white space give 0, a numeric
    literal its value, anything else NaN. *)
Definition StringToNumber (s : string) : number :=
  let t := trim_left s in
  match t with
  | EmptyString => Int 0
  | String c rest =>
      let literal :=
        match non_decimal t with
        | Some r => Some r
        | None =>
            if JSON.code c =? 45 then unsigned_decimal true rest
            else if JSON.code c =? 43 then unsigned_decimal false rest
            else unsigned_decimal false t
        end in
      match literal with
      | Some (n, r) => match trim_left r with
                       | EmptyString => n
                       | _ => NaN
                       end
      | None => NaN
      end
  end.

(** ToNumber. An array or object is converted through its text. *)
Definition ToNumber (v : value) : result number :=
  match v with
  | VUndefined => Ok NaN
  | VNull => Ok (Int 0)
  | VBool b => Ok (Int (if b then 1 else 0))
  | VNum n => Ok n
  | VStr s => Ok (StringToNumber s)
  | VDate ms => Ok (Int ms)
  | VArr _ | VObj _ => bind (template v) (fun t => Ok (StringToNumber t))
  end.

(** ToInt32 of the double nearest to a number: the integral part, taken
    modulo [2^32] into the range from [-2^31]. NaN and the infinities give
    0. *)
Definition ToInt32 (n : number) : Z :=
  match n with
  | Fin m e =>
      let a := Z.abs m in
      let d := if 0 <=? e then Double.round {| Double.mant := a * 10 ^ e; Double.expo := 0 |}
               else Double.of_ratio a (10 ^ (- e)) in
      let i := Double.floor d in
      ((if m <? 0 then - i else i) + 2 ^ 31) mod 2 ^ 32 - 2 ^ 31
  | _ => 0
  end.

End Numeric.

(** ** The in-page side of the generated scripts *)

Module Page.
Import JS.

(** An element of the document: what the scripts read from it
    ([attribute name] is what [getAttribute(name)] finds), and what the
    calls they make on it throw, if they throw ([click] and [focus] are
    missing on some kinds of element; assigning [value] is refused by a file
    input). *)
Record element : Type := {
  innerText : string;
  textContent : string;
  outerHTML : string;
  attribute : string -> option string;
  click : option string;
  set_value : string -> option string;
  focus : option string
}.

(** The document of the target. [matches t sel] lists the elements that
    selector [sel] matches [t] milliseconds after the script started;
    [valid sel] tells whether [sel] parses as a selector at all;
    [lateness k] is the delay of the [k]-th poll of a script beyond the time
    it asked for (a timer never fires early); [evaluate f args] tells how
    [(f).apply(null, args)] ends for the texts [f] and [args], or [None]
    where the two texts do not make the template of [evaluateFunction] a
    script. *)
Record page : Type := {
  valid : string -> bool;
  matches : Z -> string -> list element;
  lateness : nat -> Z;
  evaluate : string -> string -> option (result value)
}.

(** How a promise made in the page settles. *)
Inductive settlement : Type :=
| Fulfils (v : value)
| Rejects (message : string).

(** How a script ends: with the value of its [return], with an uncaught
    [Error], or with a promise as the value of its [return]. *)
Inductive outcome : Type :=
| Return (v : value)
| Raise (message : string)
| Promise (s : settlement).

Definition invalid_selector (method sel : string) : string :=
  "Failed to execute '" +:+ method +:+ "' on 'Document': '" +:+ sel
    +:+ "' is not a valid selector.".

(** [document.querySelectorAll(sel)] and [document.querySelector(sel)]:
    [inl] is the DOMException message. *)
Definition querySelectorAll (p : page) (t : Z) (sel : string)
  : string + list element :=
  if valid p sel then inr (matches p t sel)
  else inl (invalid_selector "querySelectorAll" sel).

Definition querySelector (p : page) (t : Z) (sel : string)
  : string + option element :=
  if valid p sel then inr (head (matches p t sel))
  else inl (invalid_selector "querySelector" sel).

Definition getAttribute (el : element) (name : string) : value :=
  match attribute el name with
  | Some v => VStr v
  | None => VNull
  end.

(** The string a single-quoted literal with body [body] denotes. [None]
    when the body is not the body of one literal: an unescaped quote ends it
    early, a line break or a dangling backslash makes the script a syntax
    error. The escapes with hexadecimal or octal digits are not covered. *)
Fixpoint js_literal (body : string) : option string :=
  match body with
  | EmptyString => Some ""
  | String c rest =>
      let n := JSON.code c in
      if (n =? 39) || (n =? 10) || (n =? 13) then None
      else if n =? 92 then
        match rest with
        | EmptyString => None
        | String e rest' =>
            let k := JSON.code e in
            let keep (x : ascii) :=
              match js_literal rest' with
              | Some t => Some (String x t)
              | None => None
              end in
            if k =? 110 then keep (JSON.char 10)
            else if k =? 116 then keep (JSON.char 9)
            else if k =? 114 then keep (JSON.char 13)
            else if k =? 98 then keep (JSON.char 8)
            else if k =? 102 then keep (JSON.char 12)
            else if k =? 118 then keep (JSON.char 11)
            else if k =? 10 then js_literal rest'
            else if (k =? 120) || (k =? 117) || (k =? 13)
                    || ((48 <=? k) && (k <=? 57)) then None
            else keep e
        end
      else
        match js_literal rest with
        | Some t => Some (String c t)
        | None => None
        end
  end.

(** What the body of each generated script does in the page. The argument
    [sel] (and [text], [value], [attribute]) is the escaped text spliced
    between the quotes of the template; [None] means the spliced text does
    not form the literals the template intends. *)

Definition with_literal (body : string) (k : string -> outcome) : option outcome :=
  match js_literal body with
  | Some s => Some (k s)
  | None => None
  end.

Definition with_literals (a b : string) (k : string -> string -> outcome)
  : option outcome :=
  match js_literal a, js_literal b with
  | Some x, Some y => Some (k x y)
  | _, _ => None
  end.

Definition on_element (p : page) (s : string) (missing : string)
    (found : element -> outcome) : outcome :=
  match querySelector p 0 s with
  | inl err => Raise err
  | inr None => Raise (missing +:+ s)
  | inr (Some el) => found el
  end.

Definition on_elements (p : page) (s : string) (found : element -> value) : outcome :=
  match querySelectorAll p 0 s with
  | inl err => Raise err
  | inr [] => Raise ("No elements found: " +:+ s)
  | inr els => Return (VArr (map found els))
  end.

(** A call on the element that may throw, and the [return] after it. *)
Definition guarded (thrown : option string) (v : value) : outcome :=
  match thrown with
  | Some message => Raise message
  | None => Return v
  end.

Definition clickElement (sel : string) (p : page) : option outcome :=
  with_literal sel (fun s =>
    on_element p s "Element not found: "
      (fun el => guarded (click el)
                   (VObj [("clicked", VBool true); ("selector", VStr s)]))).

Definition fillForm (sel text : string) (p : page) : option outcome :=
  with_literals sel text (fun s x =>
    on_element p s "Form element not found: "
      (fun el => guarded (set_value el x)
                   (VObj [("filled", VBool true); ("selector", VStr s)]))).

Definition selectOption (sel value : string) (p : page) : option outcome :=
  with_literals sel value (fun s v =>
    on_element p s "Select element not found: "
      (fun el => guarded (set_value el v)
                   (VObj [("selected", VBool true); ("selector", VStr s);
                          ("value", VStr v)]))).

Definition hoverElement (sel : string) (p : page) : option outcome :=
  with_literal sel (fun s =>
    on_element p s "Element not found: "
      (fun _ => Return (VObj [("hovered", VBool true); ("selector", VStr s)]))).

Definition focusElement (sel : string) (p : page) : option outcome :=
  with_literal sel (fun s =>
    on_element p s "Element not found: "
      (fun el => guarded (focus el)
                   (VObj [("focused", VBool true); ("selector", VStr s)]))).

Definition extractText (sel : string) (p : page) : option outcome :=
  with_literal sel (fun s =>
    on_elements p s (fun el =>
      or_else (VStr (innerText el)) (VStr (textContent el)))).

Definition extractHtml (sel : string) (p : page) : option outcome :=
  with_literal sel (fun s => on_elements p s (fun el => VStr (outerHTML el))).

Definition extractAttribute (sel attribute : string) (p : page) : option outcome :=
  with_literals sel attribute (fun s a =>
    on_elements p s (fun el => getAttribute el a)).

(** The polling loop of [waitForElement]: [checkElement] runs at once and
    then in timers of 100 ms, the [k]-th of which fires [lateness k] late.
    [limit] is the number spliced in as the timeout, [elapsed] is
    [Date.now() - startTime] at the poll, [k] counts the polls. *)
Fixpoint checkElement (fuel : nat) (p : page) (s : string) (limit elapsed : Z) (k : nat)
  : option settlement :=
  match fuel with
  | O => None
  | S fuel' =>
      match head (matches p elapsed s) with
      | Some _ => Some (Fulfils (VObj [("found", VBool true); ("selector", VStr s)]))
      | None =>
          if limit <? elapsed
          then Some (Rejects ("Timeout waiting for element: " +:+ s))
          else checkElement fuel' p s limit
                 (elapsed + 100 + Z.max 0 (lateness p (S k))) (S k)
      end
  end.

Definition polls (limit : Z) : nat := Z.to_nat (limit / 100) + 2.

(** The script returns the promise; an invalid selector throws inside its
    executor and so rejects it. *)
Definition waitForElement (sel : string) (timeout : value) (p : page)
  : option outcome :=
  match js_literal sel, timeout with
  | Some s, VNum (Fin m e) =>
      let limit := if 0 <=? e then m * 10 ^ e else m / 10 ^ (- e) in
      if valid p s
      then option_map Promise
             (checkElement (polls limit) p s limit (Z.max 0 (lateness p 0)) 0)
      else Some (Promise (Rejects (invalid_selector "querySelector" s)))
  | _, _ => None
  end.

(** What the inner function of the [evaluateFunction] template returns:
    the value of the call, or an object with the message of what the call
    threw. Reading [message] from a thrown [null] or [undefined] throws in
    turn, out of the [catch] block. *)
Definition evaluation (ended : result value) : outcome :=
  let fallback := VStr "Unknown error during evaluation" in
  match ended with
  | Ok v => Return v
  | Throw (JsError message) => Return (VObj [("error", or_else (VStr message) fallback)])
  | Throw (JsThrown VUndefined) =>
      Raise "Cannot read properties of undefined (reading 'message')"
  | Throw (JsThrown VNull) => Raise "Cannot read properties of null (reading 'message')"
  | Throw (JsThrown x) => Return (VObj [("error", or_else (get x "message") fallback)])
  end.

(** The script of [evaluateFunction] as it is run: the template is an
    expression statement, and the function that [executeScriptInActiveTab]
    wraps around it has no [return], so the value of the inner function is
    dropped. *)
Definition evaluateFunction (fn args : string) (p : page) : option outcome :=
  match evaluate p fn args with
  | Some ended =>
      Some match evaluation ended with
           | Raise message => Raise message
           | _ => Return VUndefined
           end
  | None => None
  end.

End Page.

(** ** The command handler ([commandHandler.ts]) *)

Module CommandHandler.
Import JS Types.

(** [chrome.tabs.Tab]; only [id] is read. *)
Record tab : Type := { id : Z }.

(** What the callback of [chrome.tabs.executeScript] finds:
    [chrome.runtime.lastError] set (with its optional [message]), or the
    [results] argument. *)
Inductive exec_reply : Type :=
| LastError (message : option string)
| Results (results : option (list value)).

(** A generated script: its source text and what that text does in the
    page ([None] where the embedding does not cover it). The text is given
    with the white space between statements normalised and without the
    comments of the templates. *)
Record script : Type := {
  code : string;
  behaviour : Page.page -> option Page.outcome
}.

(** An [onUpdated] event: milliseconds since the listener was added, the
    tab, and [changeInfo.status]. *)
Definition tab_event : Type := Z * Z * string.

(** How a promise ends: it settles, resolved or rejected, or it stays
    pending for ever. A result is read as the promise settled with it. *)
Inductive promised (A : Type) : Type :=
| Settles (r : result A)
| Hangs.
Arguments Settles {A} r.
Arguments Hangs {A}.
Coercion Settles : result >-> promised.

(** The browser as the handler sees it during one command. It is taken to
    answer every call made of it: each callback is called, once. The
    callback of [tabs.create] and of [tabs.update] gets a tab, or
    [undefined] when the browser could not do it. *)
Record Browser : Type := {
  tabs_query : option (list tab);     (* tabs.query({active, currentWindow}) *)
  tabs_create : value -> option tab;
  tabs_update : Z -> value -> option tab;
  executeScript : Z -> script -> exec_reply;
  onUpdated : list tab_event;         (* in order of delivery *)
  Date_now : Z;
  transport : value -> result unit    (* how sendWebSocketMessage settles *)
}.

(** How a wait on [onUpdated] ends. *)
Inductive settled : Type :=
| LoadComplete (at_ms : Z)
| TimedOut (after_ms : Z).

Inductive effect : Type :=
| TabsQuery
| TabsCreate (url : value)
| TabsUpdate (tabId : Z) (url : value)
| TabsReload (tabId : Z)
| ExecuteScript (tabId : Z) (code : string)
| Waited (tabId : option Z) (how : settled)
| Slept (ms : Z)
| SendWebSocketMessage (data : value).

(** An asynchronous computation: how its promise ends, and what it did. *)
Definition M (A : Type) : Type := promised A * list effect.

Definition ret {A} (a : A) : M A := (Settles (Ok a), []).
Definition throw {A} (message : string) : M A := (Settles (Throw (JsError message)), []).
Definition after {A} (log : list effect) (m : M A) : M A := (fst m, (log ++ snd m)%list).

(** [m.then(k)], a rejection of [m] passing through ([.catch(reject)]). *)
Definition and_then {A B} (m : M A) (k : A -> M B) : M B :=
  match fst m with
  | Settles (Ok a) => after (snd m) (k a)
  | Settles (Throw e) => (Settles (Throw e), snd m)
  | Hangs => (Hangs, snd m)
  end.

(** What is thrown by [throw new Error(x)]: an Error whose message is [x]
    converted to text (empty for [undefined]), or what the conversion
    throws. *)
Definition new_Error (x : value) : exn :=
  match x with
  | VUndefined => JsError ""
  | _ => match template x with
         | Ok message => JsError message
         | Throw e => e
         end
  end.

(** The delay of a timer in milliseconds: the [timeout] argument of
    [setTimeout] is converted to a 32-bit integer, and a negative delay
    counts as 0. The conversion can throw. *)
Definition to_ms (v : value) : result Z :=
  bind (Numeric.ToNumber v) (fun n => Ok (Z.max 0 (Numeric.ToInt32 n))).

(** A listener on [onUpdated] for [tabId] together with a timer of [limit]
    milliseconds: whichever comes first settles the wait. An [undefined]
    tab id matches no event. *)
Fixpoint listen (limit : Z) (tabId : option Z) (events : list tab_event) : settled :=
  match events with
  | [] => TimedOut limit
  | (t, changedTabId, status) :: rest =>
      if limit <=? t then TimedOut limit
      else if match tabId with
              | Some i => (changedTabId =? i) && String.eqb status "complete"
              | None => false
              end
           then LoadComplete t
           else listen limit tabId rest
  end.

(** The same listener without a timer: the time of the first event that
    reports [tabId] complete, if there is one. *)
Fixpoint first_complete (tabId : Z) (events : list tab_event) : option Z :=
  match events with
  | [] => None
  | (t, changedTabId, status) :: rest =>
      if (changedTabId =? tabId) && String.eqb status "complete" then Some t
      else first_complete tabId rest
  end.

(** [t.replace(/c/g, by_)] for a pattern that is the single character [c]. *)
Fixpoint replace_all (c : ascii) (by_ : string) (t : string) : string :=
  match t with
  | EmptyString => ""
  | String x rest =>
      (if Ascii.eqb x c then by_ else String x "") +:+ replace_all c by_ rest
  end.

(** The [url] of the properties object of [tabs.create] and [tabs.update]
    is an optional string: [undefined] and [null] count as left out, and any
    other value that is no string makes the call throw. *)
Definition url_accepted (url : value) : bool :=
  match url with
  | VUndefined | VNull | VStr _ => true
  | _ => false
  end.

(** What the callback of [executeScript] makes of the browser's reply:
    [reject(new Error(lastError.message))], or [resolve(results?.[0])]. *)
Definition reported (reply : exec_reply) : result value :=
  match reply with
  | LastError m => Throw (JsError (from_option (fun t => t) "" m))
  | Results rs => Ok (from_option (fun l => hd VUndefined l) VUndefined rs)
  end.

Section WithBrowser.
Variable b : Browser.

Definition waitForTabLoad (tabId : option Z) : M unit :=
  (Settles (Ok tt), [Waited tabId (listen 30000 tabId (onUpdated b))]).

Definition executeScriptInActiveTab (s : script) : M value :=
  match tabs_query b with
  | None | Some [] => (Settles (Throw (JsError "No active tab found")), [TabsQuery])
  | Some (t :: _) =>
      let wrapped :=
        {| code := "(function() { " +:+ code s +:+ " })()";
           behaviour := behaviour s |} in
      ( Settles (reported (executeScript b (id t) wrapped)),
        [TabsQuery; ExecuteScript (id t) (code wrapped)] )
  end.

Definition escapeString (str : value) : result string :=
  match str with
  | VStr s =>
      Ok (replace_all JSON.dquote (String "\" (String JSON.dquote ""))
            (replace_all "'"%char "\'" (replace_all "\"%char "\\" s)))
  | VUndefined =>
      Throw (JsError "Cannot read properties of undefined (reading 'replace')")
  | VNull => Throw (JsError "Cannot read properties of null (reading 'replace')")
  | _ => Throw (JsError "str.replace is not a function")
  end.

(** Building a script from escaped arguments; a failing [escapeString]
    rejects before anything is sent to the browser. *)
Definition scripted (r : result script) : M value :=
  match r with
  | Ok s => executeScriptInActiveTab s
  | Throw e => (Settles (Throw e), [])
  end.

(** The calls to [tabs.create] and [tabs.update] are made inside the
    callback of [tabs.query], and [tab.id] is read inside the callback of
    [tabs.create]: what throws there is caught by nobody, and the promise
    stays pending. The callback of [tabs.update] reads [tab?.id]. *)
Definition navigateToUrl (url : value) : M value :=
  let done := VObj [("success", VBool true); ("url", url)] in
  match tabs_query b with
  | None | Some [] =>
      if url_accepted url then
        match tabs_create b url with
        | Some t =>
            after [TabsQuery; TabsCreate url]
              (and_then (waitForTabLoad (Some (id t))) (fun _ => ret done))
        | None => (Hangs, [TabsQuery; TabsCreate url])
        end
      else (Hangs, [TabsQuery])
  | Some (t0 :: _) =>
      if url_accepted url then
        let t := tabs_update b (id t0) url in
        after [TabsQuery; TabsUpdate (id t0) url]
          (and_then (waitForTabLoad (option_map id t)) (fun _ => ret done))
      else (Hangs, [TabsQuery])
  end.

Definition reloadPage : M value :=
  match tabs_query b with
  | None | Some [] => (Settles (Throw (JsError "No active tab found")), [TabsQuery])
  | Some (t0 :: _) =>
      after [TabsQuery; TabsReload (id t0)]
        (and_then (waitForTabLoad (Some (id t0)))
                  (fun _ => ret (VObj [("success", VBool true)])))
  end.

Definition navigateBack : M value :=
  executeScriptInActiveTab
    {| code := "window.history.back(); return { success: true };";
       behaviour := fun _ => Some (Page.Return (VObj [("success", VBool true)])) |}.

Definition navigateForward : M value :=
  executeScriptInActiveTab
    {| code := "window.history.forward(); return { success: true };";
       behaviour := fun _ => Some (Page.Return (VObj [("success", VBool true)])) |}.

Definition clickElement (selector : value) : M value :=
  scripted (bind (escapeString selector) (fun sel => Ok
    {| code := "const element = document.querySelector('" +:+ sel
         +:+ "'); if (!element) throw new Error('Element not found: " +:+ sel
         +:+ "'); element.click(); return { clicked: true, selector: '" +:+ sel +:+ "' };";
       behaviour := Page.clickElement sel |})).

Definition fillForm (selector text : value) : M value :=
  scripted (bind (escapeString selector) (fun sel =>
            bind (escapeString text) (fun txt => Ok
    {| code := "const element = document.querySelector('" +:+ sel
         +:+ "'); if (!element) throw new Error('Form element not found: " +:+ sel
         +:+ "'); element.value = '" +:+ txt
         +:+ "'; element.dispatchEvent(new Event('input', { bubbles: true }));"
         +:+ " element.dispatchEvent(new Event('change', { bubbles: true }));"
         +:+ " return { filled: true, selector: '" +:+ sel +:+ "' };";
       behaviour := Page.fillForm sel txt |}))).

Definition selectOption (selector value : JS.value) : M JS.value :=
  scripted (bind (escapeString selector) (fun sel =>
            bind (escapeString value) (fun val => Ok
    {| code := "const select = document.querySelector('" +:+ sel
         +:+ "'); if (!select) throw new Error('Select element not found: " +:+ sel
         +:+ "'); select.value = '" +:+ val
         +:+ "'; select.dispatchEvent(new Event('change', { bubbles: true }));"
         +:+ " return { selected: true, selector: '" +:+ sel
         +:+ "', value: '" +:+ val +:+ "' };";
       behaviour := Page.selectOption sel val |}))).

Definition hoverElement (selector : value) : M value :=
  scripted (bind (escapeString selector) (fun sel => Ok
    {| code := "const element = document.querySelector('" +:+ sel
         +:+ "'); if (!element) throw new Error('Element not found: " +:+ sel
         +:+ "'); element.dispatchEvent(new MouseEvent('mouseover', { bubbles: true }));"
         +:+ " element.dispatchEvent(new MouseEvent('mouseenter', { bubbles: true }));"
         +:+ " return { hovered: true, selector: '" +:+ sel +:+ "' };";
       behaviour := Page.hoverElement sel |})).

Definition focusElement (selector : value) : M value :=
  scripted (bind (escapeString selector) (fun sel => Ok
    {| code := "const element = document.querySelector('" +:+ sel
         +:+ "'); if (!element) throw new Error('Element not found: " +:+ sel
         +:+ "'); element.focus(); return { focused: true, selector: '" +:+ sel +:+ "' };";
       behaviour := Page.focusElement sel |})).

Definition extractText (selector : value) : M value :=
  scripted (bind (escapeString selector) (fun sel => Ok
    {| code := "const elements = Array.from(document.querySelectorAll('" +:+ sel
         +:+ "')); if (elements.length === 0) throw new Error('No elements found: " +:+ sel
         +:+ "'); return elements.map(el => el.innerText || el.textContent);";
       behaviour := Page.extractText sel |})).

Definition extractHtml (selector : value) : M value :=
  scripted (bind (escapeString selector) (fun sel => Ok
    {| code := "const elements = Array.from(document.querySelectorAll('" +:+ sel
         +:+ "')); if (elements.length === 0) throw new Error('No elements found: " +:+ sel
         +:+ "'); return elements.map(el => el.outerHTML);";
       behaviour := Page.extractHtml sel |})).

Definition extractAttribute (selector attribute : value) : M value :=
  scripted (bind (escapeString selector) (fun sel =>
            bind (escapeString attribute) (fun att => Ok
    {| code := "const elements = Array.from(document.querySelectorAll('" +:+ sel
         +:+ "')); if (elements.length === 0) throw new Error('No elements found: " +:+ sel
         +:+ "'); return elements.map(el => el.getAttribute('" +:+ att +:+ "'));";
       behaviour := Page.extractAttribute sel att |}))).

(** The argument list [evaluateFunction] splices into its script: the
    parsed [argsStr] (or ['[]'] when it is falsy), and the empty list when
    converting or parsing it throws. *)
Definition evaluate_args (argsStr : value) : value :=
  match template (or_else argsStr (VStr "[]")) with
  | Ok text =>
      match JSON.parse text with
      | Some parsed => parsed
      | None => VArr []
      end
  | Throw _ => VArr []
  end.

(** The text that [JSON.stringify(args)] puts into the script. *)
Definition arguments_text (args : value) : string :=
  from_option (fun t => t) "undefined" (JSON.stringify args).

(** The script of [evaluateFunction]; converting [functionStr] to text can
    throw. *)
Definition evaluate_script (functionStr : value) (args : value) : result script :=
  bind (template functionStr) (fun fn => Ok
    {| code := "(function() { try { const fn = " +:+ fn
         +:+ "; return fn.apply(null, " +:+ arguments_text args
         +:+ "); } catch (error) { return { error: error.message ||"
         +:+ " 'Unknown error during evaluation' }; } })();";
       behaviour := Page.evaluateFunction fn (arguments_text args) |}).

(** [if (result && result.error) throw new Error(result.error)] *)
Definition checked (answer : value) : result value :=
  if truthy answer && truthy (get answer "error")
  then Throw (new_Error (get answer "error"))
  else Ok answer.

Definition evaluateFunction (functionStr argsStr : value) : M value :=
  let args := evaluate_args argsStr in
  match evaluate_script functionStr args with
  | Ok s =>
      let '(r, log) := executeScriptInActiveTab s in
      ( match r with
        | Settles (Ok answer) => Settles (checked answer)
        | other => other
        end,
        log )
  | Throw e => (Settles (Throw e), [])
  end.

Definition waitForElement (selector timeout : value) : M value :=
  let timeout :=
    match timeout with
    | VUndefined => VNum (Int 10000)
    | _ => timeout
    end in
  scripted (bind (escapeString selector) (fun sel =>
            bind (template timeout) (fun limit => Ok
    {| code := "return new Promise((resolve, reject) => { const startTime = Date.now();"
         +:+ " const checkElement = () => { const element = document.querySelector('" +:+ sel
         +:+ "'); if (element) { resolve({ found: true, selector: '" +:+ sel
         +:+ "' }); return; } if (Date.now() - startTime > " +:+ limit
         +:+ ") { reject(new Error('Timeout waiting for element: " +:+ sel
         +:+ "')); return; } setTimeout(checkElement, 100); }; checkElement(); });";
       behaviour := Page.waitForElement sel timeout |}))).

(** The listener is added before the timer is set: when [setTimeout]
    throws on its delay, inside the callback of [tabs.query], only the
    listener is left to settle the promise. *)
Definition waitForNavigation (timeout : value) : M value :=
  let timeout :=
    match timeout with
    | VUndefined => VNum (Int 30000)
    | _ => timeout
    end in
  match tabs_query b with
  | None | Some [] => (Settles (Throw (JsError "No active tab found")), [TabsQuery])
  | Some (t0 :: _) =>
      match to_ms timeout with
      | Ok limit =>
          let how := listen limit (Some (id t0)) (onUpdated b) in
          ( Settles (Ok (match how with
                         | LoadComplete _ => VObj [("success", VBool true)]
                         | TimedOut _ =>
                             VObj [("success", VBool true); ("timedOut", VBool true)]
                         end)),
            [TabsQuery; Waited (Some (id t0)) how] )
      | Throw _ =>
          match first_complete (id t0) (onUpdated b) with
          | Some t =>
              ( Settles (Ok (VObj [("success", VBool true)])),
                [TabsQuery; Waited (Some (id t0)) (LoadComplete t)] )
          | None => (Hangs, [TabsQuery])
          end
      end
  end.

(** [setTimeout] is called inside the executor of the promise: when it
    throws on its delay, the promise is rejected. *)
Definition waitForTimeout (timeout : value) : M value :=
  let timeout :=
    match timeout with
    | VUndefined => VNum (Int 1000)
    | _ => timeout
    end in
  match to_ms timeout with
  | Ok delay =>
      (Settles (Ok (VObj [("success", VBool true); ("waited", timeout)])), [Slept delay])
  | Throw e => (Settles (Throw e), [])
  end.

Definition handleExit : value := VObj [("exited", VBool true)].

(** [case CommandType.NAME:] of the [switch (command)] *)
Definition is_case (command : string) (name : string) : bool :=
  match member CommandType name with
  | VStr v => String.eqb command v
  | _ => false
  end.

Definition executeCommand (command : string) (params : list (string * value))
  : M value :=
  let param k := lookup_prop k params in
  if is_case command "GOTO" then navigateToUrl (param "url")
  else if is_case command "RELOAD" then reloadPage
  else if is_case command "BACK" then navigateBack
  else if is_case command "FORWARD" then navigateForward
  else if is_case command "CLICK" then clickElement (param "selector")
  else if is_case command "TYPE" then fillForm (param "selector") (param "text")
  else if is_case command "SELECT" then selectOption (param "selector") (param "value")
  else if is_case command "HOVER" then hoverElement (param "selector")
  else if is_case command "FOCUS" then focusElement (param "selector")
  else if is_case command "GET_TEXT" then extractText (param "selector")
  else if is_case command "GET_HTML" then extractHtml (param "selector")
  else if is_case command "GET_ATTRIBUTE"
       then extractAttribute (param "selector") (param "attribute")
  else if is_case command "EVALUATE"
       then evaluateFunction (param "function") (param "arguments")
  else if is_case command "WAIT_FOR_SELECTOR"
       then waitForElement (param "selector") (param "timeout")
  else if is_case command "WAIT_FOR_NAVIGATION" then waitForNavigation (param "timeout")
  else if is_case command "WAIT_FOR_TIMEOUT" then waitForTimeout (param "timeout")
  else if is_case command "EXIT" then ret handleExit
  else throw ("Unknown command: " +:+ command).

Definition sendCommandResult (commandId accessCode : string) (success : bool)
    (result error : value) : M unit :=
  let resultPacket :=
    VObj [ ("type", member PacketType "COMMAND_RESULT");
           ("data", VObj [ ("commandId", VStr commandId);
                           ("accessCode", VStr accessCode);
                           ("success", VBool success);
                           ("result", result);
                           ("error", or_else error VUndefined);
                           ("timestamp", VNum (Int (Date_now b))) ]) ] in
  (Settles (transport b resultPacket), [SendWebSocketMessage resultPacket]).

(** The result is sent once [executeCommand] has settled; while that stays
    pending, nothing is sent. *)
Definition processCommand (packet : CommandPacket) : M unit :=
  let '(r, log) := executeCommand (command packet) (params packet) in
  match r with
  | Settles r =>
      let '(success, result, error) :=
        match r with
        | Ok v => (true, v, VNull)
        | Throw (JsError message) => (false, VNull, VStr message)
        | Throw (JsThrown _) => (false, VNull, VStr "Unknown error")
        end in
      after log (sendCommandResult (commandId packet) (accessCode packet)
                   success result error)
  | Hangs => (Hangs, log)
  end.

End WithBrowser.

(** The packets a run handed to [sendWebSocketMessage]. *)
Definition sent (log : list effect) : list value :=
  flat_map (fun e => match e with
                     | SendWebSocketMessage data => [data]
                     | _ => []
                     end) log.

(** The waits on [onUpdated] a run went through. *)
Definition waits (log : list effect) : list (option Z * settled) :=
  flat_map (fun e => match e with
                     | Waited t how => [(t, how)]
                     | _ => []
                     end) log.

(** How a browser tells the extension what a script did: what is found in
    the callback of [executeScript] when the script returned a value, when
    it ended with an uncaught error, and when it returned a promise. The
    source relies on nothing here; it reads [lastError] and the results. *)
Record reporting : Type := {
  on_return : value -> exec_reply;
  on_raise : string -> exec_reply;
  on_promise : Page.settlement -> exec_reply
}.

Definition report (r : reporting) (o : Page.outcome) : exec_reply :=
  match o with
  | Page.Return v => on_return r v
  | Page.Raise message => on_raise r message
  | Page.Promise st => on_promise r st
  end.

(** A browser that hands over the value as it is, reports the uncaught
    error through [lastError] with the error's message, and waits for a
    promise to settle: its value is the result, its rejection is reported
    like an uncaught error. *)
Definition relaying : reporting :=
  {| on_return := fun v => Results (Some [v]);
     on_raise := fun message => LastError (Some message);
     on_promise := fun s =>
       match s with
       | Page.Fulfils v => Results (Some [v])
       | Page.Rejects message => LastError (Some message)
       end |}.


(** A browser showing page [p] in its active tab [t], which runs a script
    as the embedding of its text says and tells about it as [r] says.
    [other] stands for everything else about the browser. *)
Definition hosting (r : reporting) (p : Page.page) (t : tab) (other : Browser) : Browser :=
  {| tabs_query := Some [t];
     tabs_create := tabs_create other;
     tabs_update := tabs_update other;
     executeScript := fun i s =>
       match behaviour s p with
       | Some o => report r o
       | None => executeScript other i s
       end;
     onUpdated := onUpdated other;
     Date_now := Date_now other;
     transport := transport other |}.

End CommandHandler.

(** ** The transport ([ws.ts]) *)

Module Ws.
Import JS Types.

Definition RECONNECT_DELAY_MS : Z := 5000.
Definition PING_INTERVAL_MS : Z := 30000.

Inductive readyState : Type := CONNECTING | OPEN | CLOSING | CLOSED.

(** Which handlers a socket carries: those of [initializeWebSocket], which
    close over [accessCode], or those of the one-shot connection that
    [sendWebSocketMessage] opens for [data]. *)
Inductive role : Type :=
| Persistent (accessCode : value)
| Temporary (data : value).

Record websocket : Type := {
  ready : readyState;
  handlers : role;
  frames : list string          (* what was sent on it, oldest first *)
}.

(** A pending timer of the runtime: its callback and its delay. *)
Inductive callback : Type :=
| Reconnect (accessCode : value)   (* () => initializeWebSocket(accessCode) *)
| Ping                             (* the keepalive interval *)
| SendTimeout (sock : nat).        (* the guard of a temporary connection *)

Record timer : Type := {
  run : callback;
  delay : Z;
  repeats : bool
}.

(** How the promise of one [sendWebSocketMessage] call stands. *)
Inductive promise : Type :=
| Pending
| Resolved
| Rejected.

(** The module variables [socket], [reconnectTimeout], [pingInterval], and
    the part of the runtime they refer to: every WebSocket created (a
    socket is named by its position), the pending timers (timer ids start
    at 1, so that an id is truthy), and the promises of the sends that went
    through a temporary socket. *)
Record state : Type := {
  socket : option nat;
  reconnectTimeout : option nat;
  pingInterval : option nat;
  sockets : list websocket;
  timers : gmap nat timer;
  next_timer : nat;
  sends : gmap nat promise
}.

Definition initial : state :=
  {| socket := None; reconnectTimeout := None; pingInterval := None;
     sockets := []; timers := ∅; next_timer := 1; sends := ∅ |}.

(** *** Runtime primitives *)

Definition new_WebSocket (h : role) (st : state) : nat * state :=
  ( length (sockets st),
    {| socket := socket st; reconnectTimeout := reconnectTimeout st;
       pingInterval := pingInterval st;
       sockets := (sockets st ++ [{| ready := CONNECTING; handlers := h; frames := [] |}])%list;
       timers := timers st; next_timer := next_timer st; sends := sends st |} ).

Definition set_timer (t : timer) (st : state) : nat * state :=
  ( next_timer st,
    {| socket := socket st; reconnectTimeout := reconnectTimeout st;
       pingInterval := pingInterval st; sockets := sockets st;
       timers := <[next_timer st := t]> (timers st);
       next_timer := S (next_timer st); sends := sends st |} ).

Definition setTimeout (c : callback) (ms : Z) : state -> nat * state :=
  set_timer {| run := c; delay := ms; repeats := false |}.

Definition setInterval (c : callback) (ms : Z) : state -> nat * state :=
  set_timer {| run := c; delay := ms; repeats := true |}.

(** [clearTimeout] and [clearInterval] *)
Definition clear_timer (i : nat) (st : state) : state :=
  {| socket := socket st; reconnectTimeout := reconnectTimeout st;
     pingInterval := pingInterval st; sockets := sockets st;
     timers := delete i (timers st);
     next_timer := next_timer st; sends := sends st |}.

Definition with_sockets (ss : list websocket) (st : state) : state :=
  {| socket := socket st; reconnectTimeout := reconnectTimeout st;
     pingInterval := pingInterval st; sockets := ss;
     timers := timers st; next_timer := next_timer st; sends := sends st |}.

Definition with_vars (s r p : option nat) (st : state) : state :=
  {| socket := s; reconnectTimeout := r; pingInterval := p; sockets := sockets st;
     timers := timers st; next_timer := next_timer st; sends := sends st |}.

Definition with_send (i : nat) (p : promise) (st : state) : state :=
  {| socket := socket st; reconnectTimeout := reconnectTimeout st;
     pingInterval := pingInterval st; sockets := sockets st;
     timers := timers st; next_timer := next_timer st;
     sends := <[i := p]> (sends st) |}.

Definition readyState_of (i : nat) (st : state) : option readyState :=
  ready <$> sockets st !! i.

Definition set_ready (i : nat) (r : readyState) (st : state) : state :=
  match sockets st !! i with
  | Some w =>
      with_sockets (<[i := {| ready := r; handlers := handlers w; frames := frames w |}]>
                      (sockets st)) st
  | None => st
  end.

Definition is_open (i : nat) (st : state) : bool :=
  match readyState_of i st with
  | Some OPEN => true
  | _ => false
  end.

(** [ws.send(text)]: transmitted when the socket is open, an
    InvalidStateError ([None]) while it is connecting, dropped once it is
    closing or closed. *)
Definition ws_send (i : nat) (text : string) (st : state) : option state :=
  match sockets st !! i with
  | Some w =>
      match ready w with
      | CONNECTING => None
      | OPEN =>
          Some (with_sockets
                  (<[i := {| ready := OPEN; handlers := handlers w;
                             frames := (frames w ++ [text])%list |}]> (sockets st)) st)
      | CLOSING | CLOSED => Some st
      end
  | None => None
  end.

(** [ws.close()]: starts the closing handshake; the close event comes later. *)
Definition ws_close (i : nat) (st : state) : state :=
  match readyState_of i st with
  | Some CONNECTING | Some OPEN => set_ready i CLOSING st
  | _ => st
  end.

(** *** The exported functions *)

(** What goes on the wire for [data]. *)
Definition encode (data : value) : string :=
  from_option (fun t => t) "undefined" (JSON.stringify data).

(** The result is the new state and how the returned promise stands. When
    the message goes to a temporary socket, the promise is recorded under
    that socket in [sends], and the socket's events settle it. A send that
    throws rejects the promise at once. *)
Definition sendWebSocketMessage (data : value) (st : state) : state * promise :=
  match socket st with
  | Some i =>
      if is_open i st then
        match ws_send i (encode data) st with
        | Some st' => (st', Resolved)
        | None => (st, Rejected)
        end
      else
        let '(t, st1) := new_WebSocket (Temporary data) st in
        let '(_, st2) := setTimeout (SendTimeout t) 5000 st1 in
        (with_send t Pending st2, Pending)
  | None =>
      let '(t, st1) := new_WebSocket (Temporary data) st in
      let '(_, st2) := setTimeout (SendTimeout t) 5000 st1 in
      (with_send t Pending st2, Pending)
  end.

Definition clear_reconnect (st : state) : state :=
  match reconnectTimeout st with
  | Some i => with_vars (socket st) None (pingInterval st) (clear_timer i st)
  | None => st
  end.

Definition clear_ping (st : state) : state :=
  match pingInterval st with
  | Some i => with_vars (socket st) (reconnectTimeout st) None (clear_timer i st)
  | None => st
  end.

Definition initializeWebSocket (accessCode : value) (st : state) : state :=
  if match socket st with
     | Some i => is_open i st
     | None => false
     end
  then st
  else
    let st1 := clear_ping (clear_reconnect st) in
    let '(i, st2) := new_WebSocket (Persistent accessCode) st1 in
    with_vars (Some i) (reconnectTimeout st2) (pingInterval st2) st2.

Definition closeWebSocket (st : state) : state :=
  let st1 :=
    match socket st with
    | Some i =>
        let st' := ws_close i st in
        with_vars None (reconnectTimeout st') (pingInterval st') st'
    | None => st
    end in
  clear_ping (clear_reconnect st1).

(** [r] is the value of [Math.random()]. *)
Definition generateAccessCode (r : Double.dyadic) : string :=
  number_to_string
    (Int (Double.floor
            (Double.add (Double.of_int 100000) (Double.mul r (Double.of_int 900000))))).

(** *** The handlers *)

Definition registerMessage (accessCode : value) : value :=
  VObj [ ("type", member PacketType "REGISTER");
         ("data", VObj [("accessCode", accessCode)]) ].

(** [socket.onopen] of a persistent socket. It sends on the module
    variable [socket], whichever socket that is by now; a throwing [send]
    ends the handler. *)
Definition onopen (accessCode : value) (st : state) : state :=
  match socket st with
  | Some i =>
      match ws_send i (encode (registerMessage accessCode)) st with
      | Some st1 =>
          let '(p, st2) := setInterval Ping PING_INTERVAL_MS st1 in
          with_vars (socket st2) (reconnectTimeout st2) (Some p) st2
      | None => st
      end
  | None => st
  end.

(** [socket.onclose] of a persistent socket. *)
Definition onclose (accessCode : value) (st : state) : state :=
  let st1 := clear_ping st in
  let '(r, st2) := setTimeout (Reconnect accessCode) RECONNECT_DELAY_MS st1 in
  with_vars (socket st2) (Some r) (pingInterval st2) st2.

(** The callback of the keepalive interval. *)
Definition ping (st : state) : state :=
  match socket st with
  | Some i => if is_open i st then from_option (fun s => s) st (ws_send i "ping" st) else st
  | None => st
  end.

(** Settling a promise that is already settled does nothing. *)
Definition settle (t : nat) (how : promise) (st : state) : state :=
  match sends st !! t with
  | Some Pending => with_send t how st
  | _ => st
  end.

Definition resolve (t : nat) : state -> state := settle t Resolved.
Definition reject (t : nat) : state -> state := settle t Rejected.

(** [tempSocket.onopen] *)
Definition temp_onopen (t : nat) (data : value) (st : state) : state :=
  match ws_send t (encode data) st with
  | Some st1 => resolve t (ws_close t st1)
  | None => st
  end.

(** The guard timer of a temporary socket. *)
Definition temp_timeout (t : nat) (st : state) : state :=
  match readyState_of t st with
  | Some CLOSED | None => st
  | Some _ => reject t (ws_close t st)
  end.

(** *** The event loop *)

(** What can happen to the transport: the runtime delivers a socket or
    timer event, or another module calls an exported function. (A message
    event reaches the transport only through the [sendWebSocketMessage]
    call of the command handler.) *)
Inductive event : Type :=
| Opened (i : nat)
| Closed (i : nat)
| Errored (i : nat)
| Fired (timer_id : nat)
| CallInitialize (accessCode : value)
| CallClose
| CallSend (data : value).

(** One turn of the event loop; [None] when the event cannot occur in this
    state. *)
Definition step (e : event) (st : state) : option state :=
  match e with
  | Opened i =>
      match sockets st !! i with
      | Some w =>
          match ready w with
          | CONNECTING =>
              let st1 := set_ready i OPEN st in
              Some match handlers w with
                   | Persistent accessCode => onopen accessCode st1
                   | Temporary data => temp_onopen i data st1
                   end
          | _ => None
          end
      | None => None
      end
  | Closed i =>
      match sockets st !! i with
      | Some w =>
          match ready w with
          | CLOSED => None
          | _ =>
              let st1 := set_ready i CLOSED st in
              Some match handlers w with
                   | Persistent accessCode => onclose accessCode st1
                   | Temporary _ => st1
                   end
          end
      | None => None
      end
  | Errored i =>
      match sockets st !! i with
      | Some w =>
          Some match handlers w with
               | Persistent _ => st
               | Temporary _ => reject i st
               end
      | None => None
      end
  | Fired k =>
      match timers st !! k with
      | Some t =>
          let st1 := if repeats t then st else clear_timer k st in
          Some match run t with
               | Reconnect accessCode => initializeWebSocket accessCode st1
               | Ping => ping st1
               | SendTimeout s => temp_timeout s st1
               end
      | None => None
      end
  | CallInitialize accessCode => Some (initializeWebSocket accessCode st)
  | CallClose => Some (closeWebSocket st)
  | CallSend data => Some (fst (sendWebSocketMessage data st))
  end.

Fixpoint steps (es : list event) (st : state) : option state :=
  match es with
  | [] => Some st
  | e :: rest =>
      match step e st with
      | Some st' => steps rest st'
      | None => None
      end
  end.

Definition is_persistent (w : websocket) : bool :=
  match handlers w with
  | Persistent _ => true
  | Temporary _ => false
  end.

(** The persistent connections attempted so far. *)
Definition attempts (st : state) : nat :=
  length (List.filter is_persistent (sockets st)).

Definition is_reconnect (t : timer) : bool :=
  match run t with
  | Reconnect _ => true
  | _ => false
  end.

(** A reconnect is pending. *)
Definition reconnect_pending (st : state) : bool :=
  existsb (fun kt => is_reconnect (snd kt)) (map_to_list (timers st)).

End Ws.

(** ** The background script ([background.ts]) *)

Module Background.
Import JS Types.

(** What the script reads from its host in one run of [keepAlive]. *)
Record host : Type := {
  Math_random : Double.dyadic;
  new_Date : Z;
  userAgent : string
}.

(** [chrome.storage.local] and the transport. *)
Record world : Type := {
  storage : gmap string value;
  transport : Ws.state
}.

Definition init_message (h : host) (accessCode : value) : value :=
  VObj [ ("type", member PacketType "INIT");
         ("data", VObj [ ("accessCode", accessCode);
                         ("userAgent", VStr (userAgent h));
                         ("isOnline", VBool true);
                         ("lastOnline", VDate (new_Date h)) ]) ].

(** The result is the world afterwards and the [accessCode] the run used. *)
Definition keepAlive (h : host) (w : world) : world * value :=
  let stored := from_option (fun v => v) VUndefined (storage w !! "accessCode") in
  let accessCode :=
    if truthy stored then stored else VStr (Ws.generateAccessCode (Math_random h)) in
  let storage' :=
    if negb (truthy stored) then <["accessCode" := accessCode]> (storage w)
    else storage w in
  let ws1 := Ws.initializeWebSocket accessCode (transport w) in
  let ws2 := fst (Ws.sendWebSocketMessage (init_message h accessCode) ws1) in
  ({| storage := storage'; transport := ws2 |}, accessCode).

End Background.

(** * Statements *)

Import JS Types.

(** ** Vocabulary of the properties *)

(** The labels of the [case]s of [executeCommand]. *)
Definition cases : list string :=
  [ "GOTO"; "RELOAD"; "BACK"; "FORWARD"; "CLICK"; "TYPE"; "SELECT"; "HOVER"; "FOCUS";
    "GET_TEXT"; "GET_HTML"; "GET_ATTRIBUTE"; "EVALUATE"; "WAIT_FOR_SELECTOR";
    "WAIT_FOR_NAVIGATION"; "WAIT_FOR_TIMEOUT"; "EXIT" ].

(** [command] is one of the handled cases of the dispatch. *)
Definition handled (command : string) : bool :=
  existsb (CommandHandler.is_case command) cases.

(** The COMMAND_RESULT packet for command packet [p]. *)
Definition command_result (b : CommandHandler.Browser) (p : CommandPacket)
    (success : bool) (result error : value) : value :=
  VObj [ ("type", VStr "COMMAND_RESULT");
         ("data", VObj [ ("commandId", VStr (commandId p));
                         ("accessCode", VStr (accessCode p));
                         ("success", VBool success);
                         ("result", result);
                         ("error", error);
                         ("timestamp", VNum (Int (CommandHandler.Date_now b))) ]) ].

(** [packet.data.k] *)
Definition data_field (packet : value) (k : string) : value :=
  get (get packet "data") k.


(** The three replacements of [escapeString] in one pass. *)
Fixpoint escaped (s : string) : string :=
  match s with
  | EmptyString => ""
  | String x rest =>
      (if Ascii.eqb x "\"%char then "\\"
       else if Ascii.eqb x "'"%char then "\'"
       else if Ascii.eqb x JSON.dquote then String "\" (String JSON.dquote "")
       else String x "") +:+ escaped rest
  end.

(** No line break in [s]. *)
Fixpoint plain (s : string) : bool :=
  match s with
  | EmptyString => true
  | String c rest =>
      negb ((JSON.code c =? 10) || (JSON.code c =? 13)) && plain rest
  end.



(** Pairwise distinct keys. *)
Fixpoint distinct (keys : list string) : bool :=
  match keys with
  | [] => true
  | k :: rest => negb (existsb (String.eqb k) rest) && distinct rest
  end.

(** A finite number in the form the parser produces: an integer, or a
    fraction whose mantissa does not end in zero. *)
Definition canonical (m e : Z) : Prop := e = 0 \/ (e < 0 /\ m mod 10 <> 0).

(** A value JSON has a notation for: null, a boolean, a string, a finite
    number, an array of such values, or an object of such values (an object
    has no key twice). No [undefined], no Date, no NaN, no infinity. *)
Fixpoint clean (v : value) : bool :=
  match v with
  | VNull | VBool _ | VStr _ => true
  | VNum (Fin m e) => (e =? 0) || ((e <? 0) && negb (m mod 10 =? 0))
  | VArr items => forallb clean items
  | VObj props => forallb (fun kv => clean (snd kv)) props && distinct (map fst props)
  | _ => false
  end.

(** A packet: the envelope of kind [kind] around [data]. *)
Definition envelope (kind : string) (data : value) : value :=
  VObj [("type", VStr kind); ("data", data)].

(** The text [JSON.stringify] produces for a clean value. *)
Fixpoint render (v : value) : string :=
  match v with
  | VNull => "null"
  | VBool true => "true"
  | VBool false => "false"
  | VNum n => number_to_string n
  | VStr s => JSON.quote s
  | VArr items => "[" +:+ join "," (map render items) +:+ "]"
  | VObj props =>
      "{" +:+ join "," (map (fun kv => JSON.quote (fst kv) +:+ ":" +:+ render (snd kv)) props)
          +:+ "}"
  | _ => ""
  end.

(** Fuel that is enough to parse the text of a value. *)
Fixpoint weight (v : value) : nat :=
  match v with
  | VArr items => S (list_sum (map (fun x => S (weight x)) items))
  | VObj props => S (list_sum (map (fun kv => S (weight (snd kv))) props))
  | _ => 1
  end.

(** The text after a value inside an array or an object, or its end. *)
Definition delimited (rest : string) : bool :=
  match rest with
  | EmptyString => true
  | String c _ => (JSON.code c =? 44) || (JSON.code c =? 93) || (JSON.code c =? 125)
  end.

(** The first character of a printed value: no white space, and not the
    end of an array or object. *)
Definition opens (c : ascii) : Prop :=
  JSON.is_ws c = false /\ JSON.code c <> 93 /\ JSON.code c <> 125.

(** The text of one member of an object. *)
Definition member_text (kv : string * value) : string :=
  JSON.quote (fst kv) +:+ ":" +:+ render (snd kv).

(** The parser reads the text of [v] back, whatever follows it. *)
Definition parses (v : value) : Prop :=
  forall fuel rest, (weight v <= fuel)%nat -> delimited rest = true ->
    JSON.parse_value fuel (render v +:+ rest) = Some (v, rest).

(** ** Sample inputs *)

Module Sample.
Import CommandHandler.

Definition h1 : Page.element :=
  {| Page.innerText := "Hello"; Page.textContent := "Hello";
     Page.outerHTML := "<h1>Hello</h1>";
     Page.attribute := fun name => if String.eqb name "id" then Some "top" else None;
     Page.click := None; Page.set_value := fun _ => None; Page.focus := None |}.

(** A function that throws, and one that returns. *)
Definition throwing : string := "() => { throw new Error('boom') }".
Definition constant : string := "() => 1".

(** A page with a single heading, where timers fire on time. *)
Definition page : Page.page :=
  {| Page.valid := fun _ => true;
     Page.matches := fun _ sel => if String.eqb sel "h1" then [h1] else [];
     Page.lateness := fun _ => 0;
     Page.evaluate := fun fn _ =>
       if String.eqb fn throwing then Some (Throw (JsError "boom"))
       else if String.eqb fn constant then Some (Ok (VNum (Int 1)))
       else None |}.

(** A browser with no tab, where nothing is reported about scripts. *)
Definition bare : Browser :=
  {| tabs_query := None;
     tabs_create := fun _ => Some {| id := 2 |};
     tabs_update := fun i _ => Some {| id := i |};
     executeScript := fun _ _ => Results None;
     onUpdated := [];
     Date_now := 1793604660123;
     transport := fun _ => Ok tt |}.

(** Tab 1 shows [page], in a browser that relays what scripts do. *)
Definition browser : Browser := hosting relaying page {| id := 1 |} bare.

(** Tab 1 is active, and every script is answered by [reply]. *)
Definition answering (reply : exec_reply) : Browser :=
  {| tabs_query := Some [{| id := 1 |}];
     tabs_create := tabs_create bare;
     tabs_update := tabs_update bare;
     executeScript := fun _ _ => reply;
     onUpdated := [];
     Date_now := Date_now bare;
     transport := transport bare |}.

Definition packet (command : string) (params : list (string * value)) : CommandPacket :=
  {| accessCode := "123456"; commandId := "abc"; command := command;
     params := params; timestamp := 1793604660000 |}.

(** A host whose [Math.random()] returns 0.5000000000013706. *)
Definition host : Background.host :=
  {| Background.Math_random := {| Double.mant := 4503599627382841; Double.expo := -53 |};
     Background.new_Date := 1793604660123;
     Background.userAgent := "Mozilla/5.0" |}.

(** A later run, with another random value. *)
Definition later : Background.host :=
  {| Background.Math_random := {| Double.mant := 1; Double.expo := -2 |};
     Background.new_Date := 1793604690123;
     Background.userAgent := "Mozilla/5.0" |}.

(** A fresh install: nothing stored, nothing connected. *)
Definition fresh : Background.world :=
  {| Background.storage := ∅; Background.transport := Ws.initial |}.

(** Storage that holds the empty string under [accessCode]. *)
Definition blank : Background.world :=
  {| Background.storage := {["accessCode" := VStr ""]};
     Background.transport := Ws.initial |}.

End Sample.

(** ** The claims that fail as stated *)

(** Exactly one correlated result per command, with a non-empty error string
    whenever execution throws. *)
Definition one_result_with_error_string : Prop :=
  forall (b : CommandHandler.Browser) (p : CommandPacket),
  exists pkt,
    CommandHandler.sent (snd (CommandHandler.processCommand b p)) = [pkt] /\
    get pkt "type" = VStr "COMMAND_RESULT" /\
    data_field pkt "commandId" = VStr (commandId p) /\
    match fst (CommandHandler.executeCommand b (command p) (params p)) with
    | CommandHandler.Settles (Ok v) =>
        data_field pkt "success" = VBool true /\ data_field pkt "result" = v
    | CommandHandler.Settles (Throw _) =>
        data_field pkt "success" = VBool false /\
        exists m, data_field pkt "error" = VStr m /\ m <> ""
    | CommandHandler.Hangs => True
    end.

(** A wait that ended because tab [tab] was reported complete, or because
    the 30 seconds of [waitForTabLoad] ran out. *)
Definition loaded_or_timed_out (b : CommandHandler.Browser)
    (w : option Z * CommandHandler.settled) : Prop :=
  snd w = CommandHandler.TimedOut 30000 \/
  exists t i, fst w = Some i /\ snd w = CommandHandler.LoadComplete t /\
              t < 30000 /\ In (t, i, "complete") (CommandHandler.onUpdated b).

(** Every navigation command resolves only after such a wait. *)
Definition navigation_waits_for_load : Prop :=
  forall (b : CommandHandler.Browser) command ps v,
    In command ["goto"; "reload"; "back"; "forward"] ->
    fst (CommandHandler.executeCommand b command ps) = CommandHandler.Settles (Ok v) ->
    exists w, CommandHandler.waits (snd (CommandHandler.executeCommand b command ps)) = [w]
              /\ loaded_or_timed_out b w.

Definition has_field (k : string) (v : value) : Prop :=
  match v with
  | VObj props => In k (map fst props)
  | _ => False
  end.

(** The text of [functionStr] is the one that ends as [ended] says when it
    is called in page [p] with the arguments of [argsStr]. *)
Definition evaluates (p : Page.page) (functionStr argsStr : value) (ended : result value)
  : Prop :=
  exists fn, template functionStr = Ok fn /\
    Page.evaluate p fn
      (CommandHandler.arguments_text (CommandHandler.evaluate_args argsStr)) = Some ended.

(** A parse failure of the arguments is not fatal, and every in-page
    evaluation that ends with an object carrying an [error] field makes the
    command fail. *)
Definition evaluate_throws_every_error_field : Prop :=
  forall (r : CommandHandler.reporting) (p : Page.page) (t : CommandHandler.tab)
         (other : CommandHandler.Browser) functionStr argsStr,
    (JSON.parse (ToString (or_else argsStr (VStr "[]"))) = None ->
     CommandHandler.evaluateFunction (CommandHandler.hosting r p t other) functionStr argsStr
       = CommandHandler.evaluateFunction (CommandHandler.hosting r p t other) functionStr
           (VStr "[]")) /\
    (forall ended res,
       evaluates p functionStr argsStr ended ->
       Page.evaluation ended = Page.Return res -> has_field "error" res ->
       exists e,
         fst (CommandHandler.evaluateFunction (CommandHandler.hosting r p t other)
                functionStr argsStr)
           = CommandHandler.Settles (Throw e)).




(** The value of a dyadic in units of [2^-1074], an integer for every
    exponent from [-1074] on. *)
Definition scaled (d : Double.dyadic) : Z := Double.mant d * 2 ^ (Double.expo d + 1074).

(** Only decimal digits in [s]. *)
Fixpoint all_digits (s : string) : bool :=
  match s with
  | EmptyString => true
  | String c rest => JSON.is_digit c && all_digits rest
  end.

(** A fresh code is generated and persisted only when storage has no
    [accessCode] key. *)
Definition generates_only_without_key : Prop :=
  forall (h : Background.host) (w : Background.world),
    Background.storage (fst (Background.keepAlive h w)) <> Background.storage w ->
    Background.storage w !! "accessCode" = None.

(** The periodic INIT packet, with its [lastOnline] date, survives the
    codec unchanged. *)
Definition init_packet_round_trips : Prop :=
  forall (h : Background.host) (accessCode : string),
    JSON.parse (Ws.encode (Background.init_message h (VStr accessCode)))
      = Some (Background.init_message h (VStr accessCode)).
(** * Further parts of the extension *)

(** ** The command handler on untyped packets *)

(** The declared types are erased at run time: [processCommand] is called
    with whatever was parsed from a frame whose [type] is ["COMMAND"]. This
    module gives the same three functions on arbitrary values; on a packet
    that has the declared shape they are the functions of
    [CommandHandler]. *)
Module Untyped.
Import CommandHandler.

(** The first property of [params] that the case for [command] reads, if
    it reads any. *)
Definition first_read (command : string) : option string :=
  if is_case command "GOTO" then Some "url"
  else if is_case command "RELOAD" then None
  else if is_case command "BACK" then None
  else if is_case command "FORWARD" then None
  else if is_case command "CLICK" then Some "selector"
  else if is_case command "TYPE" then Some "selector"
  else if is_case command "SELECT" then Some "selector"
  else if is_case command "HOVER" then Some "selector"
  else if is_case command "FOCUS" then Some "selector"
  else if is_case command "GET_TEXT" then Some "selector"
  else if is_case command "GET_HTML" then Some "selector"
  else if is_case command "GET_ATTRIBUTE" then Some "selector"
  else if is_case command "EVALUATE" then Some "function"
  else if is_case command "WAIT_FOR_SELECTOR" then Some "selector"
  else if is_case command "WAIT_FOR_NAVIGATION" then Some "timeout"
  else if is_case command "WAIT_FOR_TIMEOUT" then Some "timeout"
  else None.

(** [switch (command)] compares with [===]: a command that is no string
    matches no case. Reading a property of [params] throws when [params] is
    [undefined] or [null], and gives [undefined] on any other value that
    is no object. *)
Definition executeCommand (b : Browser) (command params : value) : M value :=
  match command with
  | VStr c =>
      match params with
      | VObj ps => CommandHandler.executeCommand b c ps
      | VUndefined | VNull =>
          match first_read c with
          | Some k =>
              throw ("Cannot read properties of " +:+ ToString params
                       +:+ " (reading '" +:+ k +:+ "')")
          | None => CommandHandler.executeCommand b c []
          end
      | _ => CommandHandler.executeCommand b c []
      end
  | _ =>
      match template command with
      | Ok text => throw ("Unknown command: " +:+ text)
      | Throw e => (Settles (Throw e), [])
      end
  end.

(** The log line names the [commandId] before the packet is made. *)
Definition sendCommandResult (b : Browser) (commandId accessCode : value)
    (success : bool) (result error : value) : M unit :=
  match template commandId with
  | Throw e => (Settles (Throw e), [])
  | Ok _ =>
  let resultPacket :=
    VObj [ ("type", member PacketType "COMMAND_RESULT");
           ("data", VObj [ ("commandId", commandId);
                           ("accessCode", accessCode);
                           ("success", VBool success);
                           ("result", result);
                           ("error", or_else error VUndefined);
                           ("timestamp", VNum (Int (Date_now b))) ]) ] in
  (Settles (transport b resultPacket), [SendWebSocketMessage resultPacket])
  end.

(** Destructuring [packet.data] throws when it is [undefined] or [null],
    and so does the first log line when [command] does not convert to
    text; the promise is then rejected before anything is done. While
    [executeCommand] stays pending, nothing is sent. *)
Definition processCommand (b : Browser) (packet : value) : M unit :=
  match get packet "data" with
  | VUndefined | VNull =>
      throw ("Cannot destructure property 'commandId' of 'packet.data' as it is "
               +:+ ToString (get packet "data") +:+ ".")
  | data =>
      match template (get data "command") with
      | Throw e => (Settles (Throw e), [])
      | Ok _ =>
          let '(r, log) := executeCommand b (get data "command") (get data "params") in
          match r with
          | Settles r =>
              let '(success, result, error) :=
                match r with
                | Ok v => (true, v, VNull)
                | Throw (JsError message) => (false, VNull, VStr message)
                | Throw (JsThrown _) => (false, VNull, VStr "Unknown error")
                end in
              after log (sendCommandResult b (get data "commandId") (get data "accessCode")
                           success result error)
          | Hangs => (Hangs, log)
          end
      end
  end.

End Untyped.

(** ** Inbound frames ([socket.onmessage] in [ws.ts]) *)

Module Receive.
Import CommandHandler.

(** [packet.type === PacketType.NAME] *)
Definition is_type (packet : value) (name : string) : bool :=
  match get packet "type", member PacketType name with
  | VStr t, VStr v => String.eqb t v
  | VUndefined, VUndefined => true
  | _, _ => false
  end.

(** [try { await m } catch (error) { console.error(...) }]: a rejection is
    caught; while [m] stays pending, so does the handler. *)
Definition caught {A} (m : M A) : M unit :=
  ( match fst m with
    | Settles _ => Settles (Ok tt)
    | Hangs => Hangs
    end,
    snd m ).

(** The handler for a text frame [data]. A frame that does not parse, or
    parses to [null] (reading [packet.type] then throws), ends in the
    [catch]. *)
Definition onmessage (b : Browser) (data : string) : M unit :=
  if String.eqb data "pong" then ret tt
  else
    match JSON.parse data with
    | None | Some VNull => ret tt
    | Some packet =>
        if is_type packet "COMMAND" then caught (Untyped.processCommand b packet)
        else ret tt
    end.

End Receive.

(** ** The alarm listener ([background.ts]) *)

Module Alarms.

(** [chrome.alarms.onAlarm]: only the keepalive alarm runs [keepAlive]. *)
Definition onAlarm (h : Background.host) (name : string) (w : Background.world)
  : Background.world :=
  if negb (String.eqb name "lamela-keepAlive") then w
  else fst (Background.keepAlive h w).

End Alarms.

(** ** The popup ([popup.ts]) *)

Module Popup.

(** An element of the popup, as far as the script touches it. *)
Record element : Type := {
  textContent : string;
  className : string
}.

(** The popup's document: its elements by [id]. The two elements the script
    looks up are taken to lie side by side, neither inside the other. *)
Definition document : Type := gmap string element.

(** [r] is the value of [Math.random()]. *)
Definition getAccessCode (r : Double.dyadic) : string := Ws.generateAccessCode r.

Definition isConnected : bool := true.

Definition updatePopupUI (r : Double.dyadic) (doc : document) : document :=
  match doc !! "status", doc !! "accessCode" with
  | Some statusElement, Some accessCodeElement =>
      let code := getAccessCode r in
      let doc1 :=
        <["accessCode" := {| textContent := code;
                             className := className accessCodeElement |}]> doc in
      if isConnected
      then <["status" := {| textContent := "Ready to connect";
                            className := "status connected" |}]> doc1
      else <["status" := {| textContent := "Not ready";
                            className := "status disconnected" |}]> doc1
  | _, _ => doc
  end.

Definition onPopupOpen (r : Double.dyadic) (doc : document) : document :=
  updatePopupUI r doc.

End Popup.

(** ** Vocabulary of the further properties *)

(** Parameter [k] is a string. *)
Definition string_param (ps : list (string * value)) (k : string) : bool :=
  match lookup_prop k ps with
  | VStr _ => true
  | _ => false
  end.

(** [packet.data] is there to be destructured. *)
Definition has_data (packet : value) : bool :=
  match get packet "data" with
  | VUndefined | VNull => false
  | _ => true
  end.

(** [packet] is a command that [processCommand] gets to run. *)
Definition runnable (packet : value) : bool :=
  Receive.is_type packet "COMMAND" && has_data packet
  && printable (get (get packet "data") "command").

(** The command names the dispatch has a case for. *)
Definition supported : list string :=
  [ "goto"; "reload"; "back"; "forward"; "click"; "type"; "select"; "hover"; "focus";
    "getText"; "getHtml"; "getAttribute"; "evaluate"; "waitForSelector";
    "waitForNavigation"; "waitForTimeout"; "exit" ].

(** The commands that splice a selector into a script. *)
Definition selector_commands : list string :=
  [ "click"; "type"; "select"; "hover"; "focus"; "getText"; "getHtml"; "getAttribute";
    "waitForSelector" ].

(** The tab events delivered before a timer of [limit] milliseconds fires. *)
Fixpoint delivered_before (limit : Z) (events : list CommandHandler.tab_event)
  : list CommandHandler.tab_event :=
  match events with
  | [] => []
  | e :: rest =>
      if limit <=? fst (fst e) then [] else e :: delivered_before limit rest
  end.

(** The event reports tab [tabId] as completely loaded. *)
Definition completes (tabId : Z) (e : CommandHandler.tab_event) : bool :=
  (snd (fst e) =? tabId) && String.eqb (snd e) "complete".

(** [Date.now() - startTime] at the [k]-th poll of [waitForElement]: the
    first poll runs at once, each later one in a timer of 100 ms. *)
Fixpoint poll_time (p : Page.page) (k : nat) : Z :=
  match k with
  | O => Z.max 0 (Page.lateness p 0)
  | S k' => poll_time p k' + 100 + Z.max 0 (Page.lateness p k)
  end.

(** [ToInt32] on an integer that a double holds exactly. *)
Definition int32 (n : Z) : Z := (n + 2 ^ 31) mod 2 ^ 32 - 2 ^ 31.




(** ** Vocabulary of the transport invariants *)

(** The state of a socket changes, its handlers and frames stay. *)
Definition set_state (r : Ws.readyState) (w : Ws.websocket) : Ws.websocket :=
  {| Ws.ready := r; Ws.handlers := Ws.handlers w; Ws.frames := Ws.frames w |}.

(** [text] goes out on an open socket and is dropped on any other. *)
Definition push (text : string) (w : Ws.websocket) : Ws.websocket :=
  match Ws.ready w with
  | Ws.OPEN => {| Ws.ready := Ws.OPEN; Ws.handlers := Ws.handlers w;
                  Ws.frames := (Ws.frames w ++ [text])%list |}
  | _ => w
  end.

(** The closing handshake starts, unless the socket is closing or closed. *)
Definition closing (w : Ws.websocket) : Ws.websocket :=
  match Ws.ready w with
  | Ws.CONNECTING | Ws.OPEN => set_state Ws.CLOSING w
  | _ => w
  end.

(** Socket [i] changes by [f], nothing else does. *)
Definition update (f : Ws.websocket -> Ws.websocket) (i : nat) (st : Ws.state) : Ws.state :=
  Ws.with_sockets (alter f i (Ws.sockets st)) st.

(** A socket in order: nothing went out on it before it opened; and a
    temporary socket is never left open, and has sent nothing or the one
    message it was opened for. *)
Definition socket_ok (w : Ws.websocket) : Prop :=
  (Ws.ready w = Ws.CONNECTING -> Ws.frames w = []) /\
  match Ws.handlers w with
  | Ws.Temporary data =>
      Ws.ready w <> Ws.OPEN /\ (Ws.frames w = [] \/ Ws.frames w = [Ws.encode data])
  | Ws.Persistent _ => True
  end.

(** A transport state in order: every socket is; the [socket] variable
    names a socket with the persistent handlers; every recorded promise
    belongs to a temporary socket, which has sent something once the promise
    is resolved; and no timer has an id that is still to be given out. *)
Record consistent (st : Ws.state) : Prop := {
  sockets_ok : Forall socket_ok (Ws.sockets st);
  current_ok : forall i, Ws.socket st = Some i ->
    exists w, Ws.sockets st !! i = Some w /\ Ws.is_persistent w = true;
  sends_ok : forall t p, Ws.sends st !! t = Some p ->
    exists w data, Ws.sockets st !! t = Some w /\ Ws.handlers w = Ws.Temporary data /\
                   (p = Ws.Resolved -> Ws.frames w <> []);
  timers_ok : forall k, (Ws.next_timer st <= k)%nat -> Ws.timers st !! k = None
}.

(** From [st] to [st'] no socket is lost, none changes its handlers, and
    nothing that was sent is taken back. *)
Definition extends (st st' : Ws.state) : Prop :=
  forall i w, Ws.sockets st !! i = Some w ->
    exists w', Ws.sockets st' !! i = Some w' /\ Ws.handlers w' = Ws.handlers w /\
               Ws.frames w `prefix_of` Ws.frames w'.

(** [st'] is in order and extends [st]. *)
Definition ok (st st' : Ws.state) : Prop := consistent st' /\ extends st st'.

(** [socket && socket.readyState === WebSocket.OPEN] *)
Definition connected (st : Ws.state) : bool :=
  match Ws.socket st with
  | Some i => Ws.is_open i st
  | None => false
  end.

(** * Properties *)

#[local] Arguments String.append !s1 s2 : simpl nomatch.

Lemma append_assoc (a b c : string) : (a +:+ b) +:+ c = a +:+ (b +:+ c).
Proof. induction a as [| x a IH]; simpl; [reflexivity | rewrite IH; reflexivity]. Qed.

Lemma append_nil_r (a : string) : a +:+ "" = a.
Proof. induction a as [| x a IH]; simpl; [reflexivity | rewrite IH; reflexivity]. Qed.


(** ** The dispatcher *)

Section Dispatch.
Import CommandHandler.

Lemma executeCommand_default b command ps :
  handled command = false ->
  executeCommand b command ps = throw ("Unknown command: " +:+ command).
Proof.
  unfold handled, cases. cbn [existsb]. intros H.
  repeat (apply orb_false_elim in H; destruct H as [?E H]).
  unfold executeCommand.
  repeat match goal with
         | E : is_case _ _ = false |- _ => rewrite E; clear E
         end.
  reflexivity.
Qed.

Lemma sent_app l1 l2 : sent (l1 ++ l2)%list = (sent l1 ++ sent l2)%list.
Proof. unfold sent. apply flat_map_app. Qed.

Lemma executeScriptInActiveTab_quiet b s : sent (snd (executeScriptInActiveTab b s)) = [].
Proof. unfold executeScriptInActiveTab. repeat case_match; reflexivity. Qed.

Lemma scripted_quiet b r : sent (snd (scripted b r)) = [].
Proof. destruct r; simpl; [apply executeScriptInActiveTab_quiet | reflexivity]. Qed.

Lemma evaluateFunction_quiet b f a : sent (snd (evaluateFunction b f a)) = [].
Proof.
  unfold evaluateFunction.
  destruct (evaluate_script f (evaluate_args a)) as [s | e]; [| reflexivity].
  pose proof (executeScriptInActiveTab_quiet b s) as H.
  destruct (executeScriptInActiveTab b s) as [r log]. exact H.
Qed.

(** The executor itself hands nothing to the transport. *)
Lemma executeCommand_quiet b command ps : sent (snd (executeCommand b command ps)) = [].
Proof.
  unfold executeCommand.
  repeat case_match;
    first [ apply scripted_quiet | apply executeScriptInActiveTab_quiet
          | apply evaluateFunction_quiet | idtac ].
  all: unfold navigateToUrl, reloadPage, waitForNavigation, waitForTimeout,
         and_then, after, waitForTabLoad, ret, throw; simpl;
       repeat case_match; reflexivity.
Qed.

Lemma processCommand_sent b p :
  sent (snd (processCommand b p)) =
  match fst (executeCommand b (command p) (params p)) with
  | Settles (Ok v) => [command_result b p true v VUndefined]
  | Settles (Throw (JsError m)) =>
      [command_result b p false VNull (if String.eqb m "" then VUndefined else VStr m)]
  | Settles (Throw (JsThrown _)) => [command_result b p false VNull (VStr "Unknown error")]
  | Hangs => []
  end.
Proof.
  unfold processCommand.
  pose proof (executeCommand_quiet b (command p) (params p)) as Hq.
  destruct (executeCommand b (command p) (params p)) as [r log]. simpl in Hq |- *.
  assert (Hs : forall success result error,
             sent (snd (after log (sendCommandResult b (commandId p) (accessCode p)
                                     success result error)))
             = [command_result b p success result (or_else error VUndefined)]).
  { intros. unfold after, sendCommandResult. simpl. rewrite sent_app, Hq. reflexivity. }
  destruct r as [[v | [m | v]] |]; rewrite ?Hs; try reflexivity; [| exact Hq].
  unfold or_else. simpl. destruct (String.eqb m ""); reflexivity.
Qed.

Lemma processCommand_pending b p :
  fst (executeCommand b (command p) (params p)) = Hangs ->
  fst (processCommand b p) = Hangs.
Proof.
  unfold processCommand.
  destruct (executeCommand b (command p) (params p)) as [r log]. simpl.
  intros ->. reflexivity.
Qed.

Lemma processCommand_settled b p r :
  fst (executeCommand b (command p) (params p)) = Settles r ->
  exists pkt, sent (snd (processCommand b p)) = [pkt] /\
              fst (processCommand b p) = transport b pkt.
Proof.
  intros H. pose proof (processCommand_sent b p) as Hsent. rewrite H in Hsent.
  unfold processCommand in *.
  destruct (executeCommand b (command p) (params p)) as [r' log]. simpl in H. subst r'.
  destruct r as [v | [m | v]]; unfold after, sendCommandResult in *; cbn [fst snd] in *;
    eexists; (split; [exact Hsent |]); try reflexivity.
  unfold or_else. cbn [truthy]. destruct (String.eqb m ""); reflexivity.
Qed.

Lemma goto_refused b ps :
  url_accepted (lookup_prop "url" ps) = false ->
  executeCommand b "goto" ps = (Hangs, [TabsQuery]).
Proof.
  intros H. change (executeCommand b "goto" ps) with (navigateToUrl b (lookup_prop "url" ps)).
  unfold navigateToUrl. rewrite H. destruct (tabs_query b) as [[| t0 ts] |]; reflexivity.
Qed.

(** One result for every command is not what the code gives: a [goto]
    command whose [url] is the number 5 is never answered. The call to
    [tabs.update] throws on the number inside the callback of [tabs.query],
    and the promise of the command stays pending. *)
Lemma one_result_with_error_string_fails : ~ one_result_with_error_string.
Proof.
  intros H.
  destruct (H Sample.browser (Sample.packet "goto" [("url", VNum (Int 5))]))
    as (pkt & Hsent & _).
  vm_compute in Hsent. discriminate Hsent.
Qed.

(** C4 (the code departs from the claim): [processCommand] never hands
    more than one packet to the transport. Once [executeCommand] has
    settled, it hands over exactly one, and settles as that send does: a
    COMMAND_RESULT with the inbound [commandId], with [success = true] and
    the executor's result when execution succeeded, and with
    [success = false] when it threw, the message of the thrown Error (or
    ["Unknown error"] for any other thrown value) being the [error] when it
    is not empty. But while [executeCommand] stays pending, nothing is sent
    and [processCommand] stays pending too; and that is what happens, in
    every browser, to a [goto] whose [url] is neither a string nor left
    out: the call to [tabs.update] or [tabs.create] throws inside the
    callback of [tabs.query]. *)
Theorem processCommand_one_result (b : Browser) (p : CommandPacket) :
  (length (sent (snd (processCommand b p))) <= 1)%nat /\
  match fst (executeCommand b (command p) (params p)) with
  | Settles r =>
      exists pkt,
        sent (snd (processCommand b p)) = [pkt] /\
        fst (processCommand b p) = transport b pkt /\
        get pkt "type" = VStr "COMMAND_RESULT" /\
        data_field pkt "commandId" = VStr (commandId p) /\
        match r with
        | Ok v =>
            data_field pkt "success" = VBool true /\
            data_field pkt "result" = v /\
            data_field pkt "error" = VUndefined
        | Throw e =>
            let m := match e with
                     | JsError message => message
                     | JsThrown _ => "Unknown error"
                     end in
            data_field pkt "success" = VBool false /\
            data_field pkt "error" = (if String.eqb m "" then VUndefined else VStr m)
        end
  | Hangs => sent (snd (processCommand b p)) = [] /\ fst (processCommand b p) = Hangs
  end /\
  (command p = "goto" -> url_accepted (lookup_prop "url" (params p)) = false ->
   sent (snd (processCommand b p)) = [] /\ fst (processCommand b p) = Hangs).
Proof.
  pose proof (processCommand_sent b p) as Hsent.
  split; [| split].
  - rewrite Hsent. repeat case_match; cbn; lia.
  - destruct (fst (executeCommand b (command p) (params p))) as [r |] eqn:Hr.
    + destruct (processCommand_settled b p r Hr) as (pkt & Hpkt & Hfst).
      exists pkt. split; [exact Hpkt |]. split; [exact Hfst |].
      rewrite Hsent in Hpkt.
      destruct r as [v | [m | v]]; injection Hpkt as <-; repeat split; reflexivity.
    + split; [exact Hsent | apply processCommand_pending, Hr].
  - intros Hc Hu.
    assert (Hh : fst (executeCommand b (command p) (params p)) = Hangs)
      by (rewrite Hc, (goto_refused b _ Hu); reflexivity).
    rewrite Hh in Hsent. split; [exact Hsent | apply processCommand_pending, Hh].
Qed.

Lemma default_result b p :
  handled (command p) = false ->
  fst (executeCommand b (command p) (params p))
    = Throw (JsError ("Unknown command: " +:+ command p)) /\
  sent (snd (processCommand b p))
    = [command_result b p false VNull (VStr ("Unknown command: " +:+ command p))].
Proof.
  intros H. rewrite processCommand_sent, (executeCommand_default _ _ _ H).
  split; [reflexivity |]. cbn [fst throw].
  destruct (String.eqb_spec ("Unknown command: " +:+ command p) ""); [discriminate |].
  reflexivity.
Qed.

(** C8: a command name that is none of the handled cases makes execution
    fail with the message ["Unknown command: "] followed by the name, and the
    one COMMAND_RESULT sent for it has [success = false] and that message as
    its error string. *)
Theorem unknown_command_result (b : Browser) (p : CommandPacket) :
  handled (command p) = false ->
  fst (executeCommand b (command p) (params p))
    = Throw (JsError ("Unknown command: " +:+ command p)) /\
  sent (snd (processCommand b p))
    = [command_result b p false VNull (VStr ("Unknown command: " +:+ command p))].
Proof. apply default_result. Qed.

Lemma unknown_command_result_witness :
  handled "unknownThing" = false /\
  sent (snd (processCommand Sample.browser (Sample.packet "unknownThing" [])))
    = [command_result Sample.browser (Sample.packet "unknownThing" []) false VNull
         (VStr "Unknown command: unknownThing")].
Proof.
  split; [reflexivity |].
  apply (unknown_command_result Sample.browser (Sample.packet "unknownThing" [])).
  reflexivity.
Defined.

(** C10: ["screenshot"] and ["pdf"] are values of the [CommandType]
    enumeration, the dispatch has no case for them, and a COMMAND packet with
    either name, whatever its parameters, is answered by one COMMAND_RESULT
    with [success = false] and the error ["Unknown command: screenshot"] or
    ["Unknown command: pdf"]. *)
Theorem screenshot_pdf_unhandled (b : Browser) (p : CommandPacket) :
  command p = "screenshot" \/ command p = "pdf" ->
  In (command p) (declared CommandType) /\
  handled (command p) = false /\
  sent (snd (processCommand b p))
    = [command_result b p false VNull (VStr ("Unknown command: " +:+ command p))].
Proof.
  intros H.
  assert (Hh : handled (command p) = false) by (destruct H as [-> | ->]; reflexivity).
  split; [destruct H as [-> | ->]; simpl; tauto |].
  split; [exact Hh |].
  apply default_result, Hh.
Qed.

Lemma screenshot_pdf_unhandled_witness :
  sent (snd (processCommand Sample.browser
               (Sample.packet "screenshot" [("fullPage", VBool true)])))
    = [command_result Sample.browser
         (Sample.packet "screenshot" [("fullPage", VBool true)]) false VNull
         (VStr "Unknown command: screenshot")].
Proof.
  apply (screenshot_pdf_unhandled Sample.browser
           (Sample.packet "screenshot" [("fullPage", VBool true)])).
  left. reflexivity.
Defined.

End Dispatch.

(** ** Navigation and evaluation *)

Section Executor.
Import CommandHandler.

Lemma listen_spec limit tab evs :
  listen limit tab evs = TimedOut limit \/
  exists t i, tab = Some i /\ listen limit tab evs = LoadComplete t /\
              t < limit /\ In (t, i, "complete") evs.
Proof.
  induction evs as [| [[t c] status] rest IH]; simpl; [left; reflexivity |].
  destruct (Z.leb_spec limit t); [left; reflexivity |].
  destruct tab as [i |].
  - destruct (Z.eqb_spec c i) as [-> |]; simpl.
    + destruct (String.eqb_spec status "complete") as [-> |].
      * right. exists t, i. auto.
      * destruct IH as [-> | (t' & i' & ? & ? & ? & ?)]; [left; reflexivity |].
        right. exists t', i'. auto.
    + destruct IH as [-> | (t' & i' & ? & ? & ? & ?)]; [left; reflexivity |].
      right. exists t', i'. auto.
  - destruct IH as [-> | (t' & i' & ? & ? & ? & ?)]; [left; reflexivity |].
    discriminate.
Qed.

Lemma waitForTabLoad_loaded b tab :
  loaded_or_timed_out b (tab, listen 30000 tab (onUpdated b)).
Proof.
  unfold loaded_or_timed_out. simpl.
  destruct (listen_spec 30000 tab (onUpdated b)) as [H | (t & i & -> & H & ? & ?)].
  - left. exact H.
  - right. exists t, i. auto.
Qed.

Lemma executeScriptInActiveTab_no_wait b s : waits (snd (executeScriptInActiveTab b s)) = [].
Proof. unfold executeScriptInActiveTab. repeat case_match; reflexivity. Qed.

(** The navigation claim fails on [back]: the command resolves as soon as
    the injected [window.history.back()] has returned, with no wait at all. *)
Lemma navigation_waits_for_load_fails : ~ navigation_waits_for_load.
Proof.
  intros H.
  destruct (H Sample.browser "back" [] (VObj [("success", VBool true)]))
    as (w & Hw & _).
  - simpl. tauto.
  - reflexivity.
  - vm_compute in Hw. discriminate Hw.
Qed.

(** C6 (the code departs from the claim): [goto] resolves whenever the
    browser takes the [url] and reports the tab it made for it, and
    [reload] resolves whenever there is an active tab; either does so only
    after one wait on the tab, which ends when the tab is reported complete
    or when 30 seconds have passed. [back] and [forward] miss that wait:
    they settle with the answer to the injected history call, whether or
    not the tab has finished loading. *)
Theorem navigation_resolution (b : Browser) (ps : list (string * value)) :
  (forall v, fst (executeCommand b "goto" ps) = Ok v ->
      exists w, waits (snd (executeCommand b "goto" ps)) = [w] /\
                loaded_or_timed_out b w) /\
  (url_accepted (lookup_prop "url" ps) = true ->
   (tabs_query b = None \/ tabs_query b = Some [] ->
    tabs_create b (lookup_prop "url" ps) <> None) ->
   exists v w,
     fst (executeCommand b "goto" ps) = Ok v /\
     waits (snd (executeCommand b "goto" ps)) = [w] /\ loaded_or_timed_out b w) /\
  (forall v, fst (executeCommand b "reload" ps) = Ok v ->
      exists w, waits (snd (executeCommand b "reload" ps)) = [w] /\
                loaded_or_timed_out b w) /\
  waits (snd (executeCommand b "back" ps)) = [] /\
  waits (snd (executeCommand b "forward" ps)) = [].
Proof.
  change (executeCommand b "goto" ps) with (navigateToUrl b (lookup_prop "url" ps)).
  repeat split.
  - intros v. unfold navigateToUrl.
    destruct (url_accepted (lookup_prop "url" ps));
      destruct (tabs_query b) as [[| t0 ts] |];
      try destruct (tabs_create b (lookup_prop "url" ps));
      intros Hv; try discriminate Hv;
      eexists (_, _); (split; [reflexivity |]); apply waitForTabLoad_loaded.
  - intros Hu Hc. unfold navigateToUrl. rewrite Hu.
    destruct (tabs_query b) as [[| t0 ts] |] eqn:Hq;
      [ destruct (tabs_create b (lookup_prop "url" ps)) eqn:Hn;
          [| exfalso; apply Hc; [right; reflexivity | reflexivity]]
      |
      | destruct (tabs_create b (lookup_prop "url" ps)) eqn:Hn;
          [| exfalso; apply Hc; [left; reflexivity | reflexivity]] ];
      eexists _, (_, _); (split; [reflexivity |]); (split; [reflexivity |]);
      apply waitForTabLoad_loaded.
  - intros v. change (executeCommand b "reload" ps) with (reloadPage b).
    unfold reloadPage.
    destruct (tabs_query b) as [[| t0 ts] |]; simpl; try discriminate.
    intros _. eexists (_, _). split; [reflexivity |]. apply waitForTabLoad_loaded.
  - apply executeScriptInActiveTab_no_wait.
  - apply executeScriptInActiveTab_no_wait.
Qed.

Lemma navigation_resolution_witness :
  exists w, waits (snd (executeCommand Sample.browser "reload" [])) = [w] /\
            loaded_or_timed_out Sample.browser w.
Proof.
  destruct (navigation_resolution Sample.browser []) as (_ & _ & H & _).
  apply (H (VObj [("success", VBool true)])). reflexivity.
Defined.

Lemma evaluate_args_unparsed argsStr :
  JSON.parse (ToString (or_else argsStr (VStr "[]"))) = None ->
  evaluate_args argsStr = VArr [].
Proof.
  intros H. unfold evaluate_args, template.
  destruct (printable _); [rewrite H |]; reflexivity.
Qed.

Lemma executeScriptInActiveTab_hosting r p t other s o :
  behaviour s p = Some o ->
  executeScriptInActiveTab (hosting r p t other) s
  = ( Settles (reported (report r o)),
      [TabsQuery; ExecuteScript (id t) ("(function() { " +:+ code s +:+ " })()")] ).
Proof.
  intros H. unfold executeScriptInActiveTab.
  cbn [hosting tabs_query executeScript behaviour code]. rewrite H. reflexivity.
Qed.

(** The claim about [evaluate] fails as stated: the function
    [() => { throw new Error('boom') }] ends the in-page evaluation with
    [{ error: 'boom' }], and the command resolves. *)
Lemma evaluate_throws_every_error_field_fails : ~ evaluate_throws_every_error_field.
Proof.
  intros H.
  destruct (H relaying Sample.page {| id := 1 |} Sample.bare
              (VStr Sample.throwing) VUndefined) as [_ H2].
  destruct (H2 (Throw (JsError "boom")) (VObj [("error", VStr "boom")])) as (e & He).
  - exists Sample.throwing. split; reflexivity.
  - reflexivity.
  - simpl. tauto.
  - vm_compute in He. discriminate He.
Qed.

(** C9 (the code departs from the claim): when the argument string fails
    to parse, the script is built with the empty argument list and run like
    the one for ['[]']; and whenever the value that comes back from the
    browser has a truthy [error] field, [evaluateFunction] throws an Error
    made from that field. But the script that is sent never hands such a
    value back: the template is an expression statement inside the wrapper
    of [executeScriptInActiveTab], which has no [return]. Whatever the
    function does in the page (unless it throws [null] or [undefined]), the
    script ends without a value; the browser has [undefined] or [null] to
    tell, and the command resolves with that, also when the in-page
    evaluation ended with an object that carries the message of what was
    thrown. *)
Theorem evaluate_arguments_and_errors (b : Browser) (r : reporting) (p : Page.page)
    (t : tab) (functionStr argsStr : value) :
  (JSON.parse (ToString (or_else argsStr (VStr "[]"))) = None ->
     evaluate_args argsStr = VArr [] /\
     arguments_text (evaluate_args argsStr) = "[]" /\
     evaluateFunction b functionStr argsStr = evaluateFunction b functionStr (VStr "[]")) /\
  (forall s answer,
     evaluate_script functionStr (evaluate_args argsStr) = Ok s ->
     fst (executeScriptInActiveTab b s) = Ok answer ->
     fst (evaluateFunction b functionStr argsStr) = checked answer /\
     (truthy answer = true -> truthy (get answer "error") = true ->
      printable (get answer "error") = true ->
      checked answer = Throw (JsError (ToString (get answer "error"))))) /\
  (forall ended,
     evaluates p functionStr argsStr ended ->
     ended <> Throw (JsThrown VUndefined) -> ended <> Throw (JsThrown VNull) ->
     (forall message,
        ended = Throw (JsError message) -> message <> "" ->
        Page.evaluation ended = Page.Return (VObj [("error", VStr message)])) /\
     (exists s, evaluate_script functionStr (evaluate_args argsStr) = Ok s /\
                behaviour s p = Some (Page.Return VUndefined)) /\
     forall nothing,
       nothing = VUndefined \/ nothing = VNull ->
       on_return r VUndefined = Results (Some [nothing]) ->
       fst (evaluateFunction (hosting r p t b) functionStr argsStr) = Ok nothing).
Proof.
  split; [| split].
  - intros H. pose proof (evaluate_args_unparsed argsStr H) as Ha.
    split; [exact Ha |]. split; [rewrite Ha; reflexivity |].
    unfold evaluateFunction. rewrite Ha. reflexivity.
  - intros s answer Hs Hr. split.
    + unfold evaluateFunction. rewrite Hs.
      destruct (executeScriptInActiveTab b s) as [r0 log]. cbn [fst] in Hr |- *.
      rewrite Hr. reflexivity.
    + intros Ht He Hp. unfold checked, new_Error, template. rewrite Ht, He, Hp. cbn [andb].
      destruct (get answer "error"); try reflexivity. discriminate He.
  - intros ended (fn & Hfn & Hev) Hu Hn.
    assert (Hret : Page.evaluateFunction fn
                     (arguments_text (evaluate_args argsStr)) p
                   = Some (Page.Return VUndefined)).
    { unfold Page.evaluateFunction. rewrite Hev.
      destruct ended as [v | [m | [| | | | | | |]]]; try reflexivity; congruence. }
    split; [| split].
    + intros message -> Hm. unfold Page.evaluation, or_else. cbn [truthy].
      destruct (String.eqb_spec message ""); [contradiction | reflexivity].
    + unfold evaluate_script. rewrite Hfn. cbn [bind]. eexists. split; [reflexivity |].
      exact Hret.
    + intros nothing Hnothing Hreply.
      unfold evaluateFunction, evaluate_script. rewrite Hfn. cbn [bind].
      erewrite executeScriptInActiveTab_hosting by exact Hret.
      cbn [fst report]. rewrite Hreply.
      destruct Hnothing as [-> | ->]; reflexivity.
Qed.

Lemma evaluate_arguments_and_errors_witness :
  evaluate_args (VStr "[1,") = VArr [] /\
  fst (evaluateFunction Sample.browser (VStr Sample.throwing) (VStr "[1,")) = Ok VUndefined.
Proof.
  destruct (evaluate_arguments_and_errors Sample.bare relaying Sample.page {| id := 1 |}
              (VStr Sample.throwing) (VStr "[1,"))
    as (H1 & _ & H3).
  split.
  - apply H1. reflexivity.
  - destruct (H3 (Throw (JsError "boom"))) as (_ & _ & Hrun).
    + exists Sample.throwing. split; reflexivity.
    + discriminate.
    + discriminate.
    + apply (Hrun VUndefined); [left; reflexivity | reflexivity].
Defined.

End Executor.

(** ** The transport *)

Section Transport.
Import Ws.

(** C3 (the code departs from the claim): the registration message sent
    when the persistent connection opens carries the access code, but its
    kind tag is [PacketType.REGISTER], which the enumeration does not
    declare: the tag is [undefined], and the frame on the wire has no [type]
    at all. The periodic message of [keepAlive] uses the declared [INIT]. *)
Theorem register_message_kind (accessCode : value) (h : Background.host) :
  data_field (registerMessage accessCode) "accessCode" = accessCode /\
  get (registerMessage accessCode) "type" = VUndefined /\
  is_declared PacketType (get (registerMessage accessCode) "type") = false /\
  is_declared PacketType (get (Background.init_message h accessCode) "type") = true /\
  (frames <$> (steps [CallInitialize (VStr "123456"); Opened 0%nat] initial
                 ≫= fun st => sockets st !! 0%nat))
    = Some [encode (VObj [("data", VObj [("accessCode", VStr "123456")])])].
Proof.
  split; [reflexivity |]. split; [reflexivity |]. split; [reflexivity |].
  split; [reflexivity |]. vm_compute. reflexivity.
Qed.

(** C2 (the code departs from the claim): [closeWebSocket] on an open
    connection cancels both timers, but the close event of the socket it
    closed still runs [onclose], which arms a new reconnect timer; when
    that timer fires, a second connection is opened although
    [initializeWebSocket] was never called again. *)
Theorem reconnect_after_close :
  exists closed rearmed reconnected,
    steps [CallInitialize (VStr "123456"); Opened 0%nat; CallClose] initial
      = Some closed /\
    reconnect_pending closed = false /\ timers closed = ∅ /\ attempts closed = 1%nat /\
    step (Closed 0%nat) closed = Some rearmed /\
    reconnect_pending rearmed = true /\ reconnectTimeout rearmed = Some 2%nat /\
    step (Fired 2%nat) rearmed = Some reconnected /\
    attempts reconnected = 2%nat /\
    (ready <$> sockets reconnected !! 1%nat) = Some CONNECTING.
Proof.
  eexists _, _, _.
  split; [vm_compute; reflexivity |].
  repeat split; vm_compute; reflexivity.
Qed.

End Transport.

(** ** Selectors that match nothing *)

Section Selectors.
Import CommandHandler.

Lemma replace_all_app c by_ a b' :
  replace_all c by_ (a +:+ b') = replace_all c by_ a +:+ replace_all c by_ b'.
Proof.
  induction a as [| x a IH]; simpl; [reflexivity |].
  rewrite IH. destruct (Ascii.eqb x c); simpl.
  - rewrite append_assoc. reflexivity.
  - reflexivity.
Qed.

Lemma escapeString_escaped s : escapeString (VStr s) = Ok (escaped s).
Proof.
  unfold escapeString. f_equal.
  induction s as [| x s IH]; [reflexivity |].
  cbn [replace_all escaped]. rewrite !replace_all_app, IH. f_equal.
  destruct (Ascii.eqb_spec x "\"%char) as [-> |]; [reflexivity |].
  simpl. destruct (Ascii.eqb_spec x "'"%char) as [-> |]; [reflexivity |].
  simpl. destruct (Ascii.eqb x JSON.dquote); reflexivity.
Qed.

Lemma js_literal_escaped s : plain s = true -> Page.js_literal (escaped s) = Some s.
Proof.
  induction s as [| x s IH]; [reflexivity |].
  cbn [plain]. intros H. apply andb_true_iff in H as [Hx Hs]. specialize (IH Hs).
  cbn [escaped].
  destruct x as [[] [] [] [] [] [] [] []]; try discriminate Hx;
    cbn -[Page.js_literal escaped]; cbn [Page.js_literal]; cbn -[Page.js_literal escaped];
    rewrite IH; reflexivity.
Qed.

Lemma scripted_hosting r p t other s o :
  behaviour s p = Some o ->
  fst (scripted (hosting r p t other) (Ok s)) = reported (report r o).
Proof.
  intros H. cbn [scripted]. rewrite (executeScriptInActiveTab_hosting r p t other s o H).
  reflexivity.
Qed.








End Selectors.

(** ** The access code *)

Section AccessCode.
Import Double.

Lemma pow2_pos n : 0 <= n -> 0 < 2 ^ n.
Proof. intros. apply Z.pow_pos_nonneg; lia. Qed.

Lemma pow2_add a b : 0 <= a -> 0 <= b -> 2 ^ (a + b) = 2 ^ a * 2 ^ b.
Proof. intros. apply Z.pow_add_r; assumption. Qed.

Lemma pow2_le a b : 0 <= a <= b -> 2 ^ a <= 2 ^ b.
Proof. intros. apply Z.pow_le_mono_r; lia. Qed.

Lemma bits_nonneg M : 0 <= M -> 0 <= bits M.
Proof.
  intros. unfold bits. destruct (Z.eqb_spec M 0); [lia |].
  pose proof (Z.log2_nonneg M). lia.
Qed.

Lemma bits_upper M : 0 <= M -> M < 2 ^ bits M.
Proof.
  intros H. unfold bits. destruct (Z.eqb_spec M 0) as [-> |]; [reflexivity |].
  replace (Z.log2 M + 1) with (Z.succ (Z.log2 M)) by lia.
  apply Z.log2_spec. lia.
Qed.

Lemma bits_le M n : 0 <= n -> 0 <= M < 2 ^ n -> bits M <= n.
Proof.
  intros Hn [H0 H]. unfold bits. destruct (Z.eqb_spec M 0); [lia |].
  assert (Z.log2 M < n) by (apply Z.log2_lt_pow2; lia). lia.
Qed.

(** What rounding guarantees, in units of the result. *)
Lemma round_spec d :
  0 <= mant d -> -1074 <= expo d ->
  expo (round d) = Z.max (expo d) (Z.max (bits (mant d) - 53 + expo d) (-1074)) /\
  0 <= mant (round d) /\
  (forall k, k * 2 ^ (expo (round d) + 1074) <= scaled d ->
             k * 2 ^ (expo (round d) + 1074) <= scaled (round d)) /\
  (forall k, 2 * scaled d < (2 * k + 1) * 2 ^ (expo (round d) + 1074) ->
             scaled (round d) <= k * 2 ^ (expo (round d) + 1074)).
Proof.
  destruct d as [M E]. cbn [mant expo]. intros HM HE.
  unfold round, scaled. cbn [mant expo].
  set (s := Z.max (bits M - 53) (-1074 - E)).
  pose proof (pow2_pos (E + 1074) ltac:(lia)) as HU.
  destruct (Z.leb_spec s 0) as [Hs | Hs]; cbn [mant expo].
  - split; [lia |]. split; [lia |]. split; [auto |].
    intros k Hk. apply Z.mul_le_mono_nonneg_r; [lia |]. nia.
  - pose proof (pow2_pos s ltac:(lia)) as HW.
    pose proof (pow2_pos (s - 1) ltac:(lia)) as Hh.
    assert (HWh : 2 ^ s = 2 * 2 ^ (s - 1)).
    { replace s with (1 + (s - 1)) at 1 by lia. rewrite pow2_add by lia. reflexivity. }
    assert (HUW : 2 ^ (E + s + 1074) = 2 ^ (E + 1074) * 2 ^ s).
    { replace (E + s + 1074) with ((E + 1074) + s) by lia. apply pow2_add; lia. }
    rewrite HUW.
    pose proof (Z.div_mod M (2 ^ s) ltac:(lia)) as Hdm.
    pose proof (Z.mod_pos_bound M (2 ^ s) HW) as Hrem.
    assert (Hq : 0 <= M / 2 ^ s) by (apply Z.div_pos; lia).
    set (q := M / 2 ^ s) in *. set (r := M mod 2 ^ s) in *.
    set (U := 2 ^ (E + 1074)) in *. set (W := 2 ^ s) in *. set (h := 2 ^ (s - 1)) in *.
    set (up := if r <? h then false else if h <? r then true else Z.odd q).
    assert (Hq' : q <= (if up then q + 1 else q) <= q + 1) by (destruct up; lia).
    assert (Hup : r < h -> (if up then q + 1 else q) = q).
    { intros Hr. unfold up. destruct (Z.ltb_spec r h); [reflexivity | lia]. }
    set (q' := if up then q + 1 else q) in *.
    split; [lia |]. split; [lia |]. split.
    + intros k Hk.
      assert (k * W <= M) by nia.
      assert (k <= q) by (apply Z.div_le_lower_bound; lia).
      nia.
    + intros k Hk.
      assert (HMk : M < k * W + h) by nia.
      assert (q < k + 1) by (apply Z.div_lt_upper_bound; nia).
      destruct (Z.eq_dec q k) as [Heq | Hne].
      * rewrite Hup by nia. nia.
      * assert (q' <= k) by lia. nia.
Qed.

Lemma random_scaled r : unit_interval r -> 0 <= scaled r <= 2 ^ 1074 - 2 ^ 1021.
Proof.
  destruct r as [m e]. unfold unit_interval, scaled. cbn [mant expo].
  intros ([Hm0 Hm] & [He0 He] & Hlt).
  pose proof (pow2_pos (e + 1074) ltac:(lia)) as Hu.
  pose proof (pow2_pos (- e) ltac:(lia)) as Hv.
  assert (Huv : 2 ^ (- e) * 2 ^ (e + 1074) = 2 ^ 1074).
  { rewrite <- pow2_add by lia. f_equal. lia. }
  split; [nia |].
  destruct (Z_le_gt_dec (-53) e) as [Hc | Hc].
  - assert (2 ^ 1021 <= 2 ^ (e + 1074)) by (apply pow2_le; lia). nia.
  - assert (H1 : 2 ^ 53 * 2 ^ (e + 1074) = 2 ^ (e + 1127)).
    { rewrite <- pow2_add by lia. f_equal. lia. }
    assert (H2 : 2 ^ (e + 1127) <= 2 ^ 1073) by (apply pow2_le; lia).
    assert (H3 : 2 ^ 1074 = 2 * 2 ^ 1073) by (exact (Z.pow_succ_r 2 1073 ltac:(lia))).
    assert (H4 : 2 ^ 1021 <= 2 ^ 1073) by (apply pow2_le; lia).
    nia.
Qed.

Lemma scaled_nonneg d : 0 <= mant d -> -1074 <= expo d -> 0 <= scaled d.
Proof.
  intros. unfold scaled. pose proof (pow2_pos (expo d + 1074) ltac:(lia)). nia.
Qed.

Lemma product_bound r :
  unit_interval r ->
  let d := mul r (of_int 900000) in
  0 <= mant d /\ -1074 <= expo d < 0 /\ scaled d <= 900000 * 2 ^ 1074 - 2 ^ 1041.
Proof.
  intros Hr. pose proof (random_scaled r Hr) as HR.
  destruct r as [m e]. unfold unit_interval in Hr. unfold scaled in HR.
  cbn [mant expo] in *. destruct Hr as ([Hm0 Hm] & [He0 He] & Hlt).
  unfold mul, of_int. cbn [mant expo]. rewrite Z.add_0_r.
  set (d1 := {| mant := m * 900000; expo := e |}).
  destruct (round_spec d1) as (HE & HM & _ & Hc); cbn [d1 mant expo]; [lia | lia |].
  cbn [d1 mant expo] in HE.
  set (E1 := expo (round d1)) in *.
  assert (Hs : scaled d1 = 900000 * (m * 2 ^ (e + 1074))) by (unfold scaled; cbn; ring).
  pose proof (pow2_pos (e + 1074) ltac:(lia)) as Hu.
  pose proof (pow2_pos (- e) ltac:(lia)) as Hv.
  assert (Hbits : bits (m * 900000) <= 20 - e).
  { apply bits_le; [lia |]. split; [lia |].
    replace (20 - e) with (- e + 20) by lia. rewrite pow2_add by lia.
    change (2 ^ 20) with 1048576. nia. }
  pose proof (bits_nonneg (m * 900000) ltac:(lia)) as Hb0.
  pose proof (bits_upper (m * 900000) ltac:(lia)) as Hbu.
  assert (H74 : 2 ^ 1074 = 2 ^ 33 * 2 ^ 1041) by (rewrite <- pow2_add by lia; reflexivity).
  assert (H41 : 2 ^ 1041 = 2 ^ 20 * 2 ^ 1021) by (rewrite <- pow2_add by lia; reflexivity).
  change (2 ^ 33) with 8589934592 in H74. change (2 ^ 20) with 1048576 in H41.
  pose proof (pow2_pos 1021 ltac:(lia)) as HT.
  split; [exact HM |]. split; [lia |].
  assert (HE1 : -1074 <= E1 <= -33 \/ (-33 < E1 /\ E1 = e)) by lia.
  destruct HE1 as [HE1 | [HE1 ->]].
  - (* the result lies on a grid that contains the bound *)
    assert (HG : 2 ^ 1041 = 2 ^ (-33 - E1) * 2 ^ (E1 + 1074)).
    { rewrite <- pow2_add by lia. f_equal. lia. }
    pose proof (pow2_pos (-33 - E1) ltac:(lia)) as Hg.
    pose proof (pow2_pos (E1 + 1074) ltac:(lia)) as Hu1.
    specialize (Hc ((900000 * 8589934592 - 1) * 2 ^ (-33 - E1))).
    assert (HK : (900000 * 8589934592 - 1) * 2 ^ (-33 - E1) * 2 ^ (E1 + 1074)
                 = 900000 * 2 ^ 1074 - 2 ^ 1041) by nia.
    rewrite HK in Hc. apply Hc. clear Hc.
    destruct (Z.eq_dec E1 (-33)) as [Heq | Hne].
    + (* top binade: the product is below the midpoint *)
      rewrite Heq in *. change (-33 - -33) with 0 in *. change (2 ^ 0) with 1 in *.
      replace (-33 + 1074) with 1041 in * by lia. rewrite Hs. nia.
    + (* a lower binade: the product is below 2^19 *)
      assert (Hlow : bits (m * 900000) + e <= 19) by lia.
      assert (scaled d1 < 2 ^ 1093).
      { unfold scaled. cbn [d1 mant expo].
        assert (2 ^ (bits (m * 900000) + (e + 1074)) <= 2 ^ 1093) by (apply pow2_le; lia).
        rewrite pow2_add in H by lia. nia. }
      assert (H93 : 2 ^ 1093 = 2 ^ 52 * 2 ^ 1041) by (rewrite <- pow2_add by lia; reflexivity).
      change (2 ^ 52) with 4503599627370496 in H93.
      pose proof (pow2_pos 1041 ltac:(lia)). nia.
  - (* nothing was rounded off: the product is a multiple of its own unit *)
    specialize (Hc (m * 900000)).
    assert (2 ^ 1041 <= 2 ^ (e + 1074)) by (apply pow2_le; lia).
    assert (Hle : scaled (round d1) <= m * 900000 * 2 ^ (e + 1074)).
    { apply Hc. unfold scaled. cbn [d1 mant expo]. nia. }
    assert (Huv : 2 ^ (- e) * 2 ^ (e + 1074) = 2 ^ 1074).
    { rewrite <- pow2_add by lia. f_equal. lia. }
    nia.
Qed.

Lemma floor_sum_bounds d :
  0 <= mant d -> -1074 <= expo d < 0 -> scaled d <= 900000 * 2 ^ 1074 - 2 ^ 1041 ->
  100000 <= floor (add (of_int 100000) d) <= 999999.
Proof.
  destruct d as [M E]. cbn [mant expo]. intros HM HE HS.
  unfold add, of_int. cbn [mant expo].
  rewrite (Z.min_r 0 E) by lia. rewrite Z.sub_diag, Z.mul_1_r.
  replace (0 - E) with (- E) by lia.
  set (d2 := {| mant := 100000 * 2 ^ (- E) + M; expo := E |}).
  pose proof (pow2_pos (- E) ltac:(lia)) as Hv.
  pose proof (pow2_pos (E + 1074) ltac:(lia)) as Hu.
  assert (Huv : 2 ^ (- E) * 2 ^ (E + 1074) = 2 ^ 1074).
  { rewrite <- pow2_add by lia. f_equal. lia. }
  assert (Hs2 : scaled d2 = 100000 * 2 ^ 1074 + scaled {| mant := M; expo := E |}).
  { unfold scaled. cbn [d2 mant expo]. nia. }
  unfold scaled in HS, Hs2 at 2. cbn [mant expo] in HS, Hs2.
  assert (H74 : 2 ^ 1074 = 2 ^ 33 * 2 ^ 1041) by (rewrite <- pow2_add by lia; reflexivity).
  change (2 ^ 33) with 8589934592 in H74.
  pose proof (pow2_pos 1041 ltac:(lia)) as H41.
  destruct (round_spec d2) as (HE2 & HM2 & Ha & Hc); cbn [d2 mant expo]; [nia | lia |].
  cbn [d2 mant expo] in HE2.
  assert (Hbits : bits (100000 * 2 ^ (- E) + M) <= 20 - E).
  { apply bits_le; [lia |]. split; [nia |].
    replace (20 - E) with (- E + 20) by lia. rewrite pow2_add by lia.
    change (2 ^ 20) with 1048576.
    apply Z.mul_lt_mono_pos_r with (p := 2 ^ (E + 1074)); [exact Hu |]. nia. }
  set (E2 := expo (round d2)) in *. set (F := mant (round d2)) in *.
  assert (HE2' : E2 < 0) by lia.
  pose proof (pow2_pos (- E2) ltac:(lia)) as Hv2.
  pose proof (pow2_pos (E2 + 1074) ltac:(lia)) as Hu2.
  assert (Huv2 : 2 ^ (- E2) * 2 ^ (E2 + 1074) = 2 ^ 1074).
  { rewrite <- pow2_add by lia. f_equal. lia. }
  assert (Hlo : 100000 * 2 ^ 1074 <= scaled (round d2)).
  { specialize (Ha (100000 * 2 ^ (- E2))).
    replace (100000 * 2 ^ (- E2) * 2 ^ (E2 + 1074)) with (100000 * 2 ^ 1074) in Ha by nia.
    apply Ha. nia. }
  assert (Hhi : scaled (round d2) <= 1000000 * 2 ^ 1074 - 2 ^ 1041).
  { assert (HE2c : E2 <= -33 \/ (-33 < E2 /\ E2 = E)) by lia.
    destruct HE2c as [HE2c | [HE2c Heq]].
    - assert (HG : 2 ^ 1041 = 2 ^ (-33 - E2) * 2 ^ (E2 + 1074)).
      { rewrite <- pow2_add by lia. f_equal. lia. }
      pose proof (pow2_pos (-33 - E2) ltac:(lia)) as Hg.
      specialize (Hc ((1000000 * 8589934592 - 1) * 2 ^ (-33 - E2))).
      replace ((1000000 * 8589934592 - 1) * 2 ^ (-33 - E2) * 2 ^ (E2 + 1074))
        with (1000000 * 2 ^ 1074 - 2 ^ 1041) in Hc by nia.
      apply Hc. nia.
    - specialize (Hc (100000 * 2 ^ (- E) + M)). rewrite Heq in Hc.
      assert (scaled (round d2) <= (100000 * 2 ^ (- E) + M) * 2 ^ (E + 1074)).
      { apply Hc. unfold scaled. cbn [d2 mant expo]. nia. }
      nia. }
  unfold floor. fold E2 F. destruct (Z.leb_spec 0 E2); [lia |].
  unfold scaled in Hlo, Hhi. fold E2 F in Hlo, Hhi.
  split.
  - apply Z.div_le_lower_bound; [exact Hv2 |]. nia.
  - assert (F / 2 ^ (- E2) < 1000000); [| lia].
    apply Z.div_lt_upper_bound; [exact Hv2 |]. nia.
Qed.

Lemma generate_bounds r :
  unit_interval r ->
  100000 <= floor (add (of_int 100000) (mul r (of_int 900000))) <= 999999.
Proof.
  intros Hr. destruct (product_bound r Hr) as (H1 & H2 & H3).
  apply floor_sum_bounds; assumption.
Qed.

Lemma is_digit_digit_char k : 0 <= k <= 9 -> JSON.is_digit (digit_char k) = true.
Proof.
  intros H.
  assert (Hk : k = 0 \/ k = 1 \/ k = 2 \/ k = 3 \/ k = 4 \/ k = 5 \/ k = 6
               \/ k = 7 \/ k = 8 \/ k = 9) by lia.
  repeat (destruct Hk as [-> | Hk]; [reflexivity |]). subst k. reflexivity.
Qed.

Lemma six_digits n :
  100000 <= n <= 999999 ->
  String.length (int_to_string n) = 6%nat /\ all_digits (int_to_string n) = true.
Proof.
  intros Hn. unfold int_to_string. destruct (Z.ltb_spec n 0); [lia |].
  unfold digits.
  assert (Hlog : 16 <= Z.log2 n).
  { change 16 with (Z.log2 65536). apply Z.log2_le_mono. lia. }
  destruct (Z.to_nat (Z.log2 n)) as [| [| [| [| [| f]]]]] eqn:Hf; try lia.
  cbn [digits_aux].
  repeat match goal with
         | |- context [?a <? 10] =>
             destruct (Z.ltb_spec a 10); try (Z.to_euclidean_division_equations; lia)
         end.
  cbn [String.length all_digits].
  rewrite !is_digit_digit_char by (Z.to_euclidean_division_equations; lia).
  split; reflexivity.
Qed.

Lemma generateAccessCode_digits r :
  unit_interval r ->
  exists n, 100000 <= n <= 999999 /\ Ws.generateAccessCode r = int_to_string n /\
            String.length (int_to_string n) = 6%nat /\
            all_digits (int_to_string n) = true.
Proof.
  intros Hr. pose proof (generate_bounds r Hr) as Hb.
  exists (floor (add (of_int 100000) (mul r (of_int 900000)))).
  split; [exact Hb |]. split.
  - unfold Ws.generateAccessCode, Int, number_to_string.
    change (0 <=? 0) with true. cbv iota. rewrite Z.pow_0_r, Z.mul_1_r. reflexivity.
  - apply six_digits, Hb.
Qed.

(** C7, as stated, fails: with the empty string stored under [accessCode]
    the key is there, and still a fresh code is generated and persisted. *)
Lemma generates_only_without_key_fails : ~ generates_only_without_key.
Proof.
  intros H. specialize (H Sample.host Sample.blank).
  assert (Hne : Background.storage (fst (Background.keepAlive Sample.host Sample.blank))
                <> Background.storage Sample.blank).
  { intros Heq. apply (f_equal (fun m => m !! "accessCode")) in Heq.
    vm_compute in Heq. discriminate Heq. }
  specialize (H Hne). vm_compute in H. discriminate H.
Qed.

(** C7, amended: [keepAlive] generates an access code and persists it
    exactly when storage holds no truthy value under [accessCode] (the key
    is absent, or holds a falsy value such as the empty string); otherwise
    it uses the stored value and leaves storage alone. A generated code is,
    for every double in [[0, 1)] that [Math.random()] can return, the
    decimal numeral of an integer from 100000 to 999999, a string of
    exactly 6 decimal digits. After any run the code used is the one in
    storage, and a second run returns that same value and does not touch
    storage. *)
Theorem access_code_get_or_create (h h' : Background.host) (w : Background.world) :
  unit_interval (Background.Math_random h) ->
  let stored := from_option (fun v => v) VUndefined (Background.storage w !! "accessCode") in
  let w1 := fst (Background.keepAlive h w) in
  let code := snd (Background.keepAlive h w) in
  (Background.storage w !! "accessCode" = None -> truthy stored = false) /\
  (truthy stored = true -> code = stored /\ Background.storage w1 = Background.storage w) /\
  (truthy stored = false ->
     Background.storage w1 = <["accessCode" := code]> (Background.storage w) /\
     exists n, 100000 <= n <= 999999 /\ code = VStr (int_to_string n) /\
               String.length (int_to_string n) = 6%nat /\
               all_digits (int_to_string n) = true) /\
  Background.storage w1 !! "accessCode" = Some code /\
  snd (Background.keepAlive h' w1) = code /\
  Background.storage (fst (Background.keepAlive h' w1)) = Background.storage w1.
Proof.
  intros Hr stored w1 code.
  destruct (generateAccessCode_digits _ Hr) as (n & Hn & Hgen & Hlen & Hdig).
  assert (Hcode : truthy code = true /\ Background.storage w1 !! "accessCode" = Some code).
  { unfold code, w1, Background.keepAlive. fold stored. cbn [fst snd Background.storage].
    destruct (truthy stored) eqn:Hs; cbn [negb].
    - split; [exact Hs |]. unfold stored in *.
      destruct (Background.storage w !! "accessCode"); [reflexivity | discriminate Hs].
    - split.
      + rewrite Hgen. destruct (int_to_string n); [discriminate Hlen | reflexivity].
      + apply lookup_insert_eq. }
  destruct Hcode as [Htr Hlook].
  split; [intros Hnone; unfold stored; rewrite Hnone; reflexivity |].
  split.
  { intros Hs. unfold code, w1, Background.keepAlive. fold stored.
    rewrite Hs. split; reflexivity. }
  split.
  { intros Hs. unfold code, w1, Background.keepAlive. fold stored.
    rewrite Hs. cbn [fst snd negb Background.storage]. split; [reflexivity |].
    exists n. rewrite Hgen. auto. }
  split; [exact Hlook |].
  unfold Background.keepAlive. rewrite Hlook. cbn [from_option].
  rewrite Htr. cbn [fst snd negb Background.storage]. split; reflexivity.
Qed.

Lemma access_code_get_or_create_witness :
  snd (Background.keepAlive Sample.later (fst (Background.keepAlive Sample.host Sample.fresh)))
    = snd (Background.keepAlive Sample.host Sample.fresh).
Proof.
  assert (Hr : unit_interval (Background.Math_random Sample.host)).
  { unfold unit_interval. cbn. lia. }
  destruct (access_code_get_or_create Sample.host Sample.later Sample.fresh Hr)
    as (_ & _ & _ & _ & H & _).
  exact H.
Defined.

(** The rounding written out in [Double] agrees with the IEEE operations
    of the standard library's [SpecFloat] on the largest value below 1. *)
Example round_agrees_with_SpecFloat :
  let r := {| mant := 2 ^ 53 - 1; expo := -53 |} in
  let sum := add (of_int 100000) (mul r (of_int 900000)) in
  SpecFloat.SFadd 53 1024
    (SpecFloat.binary_normalize 53 1024 100000 0 false)
    (SpecFloat.SFmul 53 1024
       (SpecFloat.binary_normalize 53 1024 (mant r) (expo r) false)
       (SpecFloat.binary_normalize 53 1024 900000 0 false))
  = SpecFloat.S754_finite false (Z.to_pos (mant sum)) (expo sum)
  /\ Ws.generateAccessCode r = "999999".
Proof. vm_compute. split; reflexivity. Qed.

End AccessCode.

(** ** The codec *)

Section Codec.
Import JSON.

Ltac head_tests :=
  repeat match goal with
         | |- context [code ?c =? ?k] =>
             replace (code c =? k) with false by (symmetry; apply Z.eqb_neq; lia)
         end.

Lemma parse_chars_quote_char c t :
  parse_chars (quote_char c +:+ t)
  = match parse_chars t with
    | Some (s, r) => Some (String c s, r)
    | None => None
    end.
Proof.
  destruct c as [[] [] [] [] [] [] [] []]; reflexivity.
Qed.

Lemma parse_chars_quote s rest :
  parse_chars (quote_chars s +:+ String dquote rest) = Some (s, rest).
Proof.
  induction s as [| c s IH]; [reflexivity |].
  cbn [quote_chars]. rewrite append_assoc, parse_chars_quote_char, IH. reflexivity.
Qed.

Lemma length_append a b : String.length (a +:+ b) = (String.length a + String.length b)%nat.
Proof. induction a as [| x a IH]; simpl; [reflexivity | rewrite IH; reflexivity]. Qed.

Lemma code_digit_char k : 0 <= k <= 9 -> code (digit_char k) = 48 + k.
Proof.
  intros H.
  assert (Hk : k = 0 \/ k = 1 \/ k = 2 \/ k = 3 \/ k = 4 \/ k = 5 \/ k = 6
               \/ k = 7 \/ k = 8 \/ k = 9) by lia.
  repeat (destruct Hk as [-> | Hk]; [reflexivity |]). subst k. reflexivity.
Qed.

Lemma parse_digits_digit k rest a l :
  0 <= k <= 9 ->
  parse_digits (String (digit_char k) rest) a l = parse_digits rest (a * 10 + k) (l + 1).
Proof.
  intros H. cbn [parse_digits]. unfold is_digit. rewrite (code_digit_char k H).
  replace (48 <=? 48 + k) with true by (symmetry; apply Z.leb_le; lia).
  replace (48 + k <=? 57) with true by (symmetry; apply Z.leb_le; lia).
  cbn [andb]. f_equal. lia.
Qed.

Lemma digits_aux_spec fuel :
  forall n acc, 0 <= n < 2 ^ Z.of_nat fuel -> (1 <= fuel)%nat ->
  exists c ds,
    digits_aux fuel n acc = String c ds +:+ acc /\
    is_digit c = true /\
    (code c = 48 -> n = 0) /\
    (n < 10 -> ds = "") /\
    forall rest a l,
      parse_digits (String c ds +:+ rest) a l
      = parse_digits rest (a * 10 ^ Z.of_nat (String.length (String c ds)) + n)
          (l + Z.of_nat (String.length (String c ds))).
Proof.
  induction fuel as [| f IH]; intros n acc Hn Hf; [lia |].
  cbn [digits_aux]. destruct (Z.ltb_spec n 10) as [Hlt | Hge].
  - rewrite Z.mod_small by lia.
    exists (digit_char n), "". split; [reflexivity |].
    split; [unfold is_digit; rewrite code_digit_char by lia;
            apply andb_true_iff; split; apply Z.leb_le; lia |].
    split; [rewrite code_digit_char by lia; lia |].
    split; [reflexivity |].
    intros rest a l. simpl String.append. rewrite parse_digits_digit by lia.
    reflexivity.
  - assert (Hf' : (1 <= f)%nat).
    { destruct f; [| lia]. change (2 ^ Z.of_nat 1) with 2 in Hn. lia. }
    assert (Hn' : 0 <= n / 10 < 2 ^ Z.of_nat f).
    { rewrite Nat2Z.inj_succ, Z.pow_succ_r in Hn by lia.
      Z.to_euclidean_division_equations. lia. }
    destruct (IH (n / 10) (String (digit_char (n mod 10)) acc) Hn' Hf')
      as (c & ds & Heq & Hc & Hz & _ & Hp).
    exists c, (ds +:+ String (digit_char (n mod 10)) "").
    split; [rewrite Heq; simpl String.append; rewrite append_assoc; reflexivity |].
    split; [exact Hc |].
    split; [intros H48; specialize (Hz H48); Z.to_euclidean_division_equations; lia |].
    split; [lia |].
    intros rest a l.
    replace (String c (ds +:+ String (digit_char (n mod 10)) "") +:+ rest)
      with (String c ds +:+ String (digit_char (n mod 10)) rest)
      by (simpl String.append; rewrite append_assoc; reflexivity).
    rewrite Hp, parse_digits_digit by (Z.to_euclidean_division_equations; lia).
    cbn [String.length]. rewrite length_append. cbn [String.length].
    replace (S (String.length ds + 1)) with (S (S (String.length ds))) by lia.
    rewrite (Nat2Z.inj_succ (S _)), Z.pow_succ_r by lia.
    f_equal; [| lia].
    pose proof (Z.div_mod n 10 ltac:(lia)). lia.
Qed.

Lemma digits_spec n :
  0 <= n ->
  exists c ds,
    digits n = String c ds /\
    is_digit c = true /\
    (code c = 48 -> n = 0) /\
    (n < 10 -> ds = "") /\
    forall rest a l,
      parse_digits (String c ds +:+ rest) a l
      = parse_digits rest (a * 10 ^ Z.of_nat (String.length (String c ds)) + n)
          (l + Z.of_nat (String.length (String c ds))).
Proof.
  intros Hn. unfold digits.
  destruct (digits_aux_spec (S (Z.to_nat (Z.log2 n))) n "") as (c & ds & H & Hrest).
  - split; [lia |]. rewrite Nat2Z.inj_succ, Z2Nat.id by apply Z.log2_nonneg.
    destruct (Z.eq_dec n 0) as [-> | Hne]; [reflexivity |].
    apply Z.log2_spec. lia.
  - lia.
  - exists c, ds. rewrite H, append_nil_r. split; [reflexivity | exact Hrest].
Qed.

Lemma delimited_head rest :
  delimited rest = true ->
  rest = "" \/ exists c t, rest = String c t /\ (code c = 44 \/ code c = 93 \/ code c = 125).
Proof.
  destruct rest as [| c t]; [left; reflexivity |]. cbn [delimited]. intros H. right.
  exists c, t. split; [reflexivity |].
  apply orb_true_iff in H as [H | H]; [apply orb_true_iff in H as [H | H] |];
    apply Z.eqb_eq in H; auto.
Qed.

Lemma parse_digits_stop rest a l :
  delimited rest = true -> parse_digits rest a l = (a, l, rest).
Proof.
  intros H. destruct (delimited_head rest H) as [-> | (c & t & -> & Hc)]; [reflexivity |].
  cbn [parse_digits]. unfold is_digit.
  replace ((48 <=? code c) && (code c <=? 57)) with false; [reflexivity |].
  symmetry. apply andb_false_iff.
  destruct (Z.leb_spec 48 (code c)); [| left; reflexivity].
  right. apply Z.leb_gt. lia.
Qed.

Lemma parse_unsigned_digits neg n rest :
  0 <= n -> delimited rest = true ->
  parse_unsigned neg (digits n +:+ rest) = Some (make_number neg n 0, rest).
Proof.
  intros Hn Hd. destruct (digits_spec n Hn) as (c & ds & -> & Hc & Hz & Hs & Hp).
  unfold parse_unsigned.
  rewrite Hp, parse_digits_stop by exact Hd.
  simpl String.append. cbn [starts_with_digit]. rewrite Hc. cbn [negb].
  rewrite Z.mul_0_l, Z.add_0_l, Z.add_0_l.
  assert (Hlz : (code c =? 48) && (1 <? Z.of_nat (String.length (String c ds))) = false).
  { destruct (Z.eqb_spec (code c) 48) as [H48 | H48]; cbn [andb]; [| reflexivity].
    rewrite (Hs ltac:(specialize (Hz H48); lia)). reflexivity. }
  rewrite Hlz.
  destruct (delimited_head rest Hd) as [-> | (x & t & -> & Hx)]; [reflexivity |].
  replace (code x =? 46) with false by (symmetry; apply Z.eqb_neq; lia).
  replace (code x =? 101) with false by (symmetry; apply Z.eqb_neq; lia).
  replace (code x =? 69) with false by (symmetry; apply Z.eqb_neq; lia).
  reflexivity.
Qed.

Lemma make_number_int neg n :
  0 <= n -> make_number neg n 0 = Fin (if neg then - n else n) 0 \/ n = 0.
Proof.
  intros Hn. unfold make_number. destruct (Z.eqb_spec n 0); [right; assumption | left].
  change (0 <=? 0) with true. cbv iota. rewrite Z.pow_0_r, Z.mul_1_r. reflexivity.
Qed.

Lemma parse_number_int z rest :
  delimited rest = true ->
  parse_number (int_to_string z +:+ rest) = Some (Fin z 0, rest).
Proof.
  intros Hd. unfold int_to_string. destruct (Z.ltb_spec z 0) as [Hneg | Hpos].
  - simpl String.append. unfold parse_number. change (code "-" =? 45) with true. cbv iota.
    rewrite parse_unsigned_digits by (auto; lia).
    destruct (make_number_int true (- z) ltac:(lia)) as [-> | H0]; [| lia].
    rewrite Z.opp_involutive. reflexivity.
  - destruct (digits_spec z Hpos) as (c & ds & Heq & Hc & _).
    pose proof (parse_unsigned_digits false z rest Hpos Hd) as Hu.
    unfold parse_number. rewrite Heq in *. simpl String.append in *. cbv beta iota.
    replace (code c =? 45) with false.
    2:{ symmetry. apply Z.eqb_neq. unfold is_digit in Hc.
        apply andb_true_iff in Hc as [H1 H2]. apply Z.leb_le in H1. lia. }
    rewrite Hu.
    destruct (make_number_int false z Hpos) as [-> | ->]; reflexivity.
Qed.

Lemma digits_aux_size fuel :
  forall n acc, 0 <= n < 2 ^ Z.of_nat fuel -> (1 <= fuel)%nat ->
  exists ds, digits_aux fuel n acc = ds +:+ acc /\
             (1 <= String.length ds)%nat /\
             10 ^ (Z.of_nat (String.length ds) - 1) <= Z.max n 1.
Proof.
  induction fuel as [| f IH]; intros n acc Hn Hf; [lia |].
  cbn [digits_aux]. destruct (Z.ltb_spec n 10) as [Hlt | Hge].
  - exists (String (digit_char (n mod 10)) ""). split; [reflexivity |].
    cbn [String.length]. split; [lia |]. change (10 ^ (Z.of_nat 1 - 1)) with 1. lia.
  - assert (Hf' : (1 <= f)%nat).
    { destruct f; [| lia]. change (2 ^ Z.of_nat 1) with 2 in Hn. lia. }
    assert (Hn' : 0 <= n / 10 < 2 ^ Z.of_nat f).
    { rewrite Nat2Z.inj_succ, Z.pow_succ_r in Hn by lia.
      Z.to_euclidean_division_equations. lia. }
    destruct (IH (n / 10) (String (digit_char (n mod 10)) acc) Hn' Hf')
      as (ds & Heq & Hlen & Hsize).
    exists (ds +:+ String (digit_char (n mod 10)) "").
    split; [rewrite Heq, append_assoc; reflexivity |].
    rewrite length_append. cbn [String.length]. split; [lia |].
    replace (Z.of_nat (String.length ds + 1) - 1)
      with (Z.succ (Z.of_nat (String.length ds) - 1)) by lia.
    rewrite Z.pow_succ_r by lia. Z.to_euclidean_division_equations. lia.
Qed.

Lemma digits_size n k :
  0 <= n < 10 ^ k -> 1 <= k ->
  (1 <= String.length (digits n))%nat /\ Z.of_nat (String.length (digits n)) <= k.
Proof.
  intros Hn Hk. unfold digits.
  destruct (digits_aux_size (S (Z.to_nat (Z.log2 n))) n "") as (ds & -> & Hlen & Hsize).
  - split; [lia |]. rewrite Nat2Z.inj_succ, Z2Nat.id by apply Z.log2_nonneg.
    destruct (Z.eq_dec n 0) as [-> | Hne]; [reflexivity |].
    apply Z.log2_spec. lia.
  - lia.
  - rewrite append_nil_r. split; [exact Hlen |].
    destruct (Z_le_gt_dec (Z.of_nat (String.length ds)) k) as [| Hgt]; [assumption |].
    exfalso.
    assert (10 ^ k <= 10 ^ (Z.of_nat (String.length ds) - 1))
      by (apply Z.pow_le_mono_r; lia).
    assert (10 ^ 1 <= 10 ^ k) by (apply Z.pow_le_mono_r; lia).
    change (10 ^ 1) with 10 in *. lia.
Qed.

Lemma parse_digits_zeros j : forall s a l,
  parse_digits (zeros j +:+ s) a l
  = parse_digits s (a * 10 ^ Z.of_nat j) (l + Z.of_nat j).
Proof.
  induction j as [| j IH]; intros s a l.
  - cbn [zeros]. simpl String.append. f_equal; lia.
  - cbn [zeros]. simpl String.append. cbn [parse_digits].
    change (is_digit "0") with true. cbv iota. rewrite IH.
    rewrite Nat2Z.inj_succ, Z.pow_succ_r by lia. change (code "0" - 48) with 0.
    f_equal; lia.
Qed.

Lemma starts_with_digit_digits n rest :
  0 <= n -> starts_with_digit (digits n +:+ rest) = true.
Proof.
  intros Hn. destruct (digits_spec n Hn) as (c & ds & -> & Hc & _).
  simpl String.append. exact Hc.
Qed.

(** The fraction digits: [fp] written with exactly [k] digits. *)
Lemma fraction_digits fp k rest a :
  0 <= fp < 10 ^ k -> 1 <= k ->
  starts_with_digit (pad_left (Z.to_nat k) (digits fp) +:+ rest) = true /\
  (delimited rest = true ->
   parse_digits (pad_left (Z.to_nat k) (digits fp) +:+ rest) a 0
   = (a * 10 ^ k + fp, k, rest)).
Proof.
  intros Hfp Hk. destruct (digits_size fp k Hfp Hk) as [Hlen1 Hlen].
  unfold pad_left. set (j := (Z.to_nat k - String.length (digits fp))%nat).
  split.
  - destruct j as [| j]; cbn [zeros]; simpl String.append.
    + apply starts_with_digit_digits; lia.
    + reflexivity.
  - intros Hd. rewrite append_assoc, parse_digits_zeros.
    destruct (digits_spec fp ltac:(lia)) as (c & ds & Heq & _ & _ & _ & Hp).
    subst j. rewrite Heq in *. rewrite Hp, parse_digits_stop by exact Hd.
    set (j := (Z.to_nat k - String.length (String c ds))%nat) in *.
    assert (Hj : Z.of_nat j + Z.of_nat (String.length (String c ds)) = k) by lia.
    rewrite <- Z.mul_assoc, <- Z.pow_add_r by lia. rewrite Hj.
    replace (0 + Z.of_nat j + Z.of_nat (String.length (String c ds))) with k by lia.
    reflexivity.
Qed.

Lemma parse_unsigned_decimal neg ip fp k rest :
  0 <= ip -> 0 <= fp < 10 ^ k -> 1 <= k -> delimited rest = true ->
  parse_unsigned neg
    (digits ip +:+ "." +:+ pad_left (Z.to_nat k) (digits fp) +:+ rest)
  = Some (make_number neg (ip * 10 ^ k + fp) (0 - k), rest).
Proof.
  intros Hip Hfp Hk Hd.
  destruct (fraction_digits fp k rest ip Hfp Hk) as [Hstart Hfrac].
  specialize (Hfrac Hd).
  destruct (digits_spec ip Hip) as (c & ds & -> & Hc & Hz & Hs & Hp).
  set (F := pad_left (Z.to_nat k) (digits fp) +:+ rest) in *.
  unfold parse_unsigned.
  change ("." +:+ F) with (String "." F).
  rewrite Hp. cbn [parse_digits]. change (is_digit ".") with false. cbv iota.
  simpl String.append. cbn [starts_with_digit]. rewrite Hc. cbn [negb].
  rewrite Z.mul_0_l, Z.add_0_l, Z.add_0_l.
  assert (Hlz : (code c =? 48) && (1 <? Z.of_nat (String.length (String c ds))) = false).
  { destruct (Z.eqb_spec (code c) 48) as [H48 | H48]; cbn [andb]; [| reflexivity].
    rewrite (Hs ltac:(specialize (Hz H48); lia)). reflexivity. }
  rewrite Hlz. change (code "." =? 46) with true. cbv iota.
  rewrite Hstart, Hfrac.
  destruct (delimited_head rest Hd) as [-> | (x & t & -> & Hx)]; [reflexivity |].
  replace (code x =? 101) with false by (symmetry; apply Z.eqb_neq; lia).
  replace (code x =? 69) with false by (symmetry; apply Z.eqb_neq; lia).
  reflexivity.
Qed.

Lemma make_number_decimal m k :
  1 <= k -> m mod 10 <> 0 ->
  make_number (m <? 0) (Z.abs m) (0 - k) = Fin m (- k).
Proof.
  intros Hk Hm. unfold make_number.
  assert (Hm0 : m <> 0) by (intros ->; apply Hm; reflexivity).
  destruct (Z.eqb_spec (Z.abs m) 0); [lia |].
  destruct (Z.leb_spec 0 (0 - k)); [lia |].
  assert (Hm' : (if m <? 0 then - Z.abs m else Z.abs m) = m)
    by (destruct (Z.ltb_spec m 0); lia).
  rewrite Hm'.
  destruct (Z.to_nat (- (0 - k))) as [| f] eqn:Hf; [lia |].
  cbn [strip_zeros].
  destruct (Z.ltb_spec (0 - k) 0); [| lia].
  destruct (Z.eqb_spec (m mod 10) 0); [contradiction |].
  cbn [andb]. f_equal; lia.
Qed.

Lemma parse_number_text m e rest :
  canonical m e -> delimited rest = true ->
  parse_number (number_to_string (Fin m e) +:+ rest) = Some (Fin m e, rest).
Proof.
  intros [-> | [He Hm]] Hd.
  - unfold number_to_string. change (0 <=? 0) with true. cbv iota.
    rewrite Z.pow_0_r, Z.mul_1_r. apply parse_number_int, Hd.
  - unfold number_to_string. destruct (Z.leb_spec 0 e); [lia |].
    pose proof (Z.pow_pos_nonneg 10 (- e) ltac:(lia) ltac:(lia)) as Hpow.
    pose proof (Z.div_mod (Z.abs m) (10 ^ (- e)) ltac:(lia)) as Hdm.
    pose proof (Z.mod_pos_bound (Z.abs m) (10 ^ (- e)) Hpow) as Hfp.
    assert (Hip : 0 <= Z.abs m / 10 ^ (- e)) by (apply Z.div_pos; lia).
    pose proof (parse_unsigned_decimal (m <? 0) (Z.abs m / 10 ^ (- e))
                  (Z.abs m mod 10 ^ (- e)) (- e) rest Hip Hfp ltac:(lia) Hd) as Hu.
    replace (Z.abs m / 10 ^ (- e) * 10 ^ (- e) + Z.abs m mod 10 ^ (- e))
      with (Z.abs m) in Hu by lia.
    rewrite make_number_decimal in Hu by (lia || assumption).
    rewrite Z.opp_involutive in Hu.
    destruct (m <? 0) eqn:Hlt.
    + rewrite !append_assoc. simpl String.append. unfold parse_number.
      change (code "-" =? 45) with true. cbv iota. exact Hu.
    + rewrite !append_assoc. simpl String.append.
      destruct (digits_spec (Z.abs m / 10 ^ (- e)) Hip) as (c & ds & Heq & Hc & _).
      unfold parse_number. rewrite Heq in *. simpl String.append in *. cbv beta iota.
      replace (code c =? 45) with false.
      2:{ symmetry. apply Z.eqb_neq. unfold is_digit in Hc.
          apply andb_true_iff in Hc as [H1 H2]. apply Z.leb_le in H1. lia. }
      exact Hu.
Qed.


Lemma parse_value_S f s :
  parse_value (S f) s
  = match skip_ws s with
    | EmptyString => None
    | String c rest =>
        if code c =? 123 then
          match skip_ws rest with
          | String c' rest' =>
              if code c' =? 125 then Some (VObj [], rest')
              else
                match parse_members f (skip_ws rest) with
                | Some (ms, r) => Some (make_object ms, r)
                | None => None
                end
          | EmptyString => None
          end
        else if code c =? 91 then
          match skip_ws rest with
          | String c' rest' =>
              if code c' =? 93 then Some (VArr [], rest')
              else
                match parse_elements f rest with
                | Some (xs, r) => Some (VArr xs, r)
                | None => None
                end
          | EmptyString => None
          end
        else if code c =? 34 then
          match parse_chars rest with
          | Some (t, r) => Some (VStr t, r)
          | None => None
          end
        else if code c =? 116 then
          match expect "rue" rest with
          | Some r => Some (VBool true, r)
          | None => None
          end
        else if code c =? 102 then
          match expect "alse" rest with
          | Some r => Some (VBool false, r)
          | None => None
          end
        else if code c =? 110 then
          match expect "ull" rest with
          | Some r => Some (VNull, r)
          | None => None
          end
        else
          match parse_number (String c rest) with
          | Some (n, r) => Some (VNum n, r)
          | None => None
          end
    end.
Proof. reflexivity. Qed.

Lemma parse_elements_S f s :
  parse_elements (S f) s
  = match parse_value f s with
    | Some (x, r) =>
        match skip_ws r with
        | String c rest =>
            if code c =? 44 then
              match parse_elements f rest with
              | Some (xs, r') => Some (x :: xs, r')
              | None => None
              end
            else if code c =? 93 then Some ([x], rest)
            else None
        | EmptyString => None
        end
    | None => None
    end.
Proof. reflexivity. Qed.

Lemma parse_members_S f s :
  parse_members (S f) s
  = match s with
    | String q rest =>
        if code q =? 34 then
          match parse_chars rest with
          | Some (k, r) =>
              match skip_ws r with
              | String c r1 =>
                  if code c =? 58 then
                    match parse_value f r1 with
                    | Some (x, r2) =>
                        match skip_ws r2 with
                        | String c' r3 =>
                            if code c' =? 44 then
                              match parse_members f (skip_ws r3) with
                              | Some (ms, r') => Some ((k, x) :: ms, r')
                              | None => None
                              end
                            else if code c' =? 125 then Some ([(k, x)], r3)
                            else None
                        | EmptyString => None
                        end
                    | None => None
                    end
                  else None
              | EmptyString => None
              end
          | None => None
          end
        else None
    | EmptyString => None
    end.
Proof. reflexivity. Qed.

Lemma int_to_string_head z :
  exists c t, int_to_string z = String c t /\ (code c = 45 \/ 48 <= code c <= 57).
Proof.
  unfold int_to_string. destruct (Z.ltb_spec z 0).
  - exists "-"%char, (digits (- z)). split; [reflexivity | left; reflexivity].
  - destruct (digits_spec z) as (c & ds & -> & Hc & _); [assumption |].
    exists c, ds. split; [reflexivity | right].
    unfold is_digit in Hc. apply andb_true_iff in Hc as [H1 H2].
    apply Z.leb_le in H1, H2. lia.
Qed.

Lemma number_to_string_head m e :
  exists c t, number_to_string (Fin m e) = String c t /\ (code c = 45 \/ 48 <= code c <= 57).
Proof.
  unfold number_to_string. destruct (Z.leb_spec 0 e).
  - apply int_to_string_head.
  - destruct (m <? 0).
    + eexists "-"%char, _. split; [reflexivity | left; reflexivity].
    + simpl String.append.
      assert (Hip : 0 <= Z.abs m / 10 ^ (- e)).
      { apply Z.div_pos; [lia |]. apply Z.pow_pos_nonneg; lia. }
      destruct (digits_spec _ Hip) as (c & ds & -> & Hc & _).
      eexists c, _. split; [reflexivity | right].
      unfold is_digit in Hc. apply andb_true_iff in Hc as [H1 H2].
      apply Z.leb_le in H1, H2. lia.
Qed.

Lemma number_head c : code c = 45 \/ 48 <= code c <= 57 -> opens c.
Proof.
  intros H. unfold opens, is_ws. split; [| lia].
  repeat (apply orb_false_iff; split); apply Z.eqb_neq; lia.
Qed.

Lemma clean_num n : clean (VNum n) = true -> exists m e, n = Fin m e /\ canonical m e.
Proof.
  destruct n as [m e | |]; try discriminate. cbn [clean]. intros H.
  exists m, e. split; [reflexivity |]. unfold canonical.
  apply orb_true_iff in H as [H | H]; [left; apply Z.eqb_eq, H | right].
  apply andb_true_iff in H as [H1 H2]. apply Z.ltb_lt in H1.
  apply negb_true_iff, Z.eqb_neq in H2. auto.
Qed.

Lemma render_head v :
  clean v = true -> exists c t, render v = String c t /\ opens c.
Proof.
  destruct v as [| | [] | n | s | ms | items | props]; try discriminate; intros H.
  - eexists _, _. split; [reflexivity |]. repeat split; discriminate.
  - eexists _, _. split; [reflexivity |]. repeat split; discriminate.
  - eexists _, _. split; [reflexivity |]. repeat split; discriminate.
  - destruct (clean_num n H) as (m & e & -> & _). cbn [render].
    destruct (number_to_string_head m e) as (c & t & -> & Hc).
    exists c, t. split; [reflexivity | apply number_head, Hc].
  - eexists _, _. split; [reflexivity |]. repeat split; discriminate.
  - eexists _, _. split; [reflexivity |]. repeat split; discriminate.
  - eexists _, _. split; [reflexivity |]. repeat split; discriminate.
Qed.

Lemma skip_ws_opens c t : is_ws c = false -> skip_ws (String c t) = String c t.
Proof. intros H. cbn [skip_ws]. rewrite H. reflexivity. Qed.

Lemma parse_elements_render items :
  items <> [] ->
  Forall (fun x => clean x = true -> parses x) items ->
  forallb clean items = true ->
  forall fuel rest,
    (list_sum (map (fun x => S (weight x)) items) <= fuel)%nat ->
    parse_elements fuel (join "," (map render items) +:+ String "]" rest)
      = Some (items, rest).
Proof.
  induction items as [| x xs IH]; [congruence |].
  intros _ HF Hc fuel rest Hfuel.
  apply Forall_cons in HF as [Hx HF]. cbn [forallb] in Hc.
  apply andb_true_iff in Hc as [Hcx Hc]. specialize (Hx Hcx).
  cbn [map list_sum fold_right] in Hfuel. destruct fuel as [| f]; [lia |].
  rewrite parse_elements_S. destruct xs as [| y ys].
  - cbn [map join]. cbn [map list_sum fold_right] in Hfuel.
    rewrite Hx; [reflexivity | lia | reflexivity].
  - change (join "," (map render (x :: y :: ys)))
      with (render x +:+ "," +:+ join "," (map render (y :: ys))).
    rewrite !append_assoc. rewrite Hx; [| lia | reflexivity].
    change ("," +:+ join "," (map render (y :: ys)) +:+ String "]" rest)
      with (String "," (join "," (map render (y :: ys)) +:+ String "]" rest)).
    cbn [skip_ws]. change (is_ws ",") with false. cbv iota.
    change (code "," =? 44) with true. cbv iota.
    rewrite IH; [reflexivity | congruence | exact HF | exact Hc |].
    cbn [map list_sum fold_right] in *. lia.
Qed.

Lemma member_text_eq k v tail :
  member_text (k, v) +:+ tail
  = String dquote (quote_chars k +:+ String dquote (String ":" (render v +:+ tail))).
Proof.
  unfold member_text, quote. cbn [fst snd]. simpl String.append.
  rewrite !append_assoc. reflexivity.
Qed.

Lemma parse_members_render props :
  props <> [] ->
  Forall (fun kv => clean (snd kv) = true -> parses (snd kv)) props ->
  forallb (fun kv => clean (snd kv)) props = true ->
  forall fuel rest,
    (list_sum (map (fun kv => S (weight (snd kv))) props) <= fuel)%nat ->
    parse_members fuel (join "," (map member_text props) +:+ String "}" rest)
      = Some (props, rest).
Proof.
  induction props as [| [k x] xs IH]; [congruence |].
  intros _ HF Hc fuel rest Hfuel.
  apply Forall_cons in HF as [Hx HF]. cbn [forallb snd] in Hc, Hx.
  apply andb_true_iff in Hc as [Hcx Hc]. specialize (Hx Hcx).
  cbn [map list_sum fold_right snd] in Hfuel. destruct fuel as [| f]; [lia |].
  rewrite parse_members_S. destruct xs as [| y ys].
  - cbn [map join]. rewrite member_text_eq.
    change (code dquote =? 34) with true. cbv iota.
    rewrite parse_chars_quote. cbn [skip_ws]. change (is_ws ":") with false. cbv iota.
    change (code ":" =? 58) with true. cbv iota.
    cbn [map list_sum fold_right] in Hfuel.
    rewrite Hx; [reflexivity | lia | reflexivity].
  - change (join "," (map member_text ((k, x) :: y :: ys)))
      with (member_text (k, x) +:+ "," +:+ join "," (map member_text (y :: ys))).
    rewrite !append_assoc, member_text_eq.
    change (code dquote =? 34) with true. cbv iota.
    rewrite parse_chars_quote. cbn [skip_ws]. change (is_ws ":") with false. cbv iota.
    change (code ":" =? 58) with true. cbv iota.
    rewrite Hx; [| lia | reflexivity].
    change ("," +:+ join "," (map member_text (y :: ys)) +:+ String "}" rest)
      with (String "," (join "," (map member_text (y :: ys)) +:+ String "}" rest)).
    cbn [skip_ws]. change (is_ws ",") with false. cbv iota.
    change (code "," =? 44) with true. cbv iota.
    destruct y as [k' y]. cbn [map join].
    assert (Hskip : forall tail,
               skip_ws (join "," (member_text (k', y) :: map member_text ys) +:+ tail)
               = join "," (member_text (k', y) :: map member_text ys) +:+ tail).
    { intros tail. destruct ys as [| z zs]; cbn [map join];
        rewrite ?append_assoc, member_text_eq; reflexivity. }
    rewrite Hskip.
    change (member_text (k', y) :: map member_text ys)
      with (map member_text ((k', y) :: ys)).
    rewrite IH; [reflexivity | congruence | exact HF | exact Hc |].
    cbn [map list_sum fold_right] in *. lia.
Qed.

Lemma distinct_spec keys : distinct keys = true -> NoDup keys.
Proof.
  induction keys as [| k rest IH]; [constructor |].
  cbn [distinct]. intros H. apply andb_true_iff in H as [Hk Hr].
  constructor; [| apply IH, Hr].
  intros Hin. apply negb_true_iff in Hk.
  assert (existsb (String.eqb k) rest = true); [| congruence].
  apply existsb_exists. exists k. split; [apply list_elem_of_In, Hin | apply String.eqb_refl].
Qed.

Lemma obj_set_fresh k v acc :
  k ∉ map fst acc -> obj_set k v acc = (acc ++ [(k, v)])%list.
Proof.
  induction acc as [| [k' v'] acc IH]; [reflexivity |].
  cbn [map fst]. intros H. apply not_elem_of_cons in H as [Hne H].
  cbn [obj_set]. destruct (String.eqb_spec k k'); [congruence |].
  rewrite IH by exact H. reflexivity.
Qed.

Lemma fold_obj_set props : forall acc,
  NoDup (map fst (acc ++ props)%list) ->
  fold_left (fun a kv => obj_set (fst kv) (snd kv) a) props acc = (acc ++ props)%list.
Proof.
  induction props as [| [k v] props IH]; intros acc H.
  - rewrite app_nil_r. reflexivity.
  - cbn [fold_left fst snd]. rewrite obj_set_fresh.
    + rewrite IH; rewrite <- app_assoc; [reflexivity | exact H].
    + rewrite map_app in H. apply NoDup_app in H as (_ & H & _).
      intros Hin. apply (H k Hin). cbn [map fst]. apply elem_of_cons. left. reflexivity.
Qed.

Lemma make_object_distinct props :
  distinct (map fst props) = true -> make_object props = VObj props.
Proof.
  intros H. unfold make_object. rewrite fold_obj_set; [reflexivity |].
  apply distinct_spec, H.
Qed.

Lemma parse_value_render v : clean v = true -> parses v.
Proof.
  induction v as [| | b | n | s | ms | items IH | props IH] using value_ind;
    try discriminate; intros Hc fuel rest Hfuel Hd;
    (destruct fuel as [| f]; [cbn [weight] in Hfuel; lia |]).
  - reflexivity.
  - destruct b; reflexivity.
  - destruct (clean_num n Hc) as (m & e & -> & Hcan). cbn [render].
    pose proof (parse_number_text m e rest Hcan Hd) as Hn.
    destruct (number_to_string_head m e) as (c & t & Heq & Hh).
    rewrite Heq in *. simpl String.append in *.
    destruct (number_head c Hh) as (Hws & _).
    rewrite parse_value_S. rewrite (skip_ws_opens c _ Hws).
    head_tests. rewrite Hn. reflexivity.
  - rewrite parse_value_S. cbn [render]. unfold quote. simpl String.append.
    rewrite append_assoc. simpl String.append.
    rewrite skip_ws_opens by reflexivity.
    change (code dquote =? 123) with false. change (code dquote =? 91) with false.
    change (code dquote =? 34) with true. cbv iota.
    rewrite parse_chars_quote. reflexivity.
  - cbn [clean] in Hc. cbn [weight] in Hfuel.
    destruct items as [| x xs]; [reflexivity |].
    cbn [render]. set (E := join "," (map render (x :: xs))).
    assert (Hhead : exists c t, E +:+ String "]" rest = String c t /\ opens c).
    { assert (Hcx : clean x = true)
        by (cbn [forallb] in Hc; apply andb_true_iff in Hc as [? _]; assumption).
      destruct (render_head x Hcx) as (c & t & Heq & Ho). subst E.
      destruct xs as [| y ys]; cbn [map join]; rewrite Heq; simpl String.append; eauto. }
    destruct Hhead as (c & t & Heq & (Hws & H93 & _)).
    pose proof (parse_elements_render (x :: xs) ltac:(congruence) IH Hc f rest
                  ltac:(lia)) as He.
    fold E in He. rewrite parse_value_S.
    change (("[" +:+ E +:+ "]") +:+ rest) with (String "[" ((E +:+ "]") +:+ rest)).
    rewrite append_assoc. change ("]" +:+ rest) with (String "]" rest).
    rewrite skip_ws_opens by reflexivity.
    change (code "[" =? 123) with false. change (code "[" =? 91) with true. cbv iota.
    rewrite He. rewrite Heq. rewrite skip_ws_opens by exact Hws.
    replace (code c =? 93) with false by (symmetry; apply Z.eqb_neq; exact H93).
    reflexivity.
  - cbn [clean] in Hc. apply andb_true_iff in Hc as [Hc Hdist]. cbn [weight] in Hfuel.
    destruct props as [| kv xs]; [reflexivity |].
    cbn [render].
    change (fun kv0 : string * value => quote (fst kv0) +:+ ":" +:+ render (snd kv0))
      with member_text.
    set (E := join "," (map member_text (kv :: xs))).
    assert (Hhead : exists t, E +:+ String "}" rest = String dquote t).
    { subst E. destruct kv as [k x]. destruct xs as [| y ys]; cbn [map join];
        rewrite ?append_assoc, member_text_eq; eauto. }
    destruct Hhead as (t & Heq).
    pose proof (parse_members_render (kv :: xs) ltac:(congruence) IH Hc f rest
                  ltac:(lia)) as He.
    fold E in He. rewrite parse_value_S.
    change (("{" +:+ E +:+ "}") +:+ rest) with (String "{" ((E +:+ "}") +:+ rest)).
    rewrite append_assoc. change ("}" +:+ rest) with (String "}" rest).
    rewrite skip_ws_opens by reflexivity.
    change (code "{" =? 123) with true. cbv iota.
    rewrite Heq in *. rewrite !skip_ws_opens by reflexivity.
    change (code dquote =? 125) with false. cbv iota.
    rewrite He, make_object_distinct by exact Hdist. reflexivity.
Qed.

Lemma stringify_render v : clean v = true -> stringify v = Some (render v).
Proof.
  induction v as [| | b | n | s | ms | items IH | props IH] using value_ind;
    try discriminate; intros Hc.
  - reflexivity.
  - destruct b; reflexivity.
  - destruct (clean_num n Hc) as (m & e & -> & _). reflexivity.
  - reflexivity.
  - cbn [clean] in Hc.
    assert (Hm : map (fun x => match stringify x with
                               | Some t => t
                               | None => "null"
                               end) items = map render items).
    { induction items as [| x xs IHxs]; [reflexivity |].
      apply Forall_cons in IH as [Hx IH]. cbn [forallb] in Hc.
      apply andb_true_iff in Hc as [Hcx Hc].
      cbn [map]. rewrite (Hx Hcx), (IHxs IH Hc). reflexivity. }
    cbn [stringify render]. rewrite Hm. reflexivity.
  - cbn [clean] in Hc. apply andb_true_iff in Hc as [Hc _].
    assert (Hm : flat_map (fun kv => match stringify (snd kv) with
                                     | Some t => [quote (fst kv) +:+ ":" +:+ t]
                                     | None => []
                                     end) props = map member_text props).
    { induction props as [| [k x] xs IHxs]; [reflexivity |].
      apply Forall_cons in IH as [Hx IH]. cbn [forallb snd] in Hc, Hx.
      apply andb_true_iff in Hc as [Hcx Hc].
      cbn [flat_map map fst snd]. rewrite (Hx Hcx), (IHxs IH Hc). reflexivity. }
    cbn [stringify render]. rewrite Hm. reflexivity.
Qed.

Lemma join_length (texts : list string) (ws : list nat) :
  Forall2 (fun w t => (w <= String.length t)%nat) ws texts ->
  (list_sum (map S ws) <= String.length (join "," texts) + 1)%nat.
Proof.
  induction 1 as [| w t ws texts Hw HF IH]; [cbn; lia |].
  cbn [map list_sum fold_right]. fold (list_sum (map S ws)).
  destruct texts as [| t' texts'].
  - inversion HF; subst. cbn [map list_sum fold_right join]. lia.
  - change (join "," (t :: t' :: texts')) with (t +:+ "," +:+ join "," (t' :: texts')).
    rewrite !length_append. cbn [String.length]. lia.
Qed.

Lemma weight_le_length v : clean v = true -> (weight v <= String.length (render v))%nat.
Proof.
  induction v as [| | b | n | s | ms | items IH | props IH] using value_ind;
    try discriminate; intros Hc;
    try (destruct (render_head _ Hc) as (c & t & -> & _); cbn [weight String.length]; lia).
  - cbn [clean] in Hc. cbn [weight render]. rewrite !length_append. cbn [String.length].
    rewrite <- (map_map weight S).
    pose proof (join_length (map render items) (map weight items)) as H.
    assert (HF : Forall2 (fun w t => (w <= String.length t)%nat)
                   (map weight items) (map render items)).
    { clear H. induction items as [| x xs IHxs]; [constructor |].
      apply Forall_cons in IH as [Hx IH]. cbn [forallb] in Hc.
      apply andb_true_iff in Hc as [Hcx Hc]. cbn [map]. constructor; auto. }
    specialize (H HF). lia.
  - cbn [clean] in Hc. apply andb_true_iff in Hc as [Hc _].
    cbn [weight render]. rewrite !length_append. cbn [String.length].
    change (fun kv : string * value => quote (fst kv) +:+ ":" +:+ render (snd kv))
      with member_text.
    rewrite <- (map_map (fun kv => weight (snd kv)) S).
    pose proof (join_length (map member_text props)
                  (map (fun kv => weight (snd kv)) props)) as H.
    assert (HF : Forall2 (fun w t => (w <= String.length t)%nat)
                   (map (fun kv => weight (snd kv)) props) (map member_text props)).
    { clear H. induction props as [| [k x] xs IHxs]; [constructor |].
      apply Forall_cons in IH as [Hx IH]. cbn [forallb snd] in Hc, Hx.
      apply andb_true_iff in Hc as [Hcx Hc]. cbn [map snd]. constructor; auto.
      unfold member_text. cbn [fst snd]. rewrite !length_append. specialize (Hx Hcx). lia. }
    specialize (H HF). lia.
Qed.

Lemma parse_render v : clean v = true -> JSON.parse (render v) = Some v.
Proof.
  intros Hc. unfold JSON.parse.
  pose proof (parse_value_render v Hc (S (String.length (render v))) ""
                ltac:(pose proof (weight_le_length v Hc); lia) eq_refl) as H.
  rewrite append_nil_r in H. rewrite H. reflexivity.
Qed.

Lemma decode_encode v : clean v = true -> JSON.parse (Ws.encode v) = Some v.
Proof.
  intros Hc. unfold Ws.encode. rewrite (stringify_render v Hc). apply parse_render, Hc.
Qed.

(** C1, as stated, fails: the INIT packet that [keepAlive] sends carries
    [lastOnline] as a Date, which is serialised as its ISO string and comes
    back as a string. *)
Lemma init_packet_round_trips_fails : ~ init_packet_round_trips.
Proof.
  intros H. specialize (H Sample.host "123456"). vm_compute in H. discriminate H.
Qed.

(** C1, amended: for every declared packet kind, a packet whose data is
    built only from null, booleans, strings, finite numbers, arrays and
    objects is decoded from its wire text to itself. A Date is not: the
    INIT packet of [keepAlive] comes back with [lastOnline] as the ISO 8601
    string of the date; and a field that is [undefined], like the [error]
    of the COMMAND_RESULT of a successful command, is absent after
    decoding. *)
Theorem codec_round_trip (kind : string) (data code : value)
    (h : Background.host) (b : CommandHandler.Browser) (p : CommandPacket) :
  In kind (declared PacketType) ->
  clean data = true -> clean code = true ->
  JSON.parse (Ws.encode (envelope kind data)) = Some (envelope kind data) /\
  JSON.parse (Ws.encode (Background.init_message h code))
    = Some (envelope "INIT"
              (VObj [ ("accessCode", code);
                      ("userAgent", VStr (Background.userAgent h));
                      ("isOnline", VBool true);
                      ("lastOnline", VStr (toISOString (Background.new_Date h))) ])) /\
  JSON.parse (Ws.encode (command_result b p true data VUndefined))
    = Some (envelope "COMMAND_RESULT"
              (VObj [ ("commandId", VStr (commandId p));
                      ("accessCode", VStr (accessCode p));
                      ("success", VBool true);
                      ("result", data);
                      ("timestamp", VNum (Int (CommandHandler.Date_now b))) ])).
Proof.
  intros _ Hdata Hcode. split; [| split].
  - apply decode_encode. cbn [envelope clean forallb snd map fst]. rewrite Hdata. reflexivity.
  - rewrite <- decode_encode.
    + unfold Ws.encode. f_equal.
    + cbn [envelope clean forallb snd map fst]. rewrite Hcode. reflexivity.
  - rewrite <- decode_encode.
    + unfold Ws.encode. f_equal.
    + cbn [envelope clean forallb snd map fst Int]. rewrite Hdata. reflexivity.
Qed.

Lemma codec_round_trip_witness :
  JSON.parse (Ws.encode (CommandPacket_value
                           (Sample.packet "getText" [("selector", VStr "h1")])))
    = Some (CommandPacket_value (Sample.packet "getText" [("selector", VStr "h1")])).
Proof.
  apply (codec_round_trip "COMMAND"
           (VObj [ ("accessCode", VStr "123456"); ("commandId", VStr "abc");
                   ("command", VStr "getText");
                   ("params", VObj [("selector", VStr "h1")]);
                   ("timestamp", VNum (Int 1793604660000)) ])
           (VStr "123456") Sample.host Sample.browser
           (Sample.packet "getText" [("selector", VStr "h1")])).
  - simpl. tauto.
  - reflexivity.
  - reflexivity.
Defined.

End Codec.
(** * Further properties *)

(** ** Scripts and the active tab *)

Section Scripts.
Import CommandHandler.

Lemma js_literal_broken s : plain s = false -> Page.js_literal (escaped s) = None.
Proof.
  induction s as [| x s IH]; [discriminate |].
  cbn [plain]. intros H. apply andb_false_iff in H as [Hx | Hs].
  - destruct x as [[] [] [] [] [] [] [] []]; try discriminate Hx; reflexivity.
  - specialize (IH Hs). cbn [escaped].
    destruct x as [[] [] [] [] [] [] [] []];
      cbn -[Page.js_literal escaped]; cbn [Page.js_literal]; cbn -[Page.js_literal escaped];
      rewrite ?IH; reflexivity.
Qed.

(** X1: [escapeString] makes a string safe to splice between single
    quotes exactly when the string has no line break: the literal then
    denotes the original string, backslashes and quotes of either kind
    included. A string with a line feed or carriage return is passed on
    with it, and the spliced text is no string literal any more. *)
Theorem escapeString_literal (s : string) :
  exists e, escapeString (VStr s) = Ok e /\
            Page.js_literal e = if plain s then Some s else None.
Proof.
  exists (escaped s). split; [apply escapeString_escaped |].
  destruct (plain s) eqn:H; [apply js_literal_escaped, H | apply js_literal_broken, H].
Qed.


(** The branch of the [switch] that a literal command name selects. *)
Ltac dispatch :=
  match goal with
  | |- context [executeCommand ?b ?c ?ps] =>
      let r := eval cbv beta iota zeta delta
                 [executeCommand is_case member CommandType String.eqb Ascii.eqb Bool.eqb]
               in (executeCommand b c ps) in
      change (executeCommand b c ps) with r
  end.

Ltac each_command H :=
  cbn [In selector_commands supported] in H;
  repeat (destruct H as [<- | H]; [dispatch | ]); [.. | contradiction H].

(** X2: every command that takes a selector needs it to be a string. When
    the parameter is missing or is anything else, the command fails while
    its script is being put together, with the TypeError of the failed
    [str.replace], and nothing is asked of the browser: no tab query, no
    script. *)
Theorem selector_must_be_string (b : Browser) (command : string)
    (ps : list (string * value)) :
  In command selector_commands -> string_param ps "selector" = false ->
  exists m,
    executeCommand b command ps = (Settles (Throw (JsError m)), []) /\
    (lookup_prop "selector" ps = VUndefined ->
       m = "Cannot read properties of undefined (reading 'replace')") /\
    (lookup_prop "selector" ps = VNull ->
       m = "Cannot read properties of null (reading 'replace')").
Proof.
  intros Hc Hs. unfold string_param in Hs.
  each_command Hc;
    (destruct (lookup_prop "selector" ps); try discriminate Hs;
     eexists; (split; [reflexivity |]); split; intros; (reflexivity || discriminate)).
Qed.

Lemma selector_must_be_string_witness :
  exists m,
    executeCommand Sample.browser "click" [("text", VStr "x")]
      = (Settles (Throw (JsError m)), []) /\
    m = "Cannot read properties of undefined (reading 'replace')".
Proof.
  destruct (selector_must_be_string Sample.browser "click" [("text", VStr "x")])
    as (m & H1 & H2 & _).
  - simpl. tauto.
  - reflexivity.
  - exists m. split; [exact H1 | apply H2; reflexivity].
Defined.

Lemma executeScriptInActiveTab_no_tab b s :
  tabs_query b = None \/ tabs_query b = Some [] ->
  executeScriptInActiveTab b s = (Settles (Throw (JsError "No active tab found")), [TabsQuery]).
Proof. intros [H | H]; unfold executeScriptInActiveTab; rewrite H; reflexivity. Qed.

Lemma template_timeout v n :
  printable v = true ->
  template match v with
           | VUndefined => VNum (Int n)
           | _ => v
           end
  = Ok (ToString match v with
                 | VUndefined => VNum (Int n)
                 | _ => v
                 end).
Proof. intros H. unfold template. destruct v; try rewrite H; reflexivity. Qed.

Lemma string_param_spec ps k : string_param ps k = true -> exists s, lookup_prop k ps = VStr s.
Proof. unfold string_param. destruct (lookup_prop k ps); try discriminate. eauto. Qed.

(** X3: without an active tab, every command that works on the current
    page fails with ["No active tab found"] right after the tab query: the
    history commands, [reload], [evaluate], [waitForNavigation], and every
    selector command whose string parameters are there. No script is run and
    no tab is opened. (The [function] and [timeout] that are spliced into a
    script are taken to convert to text.) *)
Theorem no_active_tab (b : Browser) (command : string) (ps : list (string * value)) :
  tabs_query b = None \/ tabs_query b = Some [] ->
  printable (lookup_prop "function" ps) = true ->
  printable (lookup_prop "timeout" ps) = true ->
  In command ["reload"; "back"; "forward"; "evaluate"; "waitForNavigation"] \/
  (In command selector_commands /\
   string_param ps "selector" = true /\
   (command = "type" -> string_param ps "text" = true) /\
   (command = "select" -> string_param ps "value" = true) /\
   (command = "getAttribute" -> string_param ps "attribute" = true)) ->
  executeCommand b command ps = (Settles (Throw (JsError "No active tab found")), [TabsQuery]).
Proof.
  intros Htab Hfunction Htimeout [Hc | (Hc & Hsel & Htext & Hvalue & Hattr)].
  - each_command Hc.
    + unfold reloadPage. destruct Htab as [-> | ->]; reflexivity.
    + apply executeScriptInActiveTab_no_tab, Htab.
    + apply executeScriptInActiveTab_no_tab, Htab.
    + unfold evaluateFunction, evaluate_script, template. rewrite Hfunction. cbn [bind].
      rewrite executeScriptInActiveTab_no_tab by exact Htab. reflexivity.
    + unfold waitForNavigation. destruct Htab as [-> | ->]; reflexivity.
  - destruct (string_param_spec _ _ Hsel) as (s & Es).
    each_command Hc; rewrite Es.
    + unfold clickElement. rewrite escapeString_escaped.
      apply executeScriptInActiveTab_no_tab, Htab.
    + destruct (string_param_spec _ _ (Htext eq_refl)) as (x & ->).
      unfold fillForm. rewrite !escapeString_escaped.
      apply executeScriptInActiveTab_no_tab, Htab.
    + destruct (string_param_spec _ _ (Hvalue eq_refl)) as (x & ->).
      unfold selectOption. rewrite !escapeString_escaped.
      apply executeScriptInActiveTab_no_tab, Htab.
    + unfold hoverElement. rewrite escapeString_escaped.
      apply executeScriptInActiveTab_no_tab, Htab.
    + unfold focusElement. rewrite escapeString_escaped.
      apply executeScriptInActiveTab_no_tab, Htab.
    + unfold extractText. rewrite escapeString_escaped.
      apply executeScriptInActiveTab_no_tab, Htab.
    + unfold extractHtml. rewrite escapeString_escaped.
      apply executeScriptInActiveTab_no_tab, Htab.
    + destruct (string_param_spec _ _ (Hattr eq_refl)) as (x & ->).
      unfold extractAttribute. rewrite !escapeString_escaped.
      apply executeScriptInActiveTab_no_tab, Htab.
    + unfold waitForElement. rewrite escapeString_escaped, template_timeout by exact Htimeout.
      apply executeScriptInActiveTab_no_tab, Htab.
Qed.

Lemma no_active_tab_witness :
  executeCommand Sample.bare "type" [("selector", VStr "#q"); ("text", VStr "rocq")]
    = (Settles (Throw (JsError "No active tab found")), [TabsQuery]).
Proof.
  apply (no_active_tab Sample.bare "type" [("selector", VStr "#q"); ("text", VStr "rocq")]).
  - left. reflexivity.
  - reflexivity.
  - reflexivity.
  - right. split; [simpl; tauto |]. repeat split; intros H; (reflexivity || discriminate H).
Defined.


Lemma listen_no_tab limit evs : listen limit None evs = TimedOut limit.
Proof.
  induction evs as [| [[t c] status] rest IH]; cbn [listen]; [reflexivity |].
  destruct (limit <=? t); [reflexivity | exact IH].
Qed.

(** X4: [goto] with a [url] that is a string or is left out. With an
    active tab it loads the URL there and always answers
    [{ success: true, url }]; the wait before the answer is on the tab that
    the browser reports back, and when it reports none, the wait is on tab
    [undefined], which no event matches: it runs the full 30 seconds.
    Without an active tab it opens a new tab and answers after the wait on
    it; but when the browser reports no tab for it, reading [tab.id] throws
    inside the callback and the command is never answered. With a [url] of
    any other type the tabs call itself throws, inside the callback of
    [tabs.query]: the command is never answered, and nothing but the query
    was asked of the browser. *)
Theorem goto_target_tab (b : Browser) (ps : list (string * value)) :
  let url := lookup_prop "url" ps in
  let run := executeCommand b "goto" ps in
  let done := Ok (VObj [("success", VBool true); ("url", url)]) in
  if url_accepted url then
    match tabs_query b with
    | Some (t0 :: _) =>
        fst run = done /\
        exists how,
          snd run = [ TabsQuery; TabsUpdate (id t0) url;
                      Waited (option_map id (tabs_update b (id t0) url)) how ] /\
          (tabs_update b (id t0) url = None -> how = TimedOut 30000)
    | _ =>
        match tabs_create b url with
        | Some t =>
            fst run = done /\
            exists how, snd run = [TabsQuery; TabsCreate url; Waited (Some (id t)) how]
        | None => run = (Hangs, [TabsQuery; TabsCreate url])
        end
    end
  else run = (Hangs, [TabsQuery]).
Proof.
  intros url run done. subst run done. dispatch. fold url. unfold navigateToUrl.
  destruct (url_accepted url); [| destruct (tabs_query b) as [[| t0 ts] |]; reflexivity].
  destruct (tabs_query b) as [[| t0 ts] |].
  - destruct (tabs_create b url); [| reflexivity].
    split; [reflexivity |]. eexists. reflexivity.
  - split; [reflexivity |]. eexists. split; [reflexivity |].
    intros ->. apply listen_no_tab.
  - destruct (tabs_create b url); [| reflexivity].
    split; [reflexivity |]. eexists. reflexivity.
Qed.

Lemma listen_delivered limit i evs :
  listen limit (Some i) evs
  = match List.find (completes i) (delivered_before limit evs) with
    | Some e => LoadComplete (fst (fst e))
    | None => TimedOut limit
    end.
Proof.
  induction evs as [| [[t c] status] rest IH]; cbn [listen delivered_before]; [reflexivity |].
  cbn [fst snd]. destruct (limit <=? t); [reflexivity |].
  cbn [List.find]. unfold completes at 1. cbn [fst snd].
  destruct ((c =? i) && String.eqb status "complete"); [reflexivity | exact IH].
Qed.

Lemma delivered_before_spec limit evs :
  Forall (fun e => fst (fst e) < limit) (delivered_before limit evs).
Proof.
  induction evs as [| [[t c] status] rest IH]; cbn [delivered_before fst]; [constructor |].
  destruct (Z.leb_spec limit t); constructor; [assumption | exact IH].
Qed.

Lemma bits_small a : 0 <= a < 2 ^ 53 -> Double.bits a <= 53.
Proof.
  intros H. unfold Double.bits. destruct (Z.eqb_spec a 0); [lia |].
  assert (Z.log2 a < 53) by (apply Z.log2_lt_pow2; lia). lia.
Qed.

(** An integer that a double holds exactly is converted without loss. *)
Lemma ToInt32_int n : - 2 ^ 53 < n < 2 ^ 53 -> Numeric.ToInt32 (Int n) = int32 n.
Proof.
  intros H. unfold Numeric.ToInt32, Int, int32. cbn [Z.leb Z.compare].
  change (0 <=? 0) with true. cbv iota. rewrite Z.pow_0_r, Z.mul_1_r.
  unfold Double.round. cbn [Double.mant Double.expo].
  pose proof (bits_small (Z.abs n) ltac:(lia)) as Hb.
  destruct (Z.leb_spec (Z.max (Double.bits (Z.abs n) - 53) (-1074 - 0)) 0); [| lia].
  unfold Double.floor. cbn [Double.mant Double.expo]. change (0 <=? 0) with true. cbv iota.
  rewrite Z.pow_0_r, Z.mul_1_r.
  destruct (Z.ltb_spec n 0); f_equal; f_equal; lia.
Qed.

Lemma to_ms_int n : - 2 ^ 53 < n < 2 ^ 53 -> to_ms (VNum (Int n)) = Ok (Z.max 0 (int32 n)).
Proof.
  intros H. unfold to_ms. cbn [Numeric.ToNumber bind]. rewrite (ToInt32_int n H). reflexivity.
Qed.

Lemma int32_range n : - 2 ^ 31 <= n < 2 ^ 31 -> int32 n = n.
Proof. intros H. unfold int32. rewrite Z.mod_small; lia. Qed.

(** X5: with an active tab, [waitForNavigation] with a whole number of
    milliseconds for its timeout (or none: 30000) never fails. Of the tab
    events, only those delivered before its timer fires count: when one of
    them reports the active tab as ["complete"], the answer is
    [{ success: true }]; otherwise the answer is
    [{ success: true, timedOut: true }], after exactly the delay of the
    timer. That delay is the timeout taken as a 32-bit integer, and 0 when
    this is negative: it is the timeout itself from 0 up to [2^31 - 1], it
    is 0 for a negative timeout down to [-2^31], and also for a timeout from
    [2^31] up to [2^32]. *)
Theorem waitForNavigation_outcome (b : Browser) (ps : list (string * value))
    (t0 : tab) (others : list tab) (n : Z) :
  tabs_query b = Some (t0 :: others) ->
  lookup_prop "timeout" ps = VNum (Int n)
    \/ (lookup_prop "timeout" ps = VUndefined /\ n = 30000) ->
  - 2 ^ 53 < n < 2 ^ 53 ->
  let delay := Z.max 0 (int32 n) in
  let seen := existsb (completes (id t0)) (delivered_before delay (onUpdated b)) in
  let run := executeCommand b "waitForNavigation" ps in
  fst run = Ok (VObj (("success", VBool true)
                        :: (if seen then [] else [("timedOut", VBool true)]))) /\
  (exists how,
     snd run = [TabsQuery; Waited (Some (id t0)) how] /\
     match how with
     | LoadComplete t => seen = true /\ t < delay
     | TimedOut t => seen = false /\ t = delay
     end) /\
  (0 <= n < 2 ^ 31 -> delay = n) /\
  (- 2 ^ 31 <= n < 0 \/ 2 ^ 31 <= n <= 2 ^ 32 -> delay = 0).
Proof.
  intros Htab Htimeout Hn delay seen run. subst run. dispatch. unfold waitForNavigation.
  assert (Hms : to_ms match lookup_prop "timeout" ps with
                      | VUndefined => VNum (Int 30000)
                      | _ => lookup_prop "timeout" ps
                      end = Ok delay).
  { destruct Htimeout as [-> | [-> ->]]; apply to_ms_int; lia. }
  rewrite Htab, Hms. cbn [fst snd]. rewrite listen_delivered.
  pose proof (delivered_before_spec delay (onUpdated b)) as Hb.
  assert (Hrange : (0 <= n < 2 ^ 31 -> delay = n) /\
                   (- 2 ^ 31 <= n < 0 \/ 2 ^ 31 <= n <= 2 ^ 32 -> delay = 0)).
  { subst delay. split.
    - intros H. rewrite int32_range by lia. lia.
    - intros [H | H]; [rewrite int32_range by lia; lia |].
      unfold int32. destruct (Z.eq_dec n (2 ^ 32)) as [-> | Hne]; [reflexivity |].
      replace (n + 2 ^ 31) with (n - 2 ^ 31 + 1 * 2 ^ 32) by lia.
      rewrite Z.mod_add by lia. rewrite Z.mod_small by lia. lia. }
  subst seen.
  destruct (List.find _ _) as [e |] eqn:Hf.
  - apply List.find_some in Hf as [Hin Hc].
    assert (Hs : existsb (completes (id t0))
                   (delivered_before delay (onUpdated b)) = true).
    { apply List.existsb_exists. exists e. split; [exact Hin | exact Hc]. }
    rewrite Hs. split; [reflexivity |]. split; [| exact Hrange].
    eexists. split; [reflexivity |]. split; [reflexivity |].
    rewrite List.Forall_forall in Hb. apply Hb, Hin.
  - assert (Hs : existsb (completes (id t0))
                   (delivered_before delay (onUpdated b)) = false).
    { apply not_true_is_false. intros Hex.
      apply List.existsb_exists in Hex as (e & Hin & Hc).
      pose proof (List.find_none _ _ Hf e Hin) as Hno. congruence. }
    rewrite Hs. split; [reflexivity |]. split; [| exact Hrange].
    eexists. split; [reflexivity |]. split; reflexivity.
Qed.

Lemma waitForNavigation_outcome_witness :
  fst (executeCommand
         {| tabs_query := Some [{| id := 7 |}];
            tabs_create := tabs_create Sample.bare;
            tabs_update := tabs_update Sample.bare;
            executeScript := executeScript Sample.bare;
            onUpdated := [(120, 7, "loading"); (480, 3, "complete"); (900, 7, "complete")];
            Date_now := 0;
            transport := transport Sample.bare |}
         "waitForNavigation" [("timeout", VNum (Int 500))])
    = Ok (VObj [("success", VBool true); ("timedOut", VBool true)]).
Proof.
  apply (waitForNavigation_outcome
           {| tabs_query := Some [{| id := 7 |}];
              tabs_create := tabs_create Sample.bare;
              tabs_update := tabs_update Sample.bare;
              executeScript := executeScript Sample.bare;
              onUpdated := [(120, 7, "loading"); (480, 3, "complete"); (900, 7, "complete")];
              Date_now := 0;
              transport := transport Sample.bare |}
           [("timeout", VNum (Int 500))] {| id := 7 |} [] 500).
  - reflexivity.
  - left. reflexivity.
  - lia.
Defined.

Lemma poll_time_step p k : poll_time p k + 100 <= poll_time p (S k).
Proof. cbn [poll_time]. lia. Qed.

Lemma poll_time_lower p k : 100 * Z.of_nat k <= poll_time p k.
Proof.
  induction k as [| k IH]; [cbn; lia |].
  pose proof (poll_time_step p k). lia.
Qed.

(** Polling finds an element at the first poll that sees it, provided no
    poll before it was past the limit. *)
Lemma checkElement_found p s limit k :
  Page.matches p (poll_time p k) s <> [] ->
  forall d fuel i,
    (i + d = k)%nat ->
    (forall j, (i <= j < k)%nat -> Page.matches p (poll_time p j) s = []) ->
    (forall j, (i <= j < k)%nat -> poll_time p j <= limit) ->
    (d < fuel)%nat ->
    Page.checkElement fuel p s limit (poll_time p i) i
      = Some (Page.Fulfils (VObj [("found", VBool true); ("selector", VStr s)])).
Proof.
  intros Hsome. induction d as [| d IH]; intros fuel i Hk Hnone Hlimit Hfuel;
    (destruct fuel as [| fuel]; [lia |]); cbn [Page.checkElement].
  - replace i with k by lia.
    destruct (Page.matches p (poll_time p k) s); [congruence | reflexivity].
  - rewrite (Hnone i) by lia. cbn [head].
    pose proof (Hlimit i ltac:(lia)) as Hi.
    destruct (Z.ltb_spec limit (poll_time p i)); [lia |].
    change (poll_time p i + 100 + Z.max 0 (Page.lateness p (S i))) with (poll_time p (S i)).
    apply IH; [lia | | | lia]; intros j Hj; [apply Hnone | apply Hlimit]; lia.
Qed.

(** X6: [waitForSelector] polls the page at once and then in timers of
    100 ms, which may fire late. When the selector (valid, without line
    break) first matches at the [k]-th poll, and no poll before it came
    after the timeout, the promise of its script is fulfilled with
    [{ found: true, selector }], the selector as it was sent. The timeout is
    the [timeout] parameter, or 10000 ms when that is left out; an element
    that is there at the first poll is found whatever the timeout, a
    negative one included. The outcome of the command is what the browser
    reports of that promise; where it hands over the value of the promise,
    the command answers with it. *)
Theorem waitForSelector_found (r : reporting) (p : Page.page) (t : tab) (other : Browser)
    (ps : list (string * value)) (s : string) (limit : Z) (k : nat) :
  lookup_prop "selector" ps = VStr s -> plain s = true -> Page.valid p s = true ->
  lookup_prop "timeout" ps = VNum (Int limit)
    \/ (lookup_prop "timeout" ps = VUndefined /\ limit = 10000) ->
  (forall j, (j < k)%nat -> Page.matches p (poll_time p j) s = []) ->
  Page.matches p (poll_time p k) s <> [] ->
  (forall j, (j < k)%nat -> poll_time p j <= limit) ->
  let found := VObj [("found", VBool true); ("selector", VStr s)] in
  fst (executeCommand (hosting r p t other) "waitForSelector" ps)
    = reported (on_promise r (Page.Fulfils found)) /\
  fst (executeCommand (hosting relaying p t other) "waitForSelector" ps) = Ok found.
Proof.
  intros Hsel Hplain Hvalid Htimeout Hnone Hsome Hlimit found.
  assert (Hrun : forall r', fst (executeCommand (hosting r' p t other) "waitForSelector" ps)
                            = reported (on_promise r' (Page.Fulfils found))).
  { intros r'. dispatch. rewrite Hsel. unfold waitForElement.
    rewrite escapeString_escaped. cbn [bind].
    assert (Hpoll : Page.checkElement (Page.polls limit) p s limit (poll_time p 0) 0
                    = Some (Page.Fulfils found)).
    { apply (checkElement_found p s limit k Hsome k); [lia | | | ].
      - intros j Hj. apply Hnone. lia.
      - intros j Hj. apply Hlimit. lia.
      - unfold Page.polls. destruct k as [| k]; [lia |].
        pose proof (Hlimit k ltac:(lia)) as Hk. pose proof (poll_time_lower p k) as Hl.
        assert (Z.of_nat k <= limit / 100) by (apply Z.div_le_lower_bound; lia).
        lia. }
    destruct Htimeout as [-> | [-> ->]]; cbn [template printable bind Int];
      rewrite (scripted_hosting r' p t other _ (Page.Promise (Page.Fulfils found)));
      try reflexivity;
      cbn [behaviour]; unfold Page.waitForElement;
      rewrite (js_literal_escaped s Hplain), Hvalid; cbn [Int];
      change (0 <=? 0) with true; cbv iota; rewrite ?Z.pow_0_r, ?Z.mul_1_r;
      change (Z.max 0 (Page.lateness p 0)) with (poll_time p 0);
      rewrite Hpoll; reflexivity. }
  split; [apply Hrun |]. rewrite Hrun. reflexivity.
Qed.

Lemma waitForSelector_found_witness :
  fst (executeCommand
         (hosting relaying
                  {| Page.valid := fun _ => true;
                     Page.matches := fun time sel =>
                       if (200 <=? time) && String.eqb sel "#late" then [Sample.h1] else [];
                     Page.lateness := fun k => if Nat.eqb k 1 then 20 else 0;
                     Page.evaluate := fun _ _ => None |}
                  {| id := 1 |} Sample.bare)
         "waitForSelector" [("selector", VStr "#late"); ("timeout", VNum (Int 150))])
    = Ok (VObj [("found", VBool true); ("selector", VStr "#late")]).
Proof.
  apply (waitForSelector_found relaying _ _ _ _ "#late" 150 2%nat).
  - reflexivity.
  - reflexivity.
  - reflexivity.
  - left. reflexivity.
  - intros [| [| j]] Hj; [reflexivity | reflexivity | lia].
  - discriminate.
  - intros [| [| j]] Hj; cbn; lia.
Defined.

Lemma on_element_found p s missing found el els :
  Page.valid p s = true -> Page.matches p 0 s = el :: els ->
  Page.on_element p s missing found = found el.
Proof.
  intros Hv Hm. unfold Page.on_element, Page.querySelector. rewrite Hv, Hm. reflexivity.
Qed.

Lemma on_elements_found p s found el els :
  Page.valid p s = true -> Page.matches p 0 s = el :: els ->
  Page.on_elements p s found = Page.Return (VArr (map found (el :: els))).
Proof.
  intros Hv Hm. unfold Page.on_elements, Page.querySelectorAll. rewrite Hv, Hm. reflexivity.
Qed.

(** X7: when the selector (valid, without line break) matches, each
    command acts on the first match, or reads from every match, and needs no
    other parameter than its own. The script of [click], [type], [select]
    and [focus] returns the selector as it was sent (quotes and backslashes
    included; [select] the value as well) unless the call it makes on the
    element throws; that of [hover] only dispatches events and always
    returns. The scripts of the extraction commands return one entry for
    every match, in document order: [getText] the [innerText], or the
    [textContent] where that is empty; [getHtml] the [outerHTML];
    [getAttribute] what [getAttribute] finds on the element, or [null] where
    it finds nothing. The outcome of the command is what the browser tells of
    that: where it hands over the value a script returns, the command
    answers with it. *)
Theorem selector_with_match (r : reporting) (p : Page.page) (t : tab) (other : Browser)
    (ps : list (string * value)) (s : string)
    (el : Page.element) (els : list Page.element) :
  lookup_prop "selector" ps = VStr s -> plain s = true ->
  Page.valid p s = true -> Page.matches p 0 s = el :: els ->
  let run command := fst (executeCommand (hosting r p t other) command ps) in
  let told (o : Page.outcome) : promised value := reported (report r o) in
  (forall v, on_return r v = Results (Some [v]) -> told (Page.Return v) = Ok v) /\
  run "click"
    = told (Page.guarded (Page.click el)
              (VObj [("clicked", VBool true); ("selector", VStr s)])) /\
  (forall text, lookup_prop "text" ps = VStr text -> plain text = true ->
     run "type" = told (Page.guarded (Page.set_value el text)
                          (VObj [("filled", VBool true); ("selector", VStr s)]))) /\
  (forall value, lookup_prop "value" ps = VStr value -> plain value = true ->
     run "select" = told (Page.guarded (Page.set_value el value)
                            (VObj [("selected", VBool true); ("selector", VStr s);
                                   ("value", VStr value)]))) /\
  run "hover"
    = told (Page.Return (VObj [("hovered", VBool true); ("selector", VStr s)])) /\
  run "focus"
    = told (Page.guarded (Page.focus el)
              (VObj [("focused", VBool true); ("selector", VStr s)])) /\
  run "getText"
    = told (Page.Return
              (VArr (map (fun e => VStr (if String.eqb (Page.innerText e) ""
                                         then Page.textContent e else Page.innerText e))
                         (el :: els)))) /\
  run "getHtml"
    = told (Page.Return (VArr (map (fun e => VStr (Page.outerHTML e)) (el :: els)))) /\
  (forall attribute, lookup_prop "attribute" ps = VStr attribute -> plain attribute = true ->
     run "getAttribute"
       = told (Page.Return
                 (VArr (map (fun e => match Page.attribute e attribute with
                                      | Some v => VStr v
                                      | None => VNull
                                      end) (el :: els))))).
Proof.
  intros Hsel Hplain Hvalid Hmatch run told.
  pose proof (js_literal_escaped s Hplain) as Hlit.
  unfold run, told.
  split; [intros v Hv; cbn [report]; rewrite Hv; reflexivity |].
  repeat split; try (intros x Hx Hpx); dispatch; rewrite ?Hsel, ?Hx.
  - unfold clickElement. rewrite escapeString_escaped. cbn [bind].
    apply scripted_hosting. cbn [behaviour]. unfold Page.clickElement, Page.with_literal.
    rewrite Hlit, (on_element_found _ _ _ _ el els); auto.
  - unfold fillForm. rewrite !escapeString_escaped. cbn [bind].
    apply scripted_hosting. cbn [behaviour]. unfold Page.fillForm, Page.with_literals.
    rewrite Hlit, (js_literal_escaped x Hpx), (on_element_found _ _ _ _ el els); auto.
  - unfold selectOption. rewrite !escapeString_escaped. cbn [bind].
    apply scripted_hosting. cbn [behaviour]. unfold Page.selectOption, Page.with_literals.
    rewrite Hlit, (js_literal_escaped x Hpx), (on_element_found _ _ _ _ el els); auto.
  - unfold hoverElement. rewrite escapeString_escaped. cbn [bind].
    apply scripted_hosting. cbn [behaviour]. unfold Page.hoverElement, Page.with_literal.
    rewrite Hlit, (on_element_found _ _ _ _ el els); auto.
  - unfold focusElement. rewrite escapeString_escaped. cbn [bind].
    apply scripted_hosting. cbn [behaviour]. unfold Page.focusElement, Page.with_literal.
    rewrite Hlit, (on_element_found _ _ _ _ el els); auto.
  - unfold extractText. rewrite escapeString_escaped. cbn [bind].
    erewrite scripted_hosting.
    2:{ cbn [behaviour]. unfold Page.extractText, Page.with_literal.
        rewrite Hlit, (on_elements_found _ _ _ el els); auto. }
    do 5 f_equal. apply map_ext. intros e.
    unfold or_else. cbn [truthy].
    destruct (String.eqb (Page.innerText e) ""); reflexivity.
  - unfold extractHtml. rewrite escapeString_escaped. cbn [bind].
    apply scripted_hosting. cbn [behaviour]. unfold Page.extractHtml, Page.with_literal.
    rewrite Hlit, (on_elements_found _ _ _ el els); auto.
  - unfold extractAttribute. rewrite !escapeString_escaped. cbn [bind].
    apply scripted_hosting. cbn [behaviour]. unfold Page.extractAttribute, Page.with_literals.
    rewrite Hlit, (js_literal_escaped x Hpx), (on_elements_found _ _ _ el els); auto.
Qed.

Lemma selector_with_match_witness :
  fst (executeCommand Sample.browser "getAttribute"
         [("selector", VStr "h1"); ("attribute", VStr "id")])
    = Ok (VArr [VStr "top"]).
Proof.
  destruct (selector_with_match relaying Sample.page {| id := 1 |} Sample.bare
              [("selector", VStr "h1"); ("attribute", VStr "id")] "h1" Sample.h1 []
              eq_refl eq_refl eq_refl eq_refl) as (_ & _ & _ & _ & _ & _ & _ & _ & H).
  apply (H "id"); reflexivity.
Defined.


(** X8: once the command has settled, [processCommand] settles exactly as
    the one [sendWebSocketMessage] call for its result settles: a failing
    command never makes it reject, a failing send does. The result is handed
    to the transport after everything the command did in the browser, and it
    carries the [accessCode] of the inbound packet and the time of sending.
    While the command stays pending, [processCommand] stays pending after
    what the command did, and hands nothing to the transport. *)
Theorem processCommand_settles (b : Browser) (p : CommandPacket) :
  let run := executeCommand b (command p) (params p) in
  match fst run with
  | Settles _ =>
      exists pkt,
        processCommand b p
          = (Settles (transport b pkt), (snd run ++ [SendWebSocketMessage pkt])%list) /\
        data_field pkt "accessCode" = VStr (accessCode p) /\
        data_field pkt "timestamp" = VNum (Int (Date_now b))
  | Hangs => processCommand b p = (Hangs, snd run)
  end.
Proof.
  intros run. subst run. unfold processCommand.
  destruct (executeCommand b (command p) (params p)) as [r log]. cbn [fst snd].
  destruct r as [[v | [m | v]] |]; try reflexivity;
    eexists; (split; [reflexivity |]); split; reflexivity.
Qed.

Lemma scripted_not_default b r msg :
  match r with
  | Throw (JsError m) => m <> msg
  | _ => True
  end ->
  scripted b r <> throw msg.
Proof.
  destruct r as [s | [m | v]]; cbn [scripted]; intros H Heq.
  - apply (f_equal snd) in Heq. unfold executeScriptInActiveTab in Heq.
    destruct (tabs_query b) as [[| t0 ts] |]; discriminate Heq.
  - injection Heq as ->. apply H. reflexivity.
  - unfold throw in Heq. congruence.
Qed.

Lemma escapeString_cases v :
  (exists s, v = VStr s) \/
  (exists m, escapeString v = Throw (JsError m) /\
             (m = "Cannot read properties of undefined (reading 'replace')" \/
              m = "Cannot read properties of null (reading 'replace')" \/
              m = "str.replace is not a function")).
Proof.
  destruct v; [right | right | right | right | left | right | right | right]; eauto;
    eexists; (split; [reflexivity |]); auto.
Qed.

Ltac not_default :=
  apply scripted_not_default;
  repeat match goal with
         | |- context [escapeString ?v] =>
             destruct (escapeString_cases v) as [[? ->] | (? & -> & [-> | [-> | ->]])];
             [rewrite escapeString_escaped; cbn [bind] | cbn [bind]; discriminate ..]
         end;
  exact I.

Lemma executeScriptInActiveTab_asks b s : snd (executeScriptInActiveTab b s) <> [].
Proof.
  unfold executeScriptInActiveTab. destruct (tabs_query b) as [[| t0 ts] |]; discriminate.
Qed.

Lemma evaluateFunction_outcome b f a :
  (exists e, evaluateFunction b f a = (Settles (Throw e), []) /\
             e = JsError "Cannot convert object to primitive value") \/
  snd (evaluateFunction b f a) <> [].
Proof.
  unfold evaluateFunction, evaluate_script, template.
  destruct (printable f); cbn [bind].
  - right. match goal with
           | |- context [executeScriptInActiveTab b ?s] =>
               pose proof (executeScriptInActiveTab_asks b s) as H;
               destruct (executeScriptInActiveTab b s) as [r log]
           end.
    exact H.
  - left. eexists. split; reflexivity.
Qed.

Lemma template_throws v e :
  template v = Throw e -> e = JsError "Cannot convert object to primitive value".
Proof. unfold template. destruct (printable v); congruence. Qed.

Lemma to_ms_throws v e :
  to_ms v = Throw e -> e = JsError "Cannot convert object to primitive value".
Proof.
  unfold to_ms, Numeric.ToNumber. destruct v; try discriminate;
    (destruct (template _) eqn:Ht; [discriminate |]);
    cbn [bind]; intros [= <-]; apply (template_throws _ _ Ht).
Qed.

Lemma supported_handled command : handled command = true -> In command supported.
Proof.
  unfold handled, cases. cbn [existsb]. intros H.
  repeat (apply orb_true_iff in H as [H | H];
          [apply String.eqb_eq in H; subst; cbn; tauto |]).
  discriminate H.
Qed.

(** X9: the dispatch rejects a command as unknown exactly when its name
    is none of the seventeen it has a case for; names are compared as they
    are, so ["Goto"] or ["goto "] are unknown. The seventeen are the values
    of the [CommandType] enumeration other than ["screenshot"] and
    ["pdf"]. *)
Theorem unknown_command_iff (b : Browser) (command : string) (ps : list (string * value)) :
  (executeCommand b command ps = throw ("Unknown command: " +:+ command)
     <-> ~ In command supported) /\
  (In command supported
     <-> In command (declared CommandType) /\ command <> "screenshot" /\ command <> "pdf").
Proof.
  split; [split |].
  - intros Heq Hin. revert Heq. each_command Hin.
    + intros Heq. apply (f_equal snd) in Heq. unfold navigateToUrl in Heq.
      repeat case_match; discriminate Heq.
    + intros Heq. apply (f_equal snd) in Heq. unfold reloadPage in Heq.
      destruct (tabs_query b) as [[| t0 ts] |]; discriminate Heq.
    + apply (scripted_not_default b (Ok _)). exact I.
    + apply (scripted_not_default b (Ok _)). exact I.
    + unfold clickElement. not_default.
    + unfold fillForm. not_default.
    + unfold selectOption. not_default.
    + unfold hoverElement. not_default.
    + unfold focusElement. not_default.
    + unfold extractText. not_default.
    + unfold extractHtml. not_default.
    + unfold extractAttribute. not_default.
    + intros Heq.
      destruct (evaluateFunction_outcome b (lookup_prop "function" ps)
                  (lookup_prop "arguments" ps)) as [(e & He & ->) | Hlog].
      * rewrite He in Heq. discriminate Heq.
      * apply Hlog. rewrite Heq. reflexivity.
    + unfold waitForElement. apply scripted_not_default.
      destruct (escapeString_cases (lookup_prop "selector" ps))
        as [[? ->] | (? & -> & [-> | [-> | ->]])];
        [rewrite escapeString_escaped; cbn [bind] | cbn [bind]; discriminate ..].
      destruct (template _) as [limit | e] eqn:Ht; cbn [bind]; [exact I |].
      rewrite (template_throws _ _ Ht). discriminate.
    + intros Heq. apply (f_equal snd) in Heq. unfold waitForNavigation in Heq.
      repeat case_match; discriminate Heq.
    + unfold waitForTimeout. destruct (to_ms _) as [delay | e] eqn:Hd; [discriminate |].
      rewrite (to_ms_throws _ _ Hd). discriminate.
    + discriminate.
  - intros Hnot. apply executeCommand_default.
    destruct (handled command) eqn:Hh; [| reflexivity].
    contradiction (Hnot (supported_handled _ Hh)).
  - unfold supported, declared, CommandType. cbn [map snd In]. split.
    + intros H. repeat (destruct H as [<- | H]; [repeat split; (tauto || discriminate) |]).
      contradiction H.
    + intros (H & H1 & H2).
      repeat (destruct H as [<- | H]; [tauto || congruence |]). contradiction H.
Qed.


(** X10: [waitForTimeout] with a whole number of milliseconds for its
    timeout (or none: 1000) never fails and never touches the browser: it
    sleeps and then answers [{ success: true, waited }] with the timeout as
    it came. The sleep is the timeout taken as a 32-bit integer, and 0 when
    this is negative: the timeout itself from 0 up to [2^31 - 1], nothing
    for a negative timeout down to [-2^31] or for one from [2^31] up to
    [2^32], and for a timeout just below [-2^31] nearly 25 days. [exit]
    answers [{ exited: true }] and does nothing else: no tab is closed and
    the connection stays. *)
Theorem waitForTimeout_outcome (b : Browser) (ps : list (string * value)) (n : Z) :
  lookup_prop "timeout" ps = VNum (Int n)
    \/ (lookup_prop "timeout" ps = VUndefined /\ n = 1000) ->
  - 2 ^ 53 < n < 2 ^ 53 ->
  let delay := Z.max 0 (int32 n) in
  executeCommand b "waitForTimeout" ps
    = ( Settles (Ok (VObj [("success", VBool true); ("waited", VNum (Int n))])),
        [Slept delay] ) /\
  (0 <= n < 2 ^ 31 -> delay = n) /\
  (- 2 ^ 31 <= n < 0 \/ 2 ^ 31 <= n <= 2 ^ 32 -> delay = 0) /\
  (n = - 2 ^ 31 - 1 -> delay = 2 ^ 31 - 1) /\
  executeCommand b "exit" ps = (Settles (Ok (VObj [("exited", VBool true)])), []).
Proof.
  intros Htimeout Hn delay.
  split; [| split; [| split; [| split; [| dispatch; reflexivity]]]].
  - dispatch. unfold waitForTimeout.
    destruct Htimeout as [-> | [-> ->]]; rewrite to_ms_int by lia; reflexivity.
  - intros H. subst delay. rewrite int32_range by lia. lia.
  - subst delay. intros [H | H]; [rewrite int32_range by lia; lia |].
    unfold int32. destruct (Z.eq_dec n (2 ^ 32)) as [-> | Hne]; [reflexivity |].
    replace (n + 2 ^ 31) with (n - 2 ^ 31 + 1 * 2 ^ 32) by lia.
    rewrite Z.mod_add by lia. rewrite Z.mod_small by lia. lia.
  - intros ->. reflexivity.
Qed.

Lemma waitForTimeout_outcome_witness :
  executeCommand Sample.browser "waitForTimeout" [("timeout", VNum (Int (-2147483649)))]
    = ( Settles (Ok (VObj [("success", VBool true);
                           ("waited", VNum (Int (-2147483649)))])),
        [Slept 2147483647] ).
Proof.
  apply (waitForTimeout_outcome Sample.browser [("timeout", VNum (Int (-2147483649)))]
           (-2147483649)).
  - left. reflexivity.
  - lia.
Defined.

(** X11: with an active tab, every command that works through a script
    (its string parameters being there) queries the tabs once and runs
    exactly one script, in the first active tab, wrapped as
    [(function() { ... })()]; nothing else is asked of the browser. The
    command's outcome is the browser's answer: the first entry of the
    results, [undefined] when there are none, and a failure with the
    message of [lastError] (the empty message when it has none) when that is
    set. (The [timeout] spliced into the script of [waitForSelector] is taken
    to convert to text.) *)
Theorem one_script_per_command (b : Browser) (command : string)
    (ps : list (string * value)) (t0 : tab) (others : list tab) :
  tabs_query b = Some (t0 :: others) ->
  printable (lookup_prop "timeout" ps) = true ->
  In command ["back"; "forward"] \/
  (In command selector_commands /\
   string_param ps "selector" = true /\
   (command = "type" -> string_param ps "text" = true) /\
   (command = "select" -> string_param ps "value" = true) /\
   (command = "getAttribute" -> string_param ps "attribute" = true)) ->
  exists s body,
    code s = "(function() { " +:+ body +:+ " })()" /\
    snd (executeCommand b command ps) = [TabsQuery; ExecuteScript (id t0) (code s)] /\
    fst (executeCommand b command ps)
      = match executeScript b (id t0) s with
        | LastError (Some m) => Throw (JsError m)
        | LastError None => Throw (JsError "")
        | Results (Some (v :: _)) => Ok v
        | Results _ => Ok VUndefined
        end.
Proof.
  intros Htab Htimeout Hc.
  assert (Hrun : forall s0,
            exists s body,
              code s = "(function() { " +:+ body +:+ " })()" /\
              snd (executeScriptInActiveTab b s0) = [TabsQuery; ExecuteScript (id t0) (code s)] /\
              fst (executeScriptInActiveTab b s0)
                = match executeScript b (id t0) s with
                  | LastError (Some m) => Throw (JsError m)
                  | LastError None => Throw (JsError "")
                  | Results (Some (v :: _)) => Ok v
                  | Results _ => Ok VUndefined
                  end).
  { intros s0. unfold executeScriptInActiveTab. rewrite Htab.
    exists {| code := "(function() { " +:+ code s0 +:+ " })()"; behaviour := behaviour s0 |},
           (code s0).
    split; [reflexivity |]. split; [reflexivity |]. cbn [fst].
    destruct (executeScript b (id t0) _) as [[m |] | [[| v rs] |]]; reflexivity. }
  destruct Hc as [Hc | (Hc & Hsel & Htext & Hvalue & Hattr)].
  - each_command Hc; apply Hrun.
  - destruct (string_param_spec _ _ Hsel) as (sel & Es).
    each_command Hc; rewrite Es.
    + unfold clickElement. rewrite escapeString_escaped. apply Hrun.
    + destruct (string_param_spec _ _ (Htext eq_refl)) as (x & ->).
      unfold fillForm. rewrite !escapeString_escaped. apply Hrun.
    + destruct (string_param_spec _ _ (Hvalue eq_refl)) as (x & ->).
      unfold selectOption. rewrite !escapeString_escaped. apply Hrun.
    + unfold hoverElement. rewrite escapeString_escaped. apply Hrun.
    + unfold focusElement. rewrite escapeString_escaped. apply Hrun.
    + unfold extractText. rewrite escapeString_escaped. apply Hrun.
    + unfold extractHtml. rewrite escapeString_escaped. apply Hrun.
    + destruct (string_param_spec _ _ (Hattr eq_refl)) as (x & ->).
      unfold extractAttribute. rewrite !escapeString_escaped. apply Hrun.
    + unfold waitForElement. rewrite escapeString_escaped, template_timeout by exact Htimeout.
      apply Hrun.
Qed.

Lemma one_script_per_command_witness :
  snd (executeCommand (Sample.answering (Results None)) "back" [])
    = [ TabsQuery;
        ExecuteScript 1 "(function() { window.history.back(); return { success: true }; })()" ] /\
  fst (executeCommand (Sample.answering (Results None)) "back" []) = Ok VUndefined.
Proof.
  destruct (one_script_per_command (Sample.answering (Results None)) "back" []
              {| id := 1 |} [] eq_refl eq_refl) as (s & body & _ & _ & H).
  - left. simpl. tauto.
  - split; [reflexivity | exact H].
Defined.

End Scripts.

(** ** Invariants of the transport *)

Section TransportInvariants.
Import Ws.

Lemma with_sockets_id ss st : ss = sockets st -> with_sockets ss st = st.
Proof. intros ->. destruct st; reflexivity. Qed.

Lemma alter_same f i st w :
  sockets st !! i = Some w -> f w = w -> alter f i (sockets st) = sockets st.
Proof.
  intros E H. apply list_eq. intros j. rewrite list_lookup_alter.
  case_decide; [subst; rewrite E; cbn; rewrite H |]; reflexivity.
Qed.

Lemma update_missing f i st : sockets st !! i = None -> update f i st = st.
Proof.
  intros H. unfold update. apply with_sockets_id.
  apply list_eq. intros j. rewrite list_lookup_alter.
  case_decide; [subst; rewrite H; reflexivity | reflexivity].
Qed.

Lemma set_ready_update i r st : set_ready i r st = update (set_state r) i st.
Proof.
  unfold set_ready. destruct (sockets st !! i) as [w |] eqn:E.
  - unfold update. f_equal. rewrite list_insert_alter. apply list_alter_ext; [| reflexivity].
    intros x Hx. rewrite E in Hx. injection Hx as <-. reflexivity.
  - symmetry. apply update_missing, E.
Qed.

Lemma ws_close_update i st : ws_close i st = update closing i st.
Proof.
  unfold ws_close, readyState_of. destruct (sockets st !! i) as [w |] eqn:E; cbn.
  - destruct (ready w) eqn:R; rewrite ?set_ready_update; unfold update.
    + f_equal. apply list_alter_ext; [| reflexivity].
      intros x Hx. rewrite E in Hx. injection Hx as <-. unfold closing. rewrite R. reflexivity.
    + f_equal. apply list_alter_ext; [| reflexivity].
      intros x Hx. rewrite E in Hx. injection Hx as <-. unfold closing. rewrite R. reflexivity.
    + symmetry. apply with_sockets_id, (alter_same _ _ _ w E).
      unfold closing. rewrite R. reflexivity.
    + symmetry. apply with_sockets_id, (alter_same _ _ _ w E).
      unfold closing. rewrite R. reflexivity.
  - symmetry. apply update_missing, E.
Qed.

Lemma ws_send_update i text st st' :
  ws_send i text st = Some st' ->
  st' = update (push text) i st /\
  exists w, sockets st !! i = Some w /\ ready w <> CONNECTING.
Proof.
  unfold ws_send. destruct (sockets st !! i) as [w |] eqn:E; [| discriminate].
  destruct (ready w) eqn:R; try discriminate; intros [= <-];
    (split; [| exists w; split; [reflexivity | congruence]]).
  - unfold update. f_equal. rewrite list_insert_alter. apply list_alter_ext; [| reflexivity].
    intros x Hx. rewrite E in Hx. injection Hx as <-. unfold push. rewrite R. reflexivity.
  - symmetry. apply with_sockets_id, (alter_same _ _ _ w E).
    unfold push. rewrite R. reflexivity.
  - symmetry. apply with_sockets_id, (alter_same _ _ _ w E).
    unfold push. rewrite R. reflexivity.
Qed.


Lemma extends_refl st : extends st st.
Proof. intros i w H. exists w. auto. Qed.

Lemma extends_trans st1 st2 st3 : extends st1 st2 -> extends st2 st3 -> extends st1 st3.
Proof.
  intros H12 H23 i w H. destruct (H12 i w H) as (w2 & H2 & Hh2 & Hf2).
  destruct (H23 i w2 H2) as (w3 & H3 & Hh3 & Hf3).
  exists w3. split; [exact H3 |]. split; [congruence |]. etrans; eassumption.
Qed.

Lemma extends_same st st' : sockets st' = sockets st -> extends st st'.
Proof. intros E i w H. exists w. rewrite E. auto. Qed.

Lemma extends_update f i st :
  (forall w, sockets st !! i = Some w ->
     handlers (f w) = handlers w /\ frames w `prefix_of` frames (f w)) ->
  extends st (update f i st).
Proof.
  intros Hf j w H. cbn. rewrite list_lookup_alter. case_decide as Hij.
  - subst j. rewrite H. cbn. exists (f w). split; [reflexivity |]. apply Hf, H.
  - exists w. auto.
Qed.

Lemma extends_new h st : extends st (snd (new_WebSocket h st)).
Proof. intros i w H. exists w. cbn. split; [apply lookup_app_l_Some, H | auto]. Qed.

Lemma consistent_initial : consistent initial.
Proof.
  constructor; cbn.
  - constructor.
  - discriminate.
  - intros t p H. rewrite lookup_empty in H. discriminate H.
  - intros k _. apply lookup_empty.
Qed.

(** Changes to the variables and the timers alone. *)
Lemma consistent_frame st st' :
  consistent st -> sockets st' = sockets st -> sends st' = sends st ->
  socket st' = socket st \/ socket st' = None ->
  (forall k, (next_timer st' <= k)%nat -> timers st' !! k = None) ->
  consistent st'.
Proof.
  intros [Hs Hc Hp Ht] Es Ep Ec Ht'. constructor.
  - rewrite Es. exact Hs.
  - rewrite Es. intros i Hi. apply Hc. destruct Ec as [<- | Ec]; congruence.
  - rewrite Es, Ep. exact Hp.
  - exact Ht'.
Qed.

Lemma consistent_update f i st :
  consistent st ->
  (forall w, sockets st !! i = Some w -> socket_ok w ->
     socket_ok (f w) /\ handlers (f w) = handlers w /\ (frames w <> [] -> frames (f w) <> [])) ->
  consistent (update f i st).
Proof.
  intros [Hs Hc Hp Ht] Hf.
  assert (Hok : forall j w, sockets st !! j = Some w -> socket_ok w).
  { intros j w H. rewrite Forall_lookup in Hs. exact (Hs j w H). }
  constructor; cbn.
  - apply Forall_alter; [exact Hs |]. intros w H Hw. apply (Hf w H Hw).
  - intros j Hj. destruct (Hc j Hj) as (w & H & Hpers).
    rewrite list_lookup_alter. case_decide as Hij; [| eauto].
    subst j. rewrite H. cbn. exists (f w). split; [reflexivity |].
    destruct (Hf w H (Hok _ _ H)) as (_ & Hh & _).
    unfold is_persistent in *. rewrite Hh. exact Hpers.
  - intros t p Ht'. destruct (Hp t p Ht') as (w & data & H & Hh & Hres).
    rewrite list_lookup_alter. case_decide as Hij; [| eauto].
    subst t. rewrite H. cbn. exists (f w), data. split; [reflexivity |].
    destruct (Hf w H (Hok _ _ H)) as (_ & Hh' & Hne).
    split; [congruence | auto].
  - exact Ht.
Qed.

Lemma consistent_new h st :
  consistent st -> consistent (snd (new_WebSocket h st)).
Proof.
  intros [Hs Hc Hp Ht]. constructor; cbn.
  - apply Forall_app. split; [exact Hs |]. constructor; [| constructor].
    split; [reflexivity |]. cbn. destruct h; [exact I |]. split; [discriminate | auto].
  - intros i Hi. destruct (Hc i Hi) as (w & H & Hpers). exists w.
    split; [apply lookup_app_l_Some, H | exact Hpers].
  - intros t p Ht'. destruct (Hp t p Ht') as (w & data & H & Hrest). exists w, data.
    split; [apply lookup_app_l_Some, H | exact Hrest].
  - exact Ht.
Qed.

Lemma consistent_set_timer t st : consistent st -> consistent (snd (set_timer t st)).
Proof.
  intros H. apply (consistent_frame st); auto. cbn. intros k Hk.
  rewrite lookup_insert_ne by lia. apply (timers_ok _ H). lia.
Qed.

Lemma consistent_clear_timer i st : consistent st -> consistent (clear_timer i st).
Proof.
  intros H. apply (consistent_frame st); auto. cbn. intros k Hk.
  apply lookup_delete_None. right. apply (timers_ok _ H), Hk.
Qed.

Lemma consistent_with_vars s r p st :
  consistent st -> s = socket st \/ s = None -> consistent (with_vars s r p st).
Proof.
  intros H Hs. apply (consistent_frame st); auto. cbn. apply (timers_ok _ H).
Qed.

Lemma consistent_clear_reconnect st : consistent st -> consistent (clear_reconnect st).
Proof.
  intros H. unfold clear_reconnect. destruct (reconnectTimeout st); [| exact H].
  apply consistent_with_vars; [apply consistent_clear_timer, H | auto].
Qed.

Lemma consistent_clear_ping st : consistent st -> consistent (clear_ping st).
Proof.
  intros H. unfold clear_ping. destruct (pingInterval st); [| exact H].
  apply consistent_with_vars; [apply consistent_clear_timer, H | auto].
Qed.

Lemma sockets_clear_reconnect st : sockets (clear_reconnect st) = sockets st.
Proof. unfold clear_reconnect. destruct (reconnectTimeout st); reflexivity. Qed.

Lemma sockets_clear_ping st : sockets (clear_ping st) = sockets st.
Proof. unfold clear_ping. destruct (pingInterval st); reflexivity. Qed.

Lemma socket_clear_reconnect st : socket (clear_reconnect st) = socket st.
Proof. unfold clear_reconnect. destruct (reconnectTimeout st); reflexivity. Qed.

Lemma socket_clear_ping st : socket (clear_ping st) = socket st.
Proof. unfold clear_ping. destruct (pingInterval st); reflexivity. Qed.

Lemma sends_clear_reconnect st : sends (clear_reconnect st) = sends st.
Proof. unfold clear_reconnect. destruct (reconnectTimeout st); reflexivity. Qed.

Lemma sends_clear_ping st : sends (clear_ping st) = sends st.
Proof. unfold clear_ping. destruct (pingInterval st); reflexivity. Qed.

(** What [push] and [closing] do to a socket in order. *)
Lemma push_ok text w :
  socket_ok w -> is_persistent w = true ->
  socket_ok (push text w) /\ handlers (push text w) = handlers w /\
  (frames w <> [] -> frames (push text w) <> []).
Proof.
  intros H Hp. unfold push, is_persistent in *.
  destruct (ready w) eqn:R; [tauto | | tauto | tauto].
  cbn. split; [split |].
  - discriminate.
  - cbn. destruct (handlers w); [exact I | discriminate Hp].
  - split; [reflexivity |]. intros _. destruct (frames w); discriminate.
Qed.

Lemma push_prefix text w :
  handlers (push text w) = handlers w /\ frames w `prefix_of` frames (push text w).
Proof.
  unfold push. destruct (ready w); cbn; (split; [reflexivity |]);
    first [reflexivity | apply prefix_app_r; reflexivity].
Qed.

Lemma set_state_ok r w :
  socket_ok w -> r <> CONNECTING -> (r = OPEN -> is_persistent w = true) ->
  socket_ok (set_state r w) /\ handlers (set_state r w) = handlers w /\
  (frames w <> [] -> frames (set_state r w) <> []).
Proof.
  intros [H1 H2] Hr Ho. unfold is_persistent in Ho. split; [| auto]. split; cbn.
  - intros ->. contradiction.
  - destruct (handlers w); [exact I |]. destruct H2 as [_ H2]. split; [| exact H2].
    intros ->. specialize (Ho eq_refl). discriminate Ho.
Qed.

Lemma set_state_prefix r w :
  handlers (set_state r w) = handlers w /\ frames w `prefix_of` frames (set_state r w).
Proof. split; reflexivity. Qed.

Lemma closing_ok w :
  socket_ok w ->
  socket_ok (closing w) /\ handlers (closing w) = handlers w /\
  (frames w <> [] -> frames (closing w) <> []).
Proof.
  intros H. unfold closing.
  destruct (ready w) eqn:R; [| | tauto | tauto];
    apply set_state_ok; auto; discriminate.
Qed.

Lemma closing_prefix w :
  handlers (closing w) = handlers w /\ frames w `prefix_of` frames (closing w).
Proof. unfold closing. destruct (ready w); split; reflexivity. Qed.


Lemma update_update f g i st : update f i (update g i st) = update (f ∘ g) i st.
Proof. unfold update, with_sockets. cbn. rewrite list_alter_alter_eq. reflexivity. Qed.


Lemma ok_refl st : consistent st -> ok st st.
Proof. intros H. split; [exact H | apply extends_refl]. Qed.

Lemma ok_trans st1 st2 st3 : ok st1 st2 -> ok st2 st3 -> ok st1 st3.
Proof. intros [_ H12] [H3 H23]. split; [exact H3 | eapply extends_trans; eassumption]. Qed.

Lemma ok_frame st st' :
  consistent st' -> sockets st' = sockets st -> ok st st'.
Proof. intros H E. split; [exact H | apply extends_same, E]. Qed.

Lemma send_current_ok i text st st' :
  consistent st -> socket st = Some i -> ws_send i text st = Some st' -> ok st st'.
Proof.
  intros H Hi Hsend. destruct (ws_send_update _ _ _ _ Hsend) as (-> & _).
  destruct (current_ok _ H i Hi) as (w & Hw & Hp). split.
  - apply consistent_update; [exact H |]. intros w' Hw' Hok.
    rewrite Hw in Hw'. injection Hw' as <-. apply push_ok; assumption.
  - apply extends_update. intros w' _. apply push_prefix.
Qed.

Lemma close_ok i st : consistent st -> ok st (ws_close i st).
Proof.
  intros H. rewrite ws_close_update. split.
  - apply consistent_update; [exact H |]. intros w _ Hok. apply closing_ok, Hok.
  - apply extends_update. intros w _. apply closing_prefix.
Qed.

Lemma consistent_current i r p st :
  consistent st ->
  (exists w, sockets st !! i = Some w /\ is_persistent w = true) ->
  consistent (with_vars (Some i) r p st).
Proof.
  intros [Hs Hc Hp Ht] Hi. constructor; cbn; auto.
  intros j [= <-]. exact Hi.
Qed.

Lemma initializeWebSocket_ok c st :
  consistent st -> ok st (initializeWebSocket c st).
Proof.
  intros H. unfold initializeWebSocket.
  destruct (match socket st with Some i => is_open i st | None => false end);
    [apply ok_refl, H |].
  set (st1 := clear_ping (clear_reconnect st)).
  assert (H1 : consistent st1) by (apply consistent_clear_ping, consistent_clear_reconnect, H).
  assert (E1 : sockets st1 = sockets st)
    by (unfold st1; rewrite sockets_clear_ping, sockets_clear_reconnect; reflexivity).
  cbn [new_WebSocket]. split.
  - apply consistent_current; [apply (consistent_new _ _ H1) |]. cbn.
    eexists. split; [apply list_lookup_middle; reflexivity | reflexivity].
  - intros i w Hw. exists w. cbn. rewrite E1. split; [apply lookup_app_l_Some, Hw | auto].
Qed.

Lemma closeWebSocket_ok st : consistent st -> ok st (closeWebSocket st).
Proof.
  intros H. unfold closeWebSocket.
  set (st1 := match socket st with
              | Some i => _
              | None => st
              end).
  assert (H1 : ok st st1).
  { unfold st1. destruct (socket st) as [i |]; [| apply ok_refl, H].
    destruct (close_ok i st H) as [Hc He]. split.
    - apply consistent_with_vars; [exact Hc | auto].
    - exact He. }
  eapply ok_trans; [exact H1 |]. destruct H1 as [H1 _].
  apply ok_frame.
  - apply consistent_clear_ping, consistent_clear_reconnect, H1.
  - rewrite sockets_clear_ping, sockets_clear_reconnect. reflexivity.
Qed.

Lemma temporary_ok data st :
  consistent st ->
  let st' := with_send (length (sockets st)) Pending
               (snd (setTimeout (SendTimeout (length (sockets st))) 5000
                       (snd (new_WebSocket (Temporary data) st)))) in
  ok st st'.
Proof.
  intros H st'.
  assert (H2 : consistent (snd (setTimeout (SendTimeout (length (sockets st))) 5000
                                  (snd (new_WebSocket (Temporary data) st)))))
    by (apply consistent_set_timer, consistent_new, H).
  split.
  - destruct H2 as [Hs Hc Hp Ht]. constructor; auto.
    unfold st'. cbn [sends sockets with_send]. intros t p Hl.
    apply lookup_insert_Some in Hl as [[<- <-] | [_ Hl]]; [| apply (Hp t p Hl)].
    eexists _, data. cbn. split; [apply list_lookup_middle; reflexivity |].
    split; [reflexivity | discriminate].
  - intros i w Hw. exists w. cbn. split; [apply lookup_app_l_Some, Hw | auto].
Qed.

Lemma sendWebSocketMessage_ok data st :
  consistent st -> ok st (fst (sendWebSocketMessage data st)).
Proof.
  intros H. unfold sendWebSocketMessage.
  destruct (socket st) as [i |] eqn:Hi; [| apply (temporary_ok data st H)].
  destruct (is_open i st); [| apply (temporary_ok data st H)].
  destruct (ws_send i (encode data) st) as [st' |] eqn:Hsend; cbn [fst].
  - apply (send_current_ok i _ st st' H Hi Hsend).
  - apply ok_refl, H.
Qed.

Lemma onopen_ok c st : consistent st -> ok st (onopen c st).
Proof.
  intros H. unfold onopen. destruct (socket st) as [i |] eqn:Hi; [| apply ok_refl, H].
  destruct (ws_send i _ st) as [st1 |] eqn:Hsend; [| apply ok_refl, H].
  pose proof (send_current_ok i _ st st1 H Hi Hsend) as H1.
  eapply ok_trans; [exact H1 |]. destruct H1 as [H1 _].
  cbn [setInterval set_timer]. apply ok_frame; [| reflexivity].
  apply consistent_with_vars; [apply (consistent_set_timer _ _ H1) | auto].
Qed.

Lemma onclose_ok c st : consistent st -> ok st (onclose c st).
Proof.
  intros H. unfold onclose. cbn [setTimeout set_timer]. apply ok_frame.
  - apply consistent_with_vars; [| auto].
    apply (consistent_set_timer _ (clear_ping st)), consistent_clear_ping, H.
  - cbn. apply sockets_clear_ping.
Qed.

Lemma ping_ok st : consistent st -> ok st (ping st).
Proof.
  intros H. unfold ping. destruct (socket st) as [i |] eqn:Hi; [| apply ok_refl, H].
  destruct (is_open i st); [| apply ok_refl, H].
  destruct (ws_send i "ping" st) as [st1 |] eqn:Hsend; cbn [from_option].
  - apply (send_current_ok i _ st st1 H Hi Hsend).
  - apply ok_refl, H.
Qed.

Lemma settle_ok t how st :
  consistent st ->
  (how = Resolved -> exists w, sockets st !! t = Some w /\ frames w <> []) ->
  ok st (settle t how st).
Proof.
  intros H Hres. unfold settle.
  destruct (sends st !! t) as [[| |] |] eqn:Ht; try (apply ok_refl, H).
  apply ok_frame; [| reflexivity].
  pose proof H as [Hs Hc Hp Htm]. constructor; auto.
  cbn [sends sockets with_send]. intros t' p Hl.
  apply lookup_insert_Some in Hl as [[<- <-] | [_ Hl]]; [| apply (Hp t' p Hl)].
  destruct (Hp t Pending Ht) as (w & data & Hw & Hh & _).
  exists w, data. split; [exact Hw |]. split; [exact Hh |].
  intros ->. destruct (Hres eq_refl) as (w' & Hw' & Hne). congruence.
Qed.

Lemma temp_timeout_ok t st : consistent st -> ok st (temp_timeout t st).
Proof.
  intros H. unfold temp_timeout.
  assert (Hgo : ok st (reject t (ws_close t st))).
  { eapply ok_trans; [apply close_ok, H |].
    apply settle_ok; [apply close_ok, H | discriminate]. }
  destruct (readyState_of t st) as [[| | |] |]; first [exact Hgo | apply ok_refl, H].
Qed.

(** The open event of a temporary socket: its message goes out, the
    socket starts closing, the promise is resolved. *)
Lemma temp_onopen_eq i data st w :
  sockets st !! i = Some w ->
  temp_onopen i data (set_ready i OPEN st)
  = resolve i (update (closing ∘ push (encode data) ∘ set_state OPEN) i st).
Proof.
  intros Hw. unfold temp_onopen. rewrite set_ready_update.
  destruct (ws_send i (encode data) (update (set_state OPEN) i st)) as [st2 |] eqn:Hsend.
  - destruct (ws_send_update _ _ _ _ Hsend) as (-> & _).
    rewrite ws_close_update, !update_update. reflexivity.
  - exfalso. unfold ws_send in Hsend. cbn in Hsend.
    rewrite list_lookup_alter_eq, Hw in Hsend. cbn in Hsend. discriminate Hsend.
Qed.

Lemma temp_onopen_ok i data st w :
  consistent st -> sockets st !! i = Some w -> ready w = CONNECTING ->
  handlers w = Temporary data ->
  ok st (temp_onopen i data (set_ready i OPEN st)).
Proof.
  intros H Hw Hr Hh. rewrite (temp_onopen_eq i data st w Hw).
  set (f := closing ∘ push (encode data) ∘ set_state OPEN).
  assert (Hf : f w = {| ready := CLOSING; handlers := handlers w;
                         frames := (frames w ++ [encode data])%list |}) by reflexivity.
  assert (Hok : socket_ok w).
  { pose proof (sockets_ok _ H) as Hs. rewrite Forall_lookup in Hs. exact (Hs i w Hw). }
  assert (Hnil : frames w = []) by (apply Hok, Hr).
  assert (H1 : ok st (update f i st)).
  { split.
    - apply consistent_update; [exact H |]. intros w' Hw' _.
      rewrite Hw in Hw'. injection Hw' as <-. rewrite Hf. split; [split |]; cbn.
      + discriminate.
      + rewrite Hh, Hnil. split; [discriminate | right; reflexivity].
      + split; [reflexivity |]. intros _. destruct (frames w); discriminate.
    - apply extends_update. intros w' Hw'. rewrite Hw in Hw'. injection Hw' as <-.
      rewrite Hf. cbn. split; [reflexivity | apply prefix_app_r; reflexivity]. }
  eapply ok_trans; [exact H1 |]. apply settle_ok; [apply H1 |].
  intros _. exists (f w). split.
  - unfold update. cbn [sockets with_sockets]. rewrite list_lookup_alter_eq, Hw. reflexivity.
  - rewrite Hf. cbn. destruct (frames w); discriminate.
Qed.

Lemma step_ok e st st' : consistent st -> step e st = Some st' -> ok st st'.
Proof.
  intros H Hstep. destruct e as [i | i | i | k | c | | data]; cbn [step] in Hstep.
  - destruct (sockets st !! i) as [w |] eqn:Hw; [| discriminate].
    destruct (ready w) eqn:Hr; try discriminate. injection Hstep as <-.
    destruct (handlers w) as [c | data] eqn:Hh.
    + assert (H1 : ok st (set_ready i OPEN st)).
      { rewrite set_ready_update. split.
        - apply consistent_update; [exact H |]. intros w' Hw' Hok.
          rewrite Hw in Hw'. injection Hw' as <-.
          apply set_state_ok; [exact Hok | discriminate |].
          intros _. unfold is_persistent. rewrite Hh. reflexivity.
        - apply extends_update. intros w' _. apply set_state_prefix. }
      eapply ok_trans; [exact H1 |]. apply onopen_ok, H1.
    + apply (temp_onopen_ok i data st w); assumption.
  - destruct (sockets st !! i) as [w |] eqn:Hw; [| discriminate].
    assert (H1 : ok st (set_ready i CLOSED st)).
    { rewrite set_ready_update. split.
      - apply consistent_update; [exact H |]. intros w' _ Hok.
        apply set_state_ok; [exact Hok | discriminate | discriminate].
      - apply extends_update. intros w' _. apply set_state_prefix. }
    destruct (ready w); try discriminate; injection Hstep as <-;
      (destruct (handlers w);
       [eapply ok_trans; [exact H1 | apply onclose_ok, H1] | exact H1]).
  - destruct (sockets st !! i) as [w |] eqn:Hw; [| discriminate].
    injection Hstep as <-. destruct (handlers w); [apply ok_refl, H |].
    apply settle_ok; [exact H | discriminate].
  - destruct (timers st !! k) as [t |] eqn:Ht; [| discriminate].
    injection Hstep as <-.
    set (st1 := if repeats t then st else clear_timer k st).
    assert (H1 : ok st st1).
    { unfold st1. destruct (repeats t); [apply ok_refl, H |].
      apply ok_frame; [apply consistent_clear_timer, H | reflexivity]. }
    eapply ok_trans; [exact H1 |]. destruct H1 as [H1 _].
    destruct (run t).
    + apply initializeWebSocket_ok, H1.
    + apply ping_ok, H1.
    + apply temp_timeout_ok, H1.
  - injection Hstep as <-. apply initializeWebSocket_ok, H.
  - injection Hstep as <-. apply closeWebSocket_ok, H.
  - injection Hstep as <-. apply sendWebSocketMessage_ok, H.
Qed.

Lemma steps_ok es : forall st st',
  consistent st -> steps es st = Some st' -> ok st st'.
Proof.
  induction es as [| e es IH]; intros st st' H Hsteps; cbn [steps] in Hsteps.
  - injection Hsteps as <-. apply ok_refl, H.
  - destruct (step e st) as [st1 |] eqn:Hstep; [| discriminate].
    pose proof (step_ok e st st1 H Hstep) as H1.
    eapply ok_trans; [exact H1 |]. apply IH; [apply H1 | exact Hsteps].
Qed.


(** X12: whatever the runtime delivers and whichever exported functions
    are called, in any order: a temporary socket is never left open, and it
    has sent nothing, or exactly the one message it was opened for (and is
    then closing or closed); a send whose promise is resolved has had its
    message transmitted, once, on its own temporary socket; and the
    [socket] variable always names a socket that carries the persistent
    handlers, never a temporary one. *)
Theorem temporary_socket_sends_once (es : list event) (st : state) :
  steps es initial = Some st ->
  (forall i w data,
     sockets st !! i = Some w -> handlers w = Temporary data ->
     ready w <> OPEN /\
     (frames w = [] \/ (frames w = [encode data] /\ ready w <> CONNECTING))) /\
  (forall t,
     sends st !! t = Some Resolved ->
     exists w data,
       sockets st !! t = Some w /\ handlers w = Temporary data /\
       frames w = [encode data]) /\
  (forall i,
     socket st = Some i ->
     exists w c, sockets st !! i = Some w /\ handlers w = Persistent c).
Proof.
  intros Hsteps.
  destruct (steps_ok es initial st consistent_initial Hsteps) as [[Hs Hc Hp _] _].
  assert (Hok : forall i w, sockets st !! i = Some w -> socket_ok w).
  { intros i w H. rewrite Forall_lookup in Hs. exact (Hs i w H). }
  split; [| split].
  - intros i w data Hw Hh. destruct (Hok i w Hw) as [Hcon Htemp]. rewrite Hh in Htemp.
    destruct Htemp as [Hopen [Hnil | Hone]]; (split; [exact Hopen |]); [left; exact Hnil |].
    right. split; [exact Hone |]. intros Hr. rewrite (Hcon Hr) in Hone. discriminate Hone.
  - intros t Ht. destruct (Hp t Resolved Ht) as (w & data & Hw & Hh & Hne).
    exists w, data. split; [exact Hw |]. split; [exact Hh |].
    destruct (Hok t w Hw) as [_ Htemp]. rewrite Hh in Htemp.
    destruct Htemp as [_ [Hnil | Hone]]; [contradiction (Hne eq_refl Hnil) | exact Hone].
  - intros i Hi. destruct (Hc i Hi) as (w & Hw & Hpers). unfold is_persistent in Hpers.
    destruct (handlers w) as [c | data] eqn:Hh; [| discriminate Hpers]. eauto.
Qed.

Lemma temporary_socket_sends_once_witness :
  exists st,
    steps [CallInitialize (VStr "123456"); CallSend (VStr "hello"); Opened 1%nat] initial
      = Some st /\
    exists w data,
      sockets st !! 1%nat = Some w /\ handlers w = Temporary data /\
      frames w = [encode data].
Proof.
  eexists. split; [vm_compute; reflexivity |].
  eapply (temporary_socket_sends_once
            [CallInitialize (VStr "123456"); CallSend (VStr "hello"); Opened 1%nat]).
  - vm_compute. reflexivity.
  - vm_compute. reflexivity.
Defined.



Lemma alter_last {A} (f : A -> A) (l : list A) (x : A) :
  alter f (length l) (l ++ [x])%list = (l ++ [f x])%list.
Proof. induction l as [| y l IH]; cbn; [reflexivity | f_equal; exact IH]. Qed.

Lemma insert_last {A} (l : list A) (x y : A) :
  <[length l := y]> (l ++ [x])%list = (l ++ [y])%list.
Proof. induction l as [| z l IH]; cbn; [reflexivity | f_equal; exact IH]. Qed.

Lemma lookup_last {A} (l : list A) (x : A) : (l ++ [x])%list !! length l = Some x.
Proof. apply list_lookup_middle. reflexivity. Qed.

Lemma send_connected data st :
  connected st = true ->
  exists i w,
    socket st = Some i /\ sockets st !! i = Some w /\
    sendWebSocketMessage data st
      = ( with_sockets (<[i := {| ready := OPEN; handlers := handlers w;
                                  frames := (frames w ++ [encode data])%list |}]>
                          (sockets st)) st,
          Resolved ).
Proof.
  intros Hc. unfold connected in Hc. destruct (socket st) as [i |] eqn:Hi; [| discriminate].
  unfold is_open, readyState_of in Hc.
  destruct (sockets st !! i) as [w |] eqn:Hw; [| discriminate]. cbn in Hc.
  destruct (ready w) eqn:Hr; try discriminate.
  exists i, w. split; [reflexivity |]. split; [exact Hw |].
  unfold sendWebSocketMessage. rewrite Hi.
  unfold is_open, readyState_of, ws_send. rewrite Hw. cbn.
  rewrite Hr. reflexivity.
Qed.

Lemma send_temporary data st :
  connected st = false ->
  sendWebSocketMessage data st
  = ( with_send (length (sockets st)) Pending
        (snd (setTimeout (SendTimeout (length (sockets st))) 5000
                (snd (new_WebSocket (Temporary data) st)))),
      Pending ).
Proof.
  intros Hc. unfold sendWebSocketMessage. unfold connected in Hc.
  destruct (socket st) as [i |]; [rewrite Hc |]; reflexivity.
Qed.

(** X13: the two ways of [sendWebSocketMessage]. On an open persistent
    connection the text goes out on that connection and the promise is
    resolved at once; no socket and no timer is created. Otherwise a
    temporary socket and a 5 second guard timer are created and the promise
    is pending. If the socket then opens, it sends the text, starts closing
    and resolves the promise, and the guard timer, when it fires, changes
    nothing any more. If the guard fires first, the socket is closed without
    having sent anything and the promise is rejected. An error event on the
    socket rejects the promise as well. *)
Theorem sendWebSocketMessage_paths (data : value) (st : state) :
  let t := length (sockets st) in
  let k := next_timer st in
  let temporary r sent := {| ready := r; handlers := Temporary data; frames := sent |} in
  (connected st = true ->
   exists i w,
     socket st = Some i /\ sockets st !! i = Some w /\
     sendWebSocketMessage data st
       = ( with_sockets (<[i := {| ready := OPEN; handlers := handlers w;
                                   frames := (frames w ++ [encode data])%list |}]>
                           (sockets st)) st,
           Resolved )) /\
  (connected st = false ->
   exists st1,
     sendWebSocketMessage data st = (st1, Pending) /\
     sockets st1 = (sockets st ++ [temporary CONNECTING []])%list /\
     timers st1
       = <[k := {| run := SendTimeout t; delay := 5000; repeats := false |}]> (timers st) /\
     sends st1 !! t = Some Pending /\
     socket st1 = socket st /\
     (exists st2 st3,
        step (Opened t) st1 = Some st2 /\
        sockets st2 = (sockets st ++ [temporary CLOSING [encode data]])%list /\
        sends st2 !! t = Some Resolved /\
        step (Fired k) st2 = Some st3 /\
        sockets st3 = sockets st2 /\ sends st3 = sends st2 /\ timers st3 !! k = None) /\
     (exists st2,
        step (Fired k) st1 = Some st2 /\
        sockets st2 = (sockets st ++ [temporary CLOSING []])%list /\
        sends st2 !! t = Some Rejected /\
        step (Opened t) st2 = None) /\
     (exists st2,
        step (Errored t) st1 = Some st2 /\
        sockets st2 = sockets st1 /\ sends st2 !! t = Some Rejected)).
Proof.
  intros t k temporary. split.
  - apply send_connected.
  - intros Hc. rewrite (send_temporary data st Hc). clear Hc.
    destruct st as [sock rt pi ss tm nt sd]. cbn in t, k. subst t k.
    eexists. split; [reflexivity |]. cbn.
    split; [reflexivity |]. split; [reflexivity |].
    split; [apply lookup_insert_eq |]. split; [reflexivity |].
    split; [| split].
    + exists {| socket := sock; reconnectTimeout := rt; pingInterval := pi;
                sockets := (ss ++ [temporary CLOSING [encode data]])%list;
                timers := <[nt := {| run := SendTimeout (length ss); delay := 5000;
                                     repeats := false |}]> tm;
                next_timer := S nt;
                sends := <[length ss := Resolved]> (<[length ss := Pending]> sd) |}.
      eexists. split.
      { rewrite lookup_last. cbn.
        unfold temp_onopen, ws_send, ws_close, readyState_of, set_ready, resolve, settle.
        repeat (cbn; rewrite ?insert_last, ?lookup_last, ?lookup_insert_eq).
        reflexivity. }
      split; [reflexivity |]. split; [apply lookup_insert_eq |]. split.
      { cbn. rewrite lookup_insert_eq. cbn.
        unfold temp_timeout, ws_close, readyState_of, set_ready, reject, settle.
        repeat (cbn; rewrite ?insert_last, ?lookup_last, ?lookup_insert_eq).
        reflexivity. }
      cbn. split; [reflexivity |]. split; [reflexivity |]. apply lookup_delete_eq.
    + exists {| socket := sock; reconnectTimeout := rt; pingInterval := pi;
                sockets := (ss ++ [temporary CLOSING []])%list;
                timers := delete nt
                            (<[nt := {| run := SendTimeout (length ss); delay := 5000;
                                        repeats := false |}]> tm);
                next_timer := S nt;
                sends := <[length ss := Rejected]> (<[length ss := Pending]> sd) |}.
      split.
      { cbn. rewrite lookup_insert_eq. cbn.
        unfold temp_timeout, ws_close, readyState_of, set_ready, reject, settle.
        repeat (cbn; rewrite ?insert_last, ?lookup_last, ?lookup_insert_eq).
        reflexivity. }
      split; [reflexivity |]. split; [apply lookup_insert_eq |].
      cbn. rewrite lookup_last. reflexivity.
    + eexists. split.
      { rewrite lookup_last. cbn. unfold reject, settle. cbn. rewrite lookup_insert_eq.
        reflexivity. }
      cbn. split; [reflexivity | apply lookup_insert_eq].
Qed.


Lemma timers_clear_both st k :
  timers (clear_ping (clear_reconnect st)) !! k
  = if decide (reconnectTimeout st = Some k \/ pingInterval st = Some k)
    then None else timers st !! k.
Proof.
  unfold clear_ping, clear_reconnect.
  destruct st as [sock [r |] [p |] ss tm nt sd]; cbn;
    rewrite ?lookup_delete; repeat case_decide; try reflexivity;
    exfalso; intuition congruence.
Qed.

Lemma vars_clear_both st :
  reconnectTimeout (clear_ping (clear_reconnect st)) = None /\
  pingInterval (clear_ping (clear_reconnect st)) = None.
Proof.
  unfold clear_ping, clear_reconnect.
  destruct st as [sock [r |] [p |] ss tm nt sd]; split; reflexivity.
Qed.

Lemma initializeWebSocket_idle c st : connected st = true -> initializeWebSocket c st = st.
Proof. intros Hc. unfold initializeWebSocket. fold (connected st). rewrite Hc. reflexivity. Qed.

Lemma initializeWebSocket_new c st :
  connected st = false ->
  initializeWebSocket c st
  = (let st1 := clear_ping (clear_reconnect st) in
     {| socket := Some (length (sockets st1));
        reconnectTimeout := reconnectTimeout st1; pingInterval := pingInterval st1;
        sockets := (sockets st1 ++ [{| ready := CONNECTING; handlers := Persistent c;
                                       frames := [] |}])%list;
        timers := timers st1; next_timer := next_timer st1; sends := sends st1 |}).
Proof. intros Hc. unfold initializeWebSocket. fold (connected st). rewrite Hc. reflexivity. Qed.

(** X14: [initializeWebSocket] changes nothing when the connection named
    by [socket] is open. In every other case (none yet, still connecting,
    closing, closed) it creates one new socket with the persistent handlers
    for the given access code and makes it the current one; it cancels the
    pending reconnect timer and the keepalive interval; and it leaves every
    existing socket as it is, the previous one included, which is not
    closed. So a second call before the first connection has opened creates
    a second connection beside the first. *)
Theorem initializeWebSocket_effect (accessCode again : value) (st : state) :
  let st' := initializeWebSocket accessCode st in
  let fresh c := {| ready := CONNECTING; handlers := Persistent c; frames := [] |} in
  (connected st = true -> st' = st) /\
  (connected st = false ->
     sockets st' = (sockets st ++ [fresh accessCode])%list /\
     socket st' = Some (length (sockets st)) /\
     reconnectTimeout st' = None /\ pingInterval st' = None /\
     (forall k, timers st' !! k
                = if decide (reconnectTimeout st = Some k \/ pingInterval st = Some k)
                  then None else timers st !! k) /\
     sends st' = sends st /\
     sockets (initializeWebSocket again st')
       = (sockets st ++ [fresh accessCode; fresh again])%list).
Proof.
  intros st' fresh. subst st'. split; [apply initializeWebSocket_idle |].
  intros Hc. rewrite (initializeWebSocket_new accessCode st Hc). cbv zeta.
  set (st1 := clear_ping (clear_reconnect st)).
  assert (E1 : sockets st1 = sockets st)
    by (unfold st1; rewrite sockets_clear_ping, sockets_clear_reconnect; reflexivity).
  cbn [sockets socket reconnectTimeout pingInterval timers sends].
  rewrite E1.
  split; [reflexivity |]. split; [reflexivity |].
  destruct (vars_clear_both st) as [Er Ep]. fold st1 in Er, Ep.
  split; [exact Er |]. split; [exact Ep |].
  split; [intros k; apply timers_clear_both |].
  split.
  { unfold st1, clear_ping, clear_reconnect.
    destruct st as [sock [r |] [p |] ss tm nt sd]; reflexivity. }
  unfold initializeWebSocket, is_open, readyState_of. rewrite Er, Ep.
  cbn [socket sockets with_vars].
  rewrite lookup_last. cbn. rewrite <- app_assoc. reflexivity.
Qed.


Lemma closing_twice w : closing (closing w) = closing w.
Proof. unfold closing. destruct (ready w) eqn:R; cbn; rewrite ?R; reflexivity. Qed.

(** X15: after [closeWebSocket] the three module variables are empty and
    the two timers they named are cancelled; the socket that was current
    has started closing (unless it was closing or closed already), and no
    other socket is touched. Closing again changes nothing. A message sent
    afterwards never goes out on the closed connection: it opens a temporary
    socket of its own. *)
Theorem closeWebSocket_effect (st : state) (data : value) :
  let st' := closeWebSocket st in
  socket st' = None /\ reconnectTimeout st' = None /\ pingInterval st' = None /\
  (forall k, timers st' !! k
             = if decide (reconnectTimeout st = Some k \/ pingInterval st = Some k)
               then None else timers st !! k) /\
  sockets st' = match socket st with
                | Some i => alter closing i (sockets st)
                | None => sockets st
                end /\
  closeWebSocket st' = st' /\
  connected st' = false /\
  snd (sendWebSocketMessage data st') = Pending /\
  sockets (fst (sendWebSocketMessage data st'))
    = (sockets st' ++ [{| ready := CONNECTING; handlers := Temporary data;
                          frames := [] |}])%list.
Proof.
  intros st'.
  assert (Hs : sockets st' = match socket st with
                             | Some i => alter closing i (sockets st)
                             | None => sockets st
                             end).
  { unfold st', closeWebSocket. rewrite sockets_clear_ping, sockets_clear_reconnect.
    destruct (socket st) as [i |]; [| reflexivity].
    cbn [sockets with_vars]. rewrite ws_close_update. reflexivity. }
  assert (Hv : socket st' = None /\ reconnectTimeout st' = None /\ pingInterval st' = None).
  { unfold st', closeWebSocket. split; [| apply vars_clear_both].
    rewrite socket_clear_ping, socket_clear_reconnect.
    destruct (socket st) as [i |] eqn:E; [reflexivity | exact E]. }
  destruct Hv as (Hsock & Hr & Hp).
  split; [exact Hsock |]. split; [exact Hr |]. split; [exact Hp |]. split.
  { intros k. unfold st', closeWebSocket. rewrite timers_clear_both.
    destruct (socket st) as [i |]; [| reflexivity].
    cbn [with_vars reconnectTimeout pingInterval timers]. rewrite ws_close_update. reflexivity. }
  split; [exact Hs |]. split.
  { unfold closeWebSocket at 1. rewrite Hsock.
    unfold clear_ping, clear_reconnect. rewrite Hr. rewrite Hp. reflexivity. }
  assert (Hc : connected st' = false) by (unfold connected; rewrite Hsock; reflexivity).
  split; [exact Hc |]. rewrite (send_temporary data st' Hc). split; reflexivity.
Qed.

Lemma attempts_insert ss i w w' :
  ss !! i = Some w -> handlers w' = handlers w ->
  length (List.filter is_persistent (<[i := w']> ss))
  = length (List.filter is_persistent ss).
Proof.
  intros Hw Hh. revert i Hw. induction ss as [| x ss IH]; intros [| i] Hw; try discriminate.
  - injection Hw as ->. change (<[0%nat := w']> (w :: ss)) with (w' :: ss).
    cbn [List.filter].
    assert (Hp : is_persistent w' = is_persistent w) by (unfold is_persistent; rewrite Hh; reflexivity).
    rewrite Hp. destruct (is_persistent w); reflexivity.
  - change (<[S i := w']> (x :: ss)) with (x :: <[i := w']> ss).
    cbn [List.filter]. destruct (is_persistent x); cbn [length]; rewrite (IH i Hw);
      reflexivity.
Qed.

(** X16: when a socket with the persistent handlers closes (it has not
    closed before), [onclose] cancels the keepalive interval and arms one
    reconnect timer of 5000 ms for the access code the socket was created
    with, and records it in [reconnectTimeout]. If the closed socket was the
    current one, the timer, when it fires, opens exactly one new connection
    with the same access code, makes it current, and is gone. *)
Theorem reconnect_on_close (st : state) (i : nat) (w : websocket) (accessCode : value) :
  sockets st !! i = Some w -> handlers w = Persistent accessCode -> ready w <> CLOSED ->
  let r := next_timer st in
  exists st1,
    step (Closed i) st = Some st1 /\
    sockets st1 = <[i := set_state CLOSED w]> (sockets st) /\
    socket st1 = socket st /\
    reconnectTimeout st1 = Some r /\ pingInterval st1 = None /\
    timers st1 !! r = Some {| run := Reconnect accessCode; delay := RECONNECT_DELAY_MS;
                              repeats := false |} /\
    (forall k, k <> r ->
       timers st1 !! k = if decide (pingInterval st = Some k) then None else timers st !! k) /\
    (socket st = Some i ->
     exists st2,
       step (Fired r) st1 = Some st2 /\
       sockets st2 = (sockets st1 ++ [{| ready := CONNECTING;
                                         handlers := Persistent accessCode;
                                         frames := [] |}])%list /\
       socket st2 = Some (length (sockets st)) /\
       reconnectTimeout st2 = None /\ timers st2 !! r = None /\
       attempts st2 = S (attempts st)).
Proof.
  intros Hw Hh Hr r.
  pose proof (lookup_lt_Some _ _ _ Hw) as Hlt.
  destruct st as [sock rt pi ss tm nt sd]. cbn in Hw, Hlt, r. subst r.
  set (tmr := {| run := Reconnect accessCode; delay := RECONNECT_DELAY_MS; repeats := false |}).
  exists {| socket := sock; reconnectTimeout := Some nt; pingInterval := None;
            sockets := <[i := set_state CLOSED w]> ss;
            timers := <[nt := tmr]> (match pi with Some p => delete p tm | None => tm end);
            next_timer := S nt; sends := sd |}.
  split.
  { cbn [step sockets]. rewrite Hw. unfold set_ready, set_state. cbn [sockets].
    rewrite Hw, Hh.
    unfold onclose, clear_ping. destruct pi as [p |];
      destruct (ready w); try contradiction; reflexivity. }
  cbn [sockets socket reconnectTimeout pingInterval timers].
  split; [reflexivity |]. split; [reflexivity |]. split; [reflexivity |].
  split; [reflexivity |]. split; [apply lookup_insert_eq |]. split.
  { intros k Hk. rewrite lookup_insert_ne by congruence.
    destruct pi as [p |].
    - rewrite lookup_delete. repeat case_decide; try reflexivity; exfalso; congruence.
    - case_decide; [discriminate | reflexivity]. }
  intros ->.
  eexists. split.
  { cbn [step timers]. rewrite lookup_insert_eq. cbn [repeats run tmr].
    unfold initializeWebSocket, is_open, readyState_of. cbn [socket sockets clear_timer].
    rewrite list_lookup_insert_eq by exact Hlt. cbn.
    reflexivity. }
  cbn. rewrite length_insert.
  split; [reflexivity |]. split; [reflexivity |]. split; [reflexivity |].
  split; [apply lookup_delete_eq |].
  unfold attempts. cbn [sockets]. rewrite List.filter_app, length_app. cbn.
  rewrite (attempts_insert ss i w (set_state CLOSED w) Hw eq_refl). lia.
Qed.

Lemma reconnect_on_close_witness :
  exists st st1 st2,
    steps [CallInitialize (VStr "123456"); Opened 0%nat] initial = Some st /\
    step (Closed 0%nat) st = Some st1 /\
    step (Fired (next_timer st)) st1 = Some st2 /\
    attempts st2 = S (attempts st).
Proof.
  eexists. 
  destruct (reconnect_on_close
              {| socket := Some 0%nat; reconnectTimeout := None; pingInterval := Some 1%nat;
                 sockets := [{| ready := OPEN; handlers := Persistent (VStr "123456");
                                frames := [encode (registerMessage (VStr "123456"))] |}];
                 timers := {[1%nat := {| run := Ping; delay := PING_INTERVAL_MS;
                                         repeats := true |}]};
                 next_timer := 2; sends := ∅ |}
              0%nat _ (VStr "123456") eq_refl eq_refl)
    as (st1 & H1 & _ & _ & _ & _ & _ & _ & H2).
  - discriminate.
  - destruct (H2 eq_refl) as (st2 & H3 & _ & _ & _ & _ & H4).
    exists st1, st2. split; [vm_compute; reflexivity |]. auto.
Defined.


(** X17: when the current persistent socket opens, [onopen] sends the
    registration message on it and starts the keepalive interval of 30000
    ms, recorded in [pingInterval]. Each time the interval fires while the
    current socket is open, the bare text ["ping"] goes out on it (no JSON
    packet), and the interval stays armed; when the current socket is not
    open, or there is none, a firing sends nothing and changes nothing. *)
Theorem keepalive_ping (st : state) (i : nat) (w : websocket) (accessCode : value) :
  socket st = Some i -> sockets st !! i = Some w ->
  ready w = CONNECTING -> handlers w = Persistent accessCode ->
  let p := next_timer st in
  let interval := {| run := Ping; delay := PING_INTERVAL_MS; repeats := true |} in
  let opened sent :=
    {| ready := OPEN; handlers := Persistent accessCode;
       frames := (frames w ++ sent)%list |} in
  (exists st1 st2,
     step (Opened i) st = Some st1 /\
     sockets st1 = <[i := opened [encode (registerMessage accessCode)]]> (sockets st) /\
     pingInterval st1 = Some p /\
     timers st1 = <[p := interval]> (timers st) /\
     step (Fired p) st1 = Some st2 /\
     sockets st2
       = <[i := opened [encode (registerMessage accessCode); "ping"]]> (sockets st) /\
     timers st2 = timers st1 /\ pingInterval st2 = Some p) /\
  (forall idle k,
     timers idle !! k = Some interval -> connected idle = false ->
     step (Fired k) idle = Some idle).
Proof.
  intros Hi Hw Hr Hh p interval opened.
  pose proof (lookup_lt_Some _ _ _ Hw) as Hlt.
  split.
  - destruct st as [sock rt pi ss tm nt sd]. cbn in Hi, Hw, Hlt, p. subst sock p.
    exists {| socket := Some i; reconnectTimeout := rt; pingInterval := Some nt;
              sockets := <[i := opened [encode (registerMessage accessCode)]]> ss;
              timers := <[nt := interval]> tm; next_timer := S nt; sends := sd |}.
    exists {| socket := Some i; reconnectTimeout := rt; pingInterval := Some nt;
              sockets := <[i := opened [encode (registerMessage accessCode); "ping"]]> ss;
              timers := <[nt := interval]> tm; next_timer := S nt; sends := sd |}.
    split.
    { cbn [step sockets]. rewrite Hw, Hr, Hh.
      unfold onopen, set_ready, ws_send. cbn [sockets socket with_sockets]. rewrite Hw.
      cbn [sockets socket with_sockets].
      rewrite list_lookup_insert_eq by exact Hlt. cbn -[encode].
      rewrite list_insert_insert_eq, Hh. reflexivity. }
    cbn [sockets pingInterval timers].
    split; [reflexivity |]. split; [reflexivity |]. split; [reflexivity |].
    split; [| repeat split; reflexivity].
    cbn [step timers]. rewrite lookup_insert_eq. cbn [repeats run interval].
    unfold ping, is_open, readyState_of, ws_send. cbn [socket sockets].
    rewrite list_lookup_insert_eq by exact Hlt. cbn -[encode].
    rewrite list_insert_insert_eq, <- app_assoc. reflexivity.
  - intros idle k Hk Hidle. cbn [step]. rewrite Hk. cbn [repeats run interval].
    unfold ping. unfold connected in Hidle.
    destruct (socket idle) as [j |]; [rewrite Hidle |]; reflexivity.
Qed.

Lemma keepalive_ping_witness :
  exists st1 st2,
    steps [CallInitialize (VStr "123456"); Opened 0%nat] initial = Some st1 /\
    step (Fired 1%nat) st1 = Some st2 /\
    (frames <$> sockets st2 !! 0%nat)
      = Some [encode (registerMessage (VStr "123456")); "ping"].
Proof.
  destruct (keepalive_ping
              {| socket := Some 0%nat; reconnectTimeout := None; pingInterval := None;
                 sockets := [{| ready := CONNECTING; handlers := Persistent (VStr "123456");
                                frames := [] |}];
                 timers := ∅; next_timer := 1; sends := ∅ |}
              0%nat _ (VStr "123456") eq_refl eq_refl eq_refl eq_refl)
    as [(st1 & st2 & H1 & _ & _ & _ & H2 & H3 & _) _].
  exists st1, st2. split; [exact H1 |]. split; [exact H2 |]. rewrite H3. reflexivity.
Defined.


(** X23: a persistent socket that opens after another connection has
    taken its place (after a further [initializeWebSocket] while it was
    connecting) becomes open, but its [onopen] works on the [socket]
    variable, not on the socket that opened: nothing is sent on the socket
    that opened, and no other socket than the current one is touched. When
    the current connection is open, the registration for the access code of
    the superseded socket goes out on the current connection, and a further
    keepalive interval is started and recorded in [pingInterval], the timers
    that were there staying armed. When the current connection is still
    connecting, the send throws: nothing is registered anywhere and no
    keepalive interval is started. When it is closing or closed, the
    registration is lost and the interval is started all the same. *)
Theorem superseded_socket_opens (st : state) (i j : nat) (w wj : websocket)
    (accessCode : value) :
  socket st = Some j -> i <> j ->
  sockets st !! i = Some w -> ready w = CONNECTING -> handlers w = Persistent accessCode ->
  sockets st !! j = Some wj ->
  let interval := {| run := Ping; delay := PING_INTERVAL_MS; repeats := true |} in
  exists st1,
    step (Opened i) st = Some st1 /\
    sockets st1 !! i = Some (set_state OPEN w) /\
    socket st1 = Some j /\
    sockets st1 !! j = Some (push (encode (registerMessage accessCode)) wj) /\
    (forall k, k <> i -> k <> j -> sockets st1 !! k = sockets st !! k) /\
    match ready wj with
    | CONNECTING => timers st1 = timers st /\ pingInterval st1 = pingInterval st
    | _ => timers st1 = <[next_timer st := interval]> (timers st) /\
           pingInterval st1 = Some (next_timer st)
    end.
Proof.
  intros Hj Hij Hw Hr Hh Hwj interval.
  pose proof (lookup_lt_Some _ _ _ Hw) as Hlt.
  pose proof (lookup_lt_Some _ _ _ Hwj) as Hltj.
  destruct st as [sock rt pi ss tm nt sd]. cbn in Hj, Hw, Hwj, Hlt, Hltj. subst sock.
  cbn [step sockets]. rewrite Hw, Hr, Hh.
  unfold onopen, set_ready, ws_send. cbn [sockets socket with_sockets]. rewrite Hw.
  cbn [sockets socket with_sockets].
  rewrite list_lookup_insert_ne by exact Hij. rewrite Hwj.
  unfold push, set_state.
  destruct wj as [rj hj fj]. cbn [ready handlers frames] in *.
  destruct rj; cbn -[encode]; eexists; (split; [reflexivity |]); cbn -[encode];
    repeat split;
    try (intros k Hki Hkj);
    rewrite ?(list_lookup_insert_ne _ j) by congruence;
    rewrite ?(list_lookup_insert_ne _ i) by congruence;
    rewrite ?list_lookup_insert_eq by (rewrite ?length_insert; assumption);
    first [reflexivity | assumption].
Qed.

Lemma superseded_socket_opens_witness :
  exists st st1,
    steps [CallInitialize (VStr "123456"); CallInitialize (VStr "123456")] initial = Some st /\
    step (Opened 0%nat) st = Some st1 /\
    (ready <$> sockets st1 !! 0%nat) = Some OPEN /\
    (frames <$> sockets st1 !! 0%nat) = Some [] /\
    (frames <$> sockets st1 !! 1%nat) = Some [] /\
    pingInterval st1 = None.
Proof.
  eexists.
  destruct (superseded_socket_opens
              {| socket := Some 1%nat; reconnectTimeout := None; pingInterval := None;
                 sockets := [ {| ready := CONNECTING; handlers := Persistent (VStr "123456");
                                 frames := [] |};
                              {| ready := CONNECTING; handlers := Persistent (VStr "123456");
                                 frames := [] |} ];
                 timers := ∅; next_timer := 1; sends := ∅ |}
              0%nat 1%nat _ _ (VStr "123456") eq_refl ltac:(discriminate) eq_refl eq_refl
              eq_refl eq_refl)
    as (st1 & H1 & H2 & _ & H3 & _ & _ & H4).
  exists st1. split; [vm_compute; reflexivity |]. split; [exact H1 |].
  rewrite H2, H3. repeat split; assumption || reflexivity.
Defined.

End TransportInvariants.

(** ** Inbound frames, the background script and the popup *)

Section Inbound.
Import CommandHandler Receive.

Lemma untyped_executeCommand_quiet b command params :
  sent (snd (Untyped.executeCommand b command params)) = [].
Proof.
  unfold Untyped.executeCommand.
  destruct command; try (destruct (template _); reflexivity).
  destruct params; try apply executeCommand_quiet;
    (destruct (Untyped.first_read s); [reflexivity | apply executeCommand_quiet]).
Qed.

(** What [processCommand] does with a packet whose data is there and whose
    command converts to text. *)
Lemma untyped_processCommand_run b packet :
  has_data packet = true -> printable (data_field packet "command") = true ->
  match fst (Untyped.executeCommand b (data_field packet "command")
               (data_field packet "params")) with
  | Settles _ =>
      (exists r, fst (Untyped.processCommand b packet) = Settles r) /\
      if printable (data_field packet "commandId")
      then exists pkt,
             sent (snd (Untyped.processCommand b packet)) = [pkt] /\
             get pkt "type" = VStr "COMMAND_RESULT" /\
             data_field pkt "commandId" = data_field packet "commandId" /\
             data_field pkt "accessCode" = data_field packet "accessCode"
      else sent (snd (Untyped.processCommand b packet)) = []
  | Hangs =>
      fst (Untyped.processCommand b packet) = Hangs /\
      sent (snd (Untyped.processCommand b packet)) = []
  end.
Proof.
  unfold has_data, data_field, Untyped.processCommand. intros Hd Hc.
  destruct (get packet "data") as [| | x | x | x | x | x | x] eqn:Ed;
    try discriminate Hd;
    unfold template; rewrite Hc;
    match goal with
    | |- context [Untyped.executeCommand b ?c ?ps] =>
        pose proof (untyped_executeCommand_quiet b c ps) as Hq;
        destruct (Untyped.executeCommand b c ps) as [r log]
    end;
    cbn [fst snd] in Hq |- *; unfold Untyped.sendCommandResult, template;
    (destruct r as [[v | [e | v]] |]; [| | | split; [reflexivity | exact Hq]]);
    match goal with
    | |- context [printable ?c] => destruct (printable c)
    end;
    unfold after; cbn [fst snd]; rewrite sent_app, Hq;
    (split; [eexists; reflexivity |]);
    first [ reflexivity
          | eexists; (split; [reflexivity |]); repeat split; reflexivity ].
Qed.

Lemma untyped_processCommand_typed b p :
  Untyped.processCommand b (CommandPacket_value p) = processCommand b p.
Proof. destruct p. reflexivity. Qed.

Lemma caught_settles {A} (m : M A) e : fst (caught m) <> Settles (Throw e).
Proof. unfold caught. cbn [fst]. destruct (fst m); discriminate. Qed.

(** X18: the message handler never rejects, whatever text arrives, and
    what it does with a frame is settled by the parsed text alone. A frame
    is run when it is JSON for a packet whose [type] is ["COMMAND"], whose
    [data] is there and whose [command] converts to text. Once the command
    has settled, the handler resolves, and the frame has been answered with
    one COMMAND_RESULT, which carries the [commandId] and [accessCode] found
    in the data, whatever else the packet holds and whether or not the
    command is known; only a [commandId] that does not convert to text
    leaves it without an answer. While the command stays pending, so does
    the handler, and nothing is sent. Every other frame has no effect at
    all: the keepalive answer ["pong"], text that is not JSON, the JSON text
    [null], a packet of another kind or without a kind, and a COMMAND
    without data. *)
Theorem onmessage_robust (b : Browser) (data : string) :
  let m := onmessage b data in
  (forall e, fst m <> Settles (Throw e)) /\
  JSON.parse "pong" = None /\
  match JSON.parse data with
  | Some packet =>
      if runnable packet
      then match fst (Untyped.executeCommand b (data_field packet "command")
                        (data_field packet "params")) with
           | Settles _ =>
               fst m = Ok tt /\
               if printable (data_field packet "commandId")
               then exists pkt,
                      sent (snd m) = [pkt] /\
                      get pkt "type" = VStr "COMMAND_RESULT" /\
                      data_field pkt "commandId" = data_field packet "commandId" /\
                      data_field pkt "accessCode" = data_field packet "accessCode"
               else sent (snd m) = []
           | Hangs => fst m = Hangs /\ sent (snd m) = []
           end
      else m = (Settles (Ok tt), [])
  | None => m = (Settles (Ok tt), [])
  end.
Proof.
  intros m. subst m. unfold onmessage.
  split; [intros e; repeat case_match; try discriminate; apply caught_settles |].
  split; [reflexivity |].
  destruct (String.eqb_spec data "pong") as [-> | Hpong]; [reflexivity |].
  destruct (JSON.parse data) as [packet |]; [| reflexivity].
  set (run := if is_type packet "COMMAND"
              then caught (Untyped.processCommand b packet)
              else ret tt).
  assert (Hgo : if runnable packet
                then match fst (Untyped.executeCommand b (data_field packet "command")
                                  (data_field packet "params")) with
                     | Settles _ =>
                         fst run = Ok tt /\
                         if printable (data_field packet "commandId")
                         then exists pkt,
                                sent (snd run) = [pkt] /\
                                get pkt "type" = VStr "COMMAND_RESULT" /\
                                data_field pkt "commandId" = data_field packet "commandId" /\
                                data_field pkt "accessCode" = data_field packet "accessCode"
                         else sent (snd run) = []
                     | Hangs => fst run = Hangs /\ sent (snd run) = []
                     end
                else run = (Settles (Ok tt), [])).
  { subst run. unfold runnable.
    destruct (is_type packet "COMMAND"); [| reflexivity]. cbn [andb].
    destruct (has_data packet) eqn:Hd; cbn [andb].
    - destruct (printable (get (get packet "data") "command")) eqn:Hc.
      + pose proof (untyped_processCommand_run b packet Hd Hc) as Hrun.
        unfold caught. cbn [fst snd].
        destruct (fst (Untyped.executeCommand b _ _)).
        * destruct Hrun as [[r' ->] Hsent]. split; [reflexivity | exact Hsent].
        * destruct Hrun as [-> Hsent]. split; [reflexivity | exact Hsent].
      + unfold has_data in Hd. unfold Untyped.processCommand, caught, template.
        revert Hc. destruct (get packet "data"); try discriminate Hd;
          intros ->; reflexivity.
    - unfold has_data in Hd. unfold Untyped.processCommand, caught.
      destruct (get packet "data"); try discriminate Hd; reflexivity. }
  subst run. destruct packet; first [exact Hgo | reflexivity].
Qed.

(** X19: a COMMAND packet that conforms to the declared interface, with
    parameters JSON has a notation for, is decoded from its wire text to the
    very packet, recognised as a command and run by [processCommand]: what
    the handler does is what [processCommand] does for that packet. Once
    the command has settled, exactly one COMMAND_RESULT with the packet's
    [commandId] has been handed to the transport, and the handler resolves
    even when the command failed or the send was rejected; while the
    command stays pending, the handler does too, and nothing is sent. *)
Theorem onmessage_command (b : Browser) (p : CommandPacket) :
  clean (VObj (params p)) = true ->
  let m := onmessage b (Ws.encode (CommandPacket_value p)) in
  m = caught (processCommand b p) /\
  match fst (executeCommand b (command p) (params p)) with
  | Settles _ =>
      fst m = Ok tt /\
      exists pkt,
        sent (snd m) = [pkt] /\
        get pkt "type" = VStr "COMMAND_RESULT" /\
        data_field pkt "commandId" = VStr (commandId p) /\
        data_field pkt "accessCode" = VStr (accessCode p)
  | Hangs => fst m = Hangs /\ sent (snd m) = []
  end.
Proof.
  intros Hclean m.
  assert (Hm : m = caught (processCommand b p)).
  { subst m. unfold onmessage.
    assert (Hne : String.eqb (Ws.encode (CommandPacket_value p)) "pong" = false)
      by reflexivity.
    rewrite Hne. rewrite decode_encode.
    - pose proof (untyped_processCommand_typed b p) as Htyped.
      assert (Htype : is_type (CommandPacket_value p) "COMMAND" = true) by reflexivity.
      destruct (CommandPacket_value p) eqn:Hv;
        try (unfold CommandPacket_value in Hv; discriminate Hv).
      rewrite Htype, Htyped. reflexivity.
    - cbn [CommandPacket_value clean forallb snd map fst member PacketType].
      cbn [clean] in Hclean. cbn. rewrite Hclean. reflexivity. }
  split; [exact Hm |]. rewrite Hm. unfold caught. cbn [fst snd].
  pose proof (processCommand_sent b p) as Hsent.
  destruct (fst (executeCommand b (command p) (params p))) as [r |] eqn:Hr.
  - destruct (processCommand_settled b p r Hr) as (pkt & _ & ->).
    split; [reflexivity |]. rewrite Hsent.
    destruct r as [v | [e | v]]; eexists; (split; [reflexivity |]);
      repeat split; reflexivity.
  - rewrite (processCommand_pending b p Hr). split; [reflexivity | exact Hsent].
Qed.

Lemma onmessage_command_witness :
  exists pkt,
    sent (snd (onmessage Sample.browser
                 (Ws.encode (CommandPacket_value
                               (Sample.packet "getText" [("selector", VStr "h1")])))))
      = [pkt] /\
    data_field pkt "result" = VArr [VStr "Hello"].
Proof.
  destruct (onmessage_command Sample.browser
              (Sample.packet "getText" [("selector", VStr "h1")]) eq_refl)
    as (H & _).
  rewrite H. eexists. split; [vm_compute; reflexivity | reflexivity].
Defined.

End Inbound.

Section BackgroundAndPopup.
Import Ws.

(** X20: what a run of [keepAlive] does to the transport. While the
    persistent connection is open, it sends the INIT packet on it and
    creates nothing. In every other state it opens a persistent connection
    for the access code and, as that one is not open yet, a temporary
    connection of its own for the INIT packet: two new sockets for every
    run. An alarm with any other name than ["lamela-keepAlive"] changes
    nothing. *)
Theorem keepAlive_connections (h : Background.host) (w : Background.world) :
  let ws := Background.transport w in
  let code := snd (Background.keepAlive h w) in
  let ws' := Background.transport (fst (Background.keepAlive h w)) in
  let init := Background.init_message h code in
  (connected ws = true ->
   exists i s,
     socket ws = Some i /\ sockets ws !! i = Some s /\
     sockets ws' = <[i := {| ready := OPEN; handlers := handlers s;
                             frames := (frames s ++ [encode init])%list |}]> (sockets ws) /\
     timers ws' = timers ws) /\
  (connected ws = false ->
   sockets ws'
     = (sockets ws ++ [ {| ready := CONNECTING; handlers := Persistent code; frames := [] |};
                        {| ready := CONNECTING; handlers := Temporary init;
                           frames := [] |} ])%list /\
   socket ws' = Some (length (sockets ws)) /\
   sends ws' !! S (length (sockets ws)) = Some Pending) /\
  (forall name, name <> "lamela-keepAlive" -> Alarms.onAlarm h name w = w) /\
  Alarms.onAlarm h "lamela-keepAlive" w = fst (Background.keepAlive h w).
Proof.
  intros ws code ws' init.
  assert (Hws' : ws' = fst (sendWebSocketMessage init (initializeWebSocket code ws)))
    by reflexivity.
  split; [| split; [| split]].
  - intros Hc. rewrite Hws', (initializeWebSocket_idle code ws Hc).
    destruct (send_connected init ws Hc) as (i & s & Hi & Hs & ->).
    exists i, s. repeat split; assumption || reflexivity.
  - intros Hc. rewrite Hws', (initializeWebSocket_new code ws Hc). cbv zeta.
    set (st1 := clear_ping (clear_reconnect ws)).
    assert (E1 : sockets st1 = sockets ws)
      by (unfold st1; rewrite sockets_clear_ping, sockets_clear_reconnect; reflexivity).
    rewrite send_temporary.
    + cbn [fst sockets socket sends with_send setTimeout set_timer new_WebSocket snd].
      rewrite E1, <- app_assoc. split; [reflexivity |]. split; [reflexivity |].
      rewrite length_app. cbn [length]. rewrite Nat.add_1_r. apply lookup_insert_eq.
    + unfold connected, is_open, readyState_of. cbn [socket sockets].
      rewrite lookup_last. reflexivity.
  - intros name Hname. unfold Alarms.onAlarm.
    destruct (String.eqb_spec name "lamela-keepAlive"); [contradiction | reflexivity].
  - reflexivity.
Qed.

(** X21: when the popup opens and has both its [status] and its
    [accessCode] element, it shows a code generated on the spot, for every
    value [Math.random()] can return a string of six decimal digits from
    100000 to 999999, and the status ["Ready to connect"] with the class
    ["status connected"], whatever the state of the connection; the class of
    the code element and every other element stay as they are. When either
    element is missing, nothing is changed. *)
Theorem popup_shows_code (r : Double.dyadic) (doc : Popup.document) :
  Double.unit_interval r ->
  (forall status code,
     doc !! "status" = Some status -> doc !! "accessCode" = Some code ->
     exists n,
       100000 <= n <= 999999 /\ String.length (int_to_string n) = 6%nat /\
       all_digits (int_to_string n) = true /\
       Popup.onPopupOpen r doc !! "accessCode"
         = Some {| Popup.textContent := int_to_string n;
                   Popup.className := Popup.className code |} /\
       Popup.onPopupOpen r doc !! "status"
         = Some {| Popup.textContent := "Ready to connect";
                   Popup.className := "status connected" |} /\
       forall id, id <> "status" -> id <> "accessCode" ->
                  Popup.onPopupOpen r doc !! id = doc !! id) /\
  (doc !! "status" = None \/ doc !! "accessCode" = None -> Popup.onPopupOpen r doc = doc).
Proof.
  intros Hr. unfold Popup.onPopupOpen, Popup.updatePopupUI. split.
  - intros status code Hs Hc. rewrite Hs, Hc. cbn [Popup.isConnected].
    destruct (generateAccessCode_digits r Hr) as (n & Hn & Hgen & Hlen & Hdig).
    exists n. split; [exact Hn |]. split; [exact Hlen |]. split; [exact Hdig |].
    unfold Popup.getAccessCode. rewrite Hgen. unfold Popup.document in *.
    split; [| split].
    + rewrite lookup_insert_ne by discriminate. apply lookup_insert_eq.
    + apply lookup_insert_eq.
    + intros id H1 H2. rewrite !lookup_insert_ne by congruence. reflexivity.
  - intros [H | H]; rewrite H; [reflexivity |].
    destruct (doc !! "status"); reflexivity.
Qed.

Lemma popup_shows_code_witness :
  Popup.onPopupOpen (Background.Math_random Sample.later)
    {[ "status" := {| Popup.textContent := ""; Popup.className := "status" |};
       "accessCode" := {| Popup.textContent := "------"; Popup.className := "code" |} ]}
    !! "accessCode"
  = Some {| Popup.textContent := "325000"; Popup.className := "code" |}.
Proof.
  assert (Hr : Double.unit_interval (Background.Math_random Sample.later)).
  { unfold Double.unit_interval. cbn. lia. }
  destruct (popup_shows_code (Background.Math_random Sample.later)
              {[ "status" := {| Popup.textContent := ""; Popup.className := "status" |};
                 "accessCode" := {| Popup.textContent := "------";
                                    Popup.className := "code" |} ]} Hr) as [H _].
  destruct (H {| Popup.textContent := ""; Popup.className := "status" |}
              {| Popup.textContent := "------"; Popup.className := "code" |})
    as (n & _ & _ & _ & Hcode & _).
  - vm_compute. reflexivity.
  - vm_compute. reflexivity.
  - vm_compute. reflexivity.
Defined.

End BackgroundAndPopup.

(** ** What the parser returns *)

Section Parsed.
Import JSON.
















End Parsed.
